(** * Supply-chain simulation engines: a shallow embedding

    The repository holds four React components that each contain a
    discrete-time inventory/order simulation:

    - [Beer]    : beer-game/BeerGame.jsx (four echelons in a chain; the
                  older copy of the same component has the same
                  retrieval and settlement code, without the AI player);
    - [Mcd]     : the fast-food distribution-centre game (one player,
                  two AI suppliers Aryzta and Tyson);
    - [Nvidia]  : src/nvidiagame/NvidiaGame.jsx (one assembling player,
                  two AI component suppliers);
    - [Blackwell] : the earlier semiconductor component (same chain,
                  queues pruned on arrival).

    Quantities are JavaScript numbers holding integers; they are
    modelled as [Z].  Cost rates are halves and wholes, which doubles
    hold and add exactly; they are rationals [Q].  The service-level
    quotient and the demand multipliers of the fast-food game are
    rounded to doubles as the machine does ([Js.double]).  In
    NvidiaGame.jsx an order read from a remote reply can be [NaN] and
    is queued as it is, so the quantities of that game are [Js.Num],
    an integer or [NaN].
    React state is modelled by explicit state passing: an event handler
    is a function from the state it closes over to the next state. *)

From Stdlib Require Import String ZArith List Bool Lia QArith Qround Lqa.
Import ListNotations.
Open Scope Z_scope.

Set Implicit Arguments.

(** ** Generic helpers for JavaScript array idioms *)

Module Js.

(** [arr.reduce((sum, p) => sum + f(p), 0)] *)
Definition sumOf {A} (f : A -> Z) (arr : list A) : Z :=
  fold_left (fun sum p => sum + f p) arr 0.

(** [Math.floor(x)] of the rational a double holds. *)
Definition floor (x : Q) : Z := Qfloor x.

(** [Math.round(x)]: nearest integer, halves rounded up. *)
Definition round (x : Q) : Z := Qfloor (x + (1 # 2))%Q.

Lemma fold_sum_shift {A} (f : A -> Z) (arr : list A) (a : Z) :
  fold_left (fun sum p => sum + f p) arr a = a + sumOf f arr.
Proof.
  unfold sumOf. revert a.
  induction arr as [|x arr IH]; intros a; simpl.
  - lia.
  - rewrite (IH (a + f x)), (IH (f x)). lia.
Qed.

Lemma sumOf_nil {A} (f : A -> Z) : sumOf f [] = 0.
Proof. reflexivity. Qed.

Lemma sumOf_cons {A} (f : A -> Z) x arr :
  sumOf f (x :: arr) = f x + sumOf f arr.
Proof. unfold sumOf at 1. simpl. rewrite fold_sum_shift. lia. Qed.

Lemma sumOf_app {A} (f : A -> Z) l1 l2 :
  sumOf f (l1 ++ l2) = sumOf f l1 + sumOf f l2.
Proof.
  induction l1 as [|x l1 IH].
  - rewrite sumOf_nil. reflexivity.
  - rewrite <- app_comm_cons, !sumOf_cons, IH. lia.
Qed.

Lemma sumOf_nonneg {A} (f : A -> Z) arr :
  Forall (fun p => 0 <= f p) arr -> 0 <= sumOf f arr.
Proof.
  induction 1 as [|x arr Hx _ IH].
  - rewrite sumOf_nil. lia.
  - rewrite sumOf_cons. lia.
Qed.

Lemma find_app {A} (f : A -> bool) l1 l2 :
  find f (l1 ++ l2) =
  match find f l1 with Some x => Some x | None => find f l2 end.
Proof.
  induction l1 as [|x l1 IH]; simpl; [reflexivity|].
  destruct (f x); auto.
Qed.

Lemma filter_none {A} (f : A -> bool) l :
  (forall x, In x l -> f x = false) -> filter f l = [].
Proof.
  induction l as [|x l IH]; intros H; simpl; [reflexivity|].
  rewrite (H x (or_introl eq_refl)). apply IH.
  intros y Hy. apply H. now right.
Qed.

Lemma filter_filter {A} (f g : A -> bool) l :
  filter f (filter g l) = filter (fun x => g x && f x) l.
Proof.
  induction l as [|x l IH]; simpl; [reflexivity|].
  destruct (g x); simpl; [destruct (f x)|]; now rewrite IH.
Qed.

Lemma nth_nonneg (l : list Z) : forall i,
  Forall (fun a => 0 <= a) l -> 0 <= nth i l 0.
Proof.
  induction l as [|x l IH]; intros i H; destruct i; simpl; try lia.
  - now inversion H.
  - apply IH. now inversion H.
Qed.

(** *** Doubles

    JavaScript numbers are IEEE-754 doubles.  The quantities of the
    games are integers, which doubles hold exactly below [2^53]; the
    fast-food game also divides and multiplies by fractions, and every
    such operation returns the double nearest to the exact result, a
    tie going to the even significand.  [double x] is that double for a
    rational [x].  The exponent range is not modelled: the function
    agrees with the machine for results of magnitude between [2^-1022]
    and [2^1024], which covers every quotient and product of
    quantities below [2^53]. *)

(** [n / d] rounded to the nearest integer, a half going to the even
    neighbour. *)
Definition nearestEven (n d : Z) : Z :=
  let q := n / d in
  match 2 * (n mod d) ?= d with
  | Lt => q
  | Gt => q + 1
  | Eq => if Z.even q then q else q + 1
  end.

(** Numerator and denominator of [(n / d) / 2^e]. *)
Definition scaled (n d e : Z) : Z * Z :=
  if 0 <=? e then (n, d * 2 ^ e) else (n * 2 ^ (- e), d).

(** The exponent [e] with [2^52 <= (n / d) / 2^e < 2^53]. *)
Definition exponentOf (n d : Z) : Z :=
  let e0 := Z.log2 n - Z.log2 d - 53 in
  if fst (scaled n d e0) <? 2 ^ 53 * snd (scaled n d e0) then e0 else e0 + 1.

(** The double nearest to [n / d], for [n] and [d] positive. *)
Definition nearestDouble (n d : Z) : Q :=
  let e := exponentOf n d in
  let m := nearestEven (fst (scaled n d e)) (snd (scaled n d e)) in
  if 0 <=? e then inject_Z (m * 2 ^ e) else m # Z.to_pos (2 ^ (- e)).

Definition double (x : Q) : Q :=
  match Qnum x with
  | 0 => 0%Q
  | Z.pos p => nearestDouble (Z.pos p) (QDen x)
  | Z.neg p => (- nearestDouble (Z.pos p) (QDen x))%Q
  end.

Lemma nearestEven_bounds n d :
  0 <= n -> 0 < d ->
  0 <= nearestEven n d /\ 2 * nearestEven n d * d <= 2 * n + d.
Proof.
  intros Hn Hd. unfold nearestEven.
  pose proof (Z.div_mod n d ltac:(lia)) as E.
  pose proof (Z.mod_pos_bound n d Hd) as R.
  pose proof (Z.div_pos n d Hn Hd) as Q0.
  destruct (Z.compare_spec (2 * (n mod d)) d) as [C | C | C];
    [destruct (Z.even (n / d))| |]; split; nia.
Qed.

Lemma scaled_pos n d e :
  0 < n -> 0 < d -> 0 < fst (scaled n d e) /\ 0 < snd (scaled n d e).
Proof.
  intros Hn Hd. unfold scaled.
  destruct (Z.leb_spec 0 e); cbn [fst snd].
  - pose proof (Z.pow_pos_nonneg 2 e ltac:(lia) ltac:(lia)). nia.
  - pose proof (Z.pow_pos_nonneg 2 (- e) ltac:(lia) ltac:(lia)). nia.
Qed.

(** The significand is at least [2^52]. *)
Lemma exponentOf_normal n d :
  0 < n -> 0 < d ->
  2 ^ 52 * snd (scaled n d (exponentOf n d))
  <= fst (scaled n d (exponentOf n d)).
Proof.
  intros Hn Hd. unfold exponentOf.
  set (e0 := Z.log2 n - Z.log2 d - 53).
  pose proof (Z.log2_spec n Hn) as [Ln _].
  pose proof (Z.log2_spec d Hd) as [_ Ld].
  pose proof (Z.log2_nonneg n) as Nn.
  pose proof (Z.log2_nonneg d) as Nd.
  assert (Low : 2 ^ 52 * snd (scaled n d e0) <= fst (scaled n d e0)).
  { unfold scaled. destruct (Z.leb_spec 0 e0) as [He | He]; cbn [fst snd].
    - assert (P : 2 ^ 52 * (2 ^ Z.succ (Z.log2 d) * 2 ^ e0) = 2 ^ Z.log2 n).
      { rewrite <- !Z.pow_add_r by lia. f_equal. unfold e0. lia. }
      pose proof (Z.pow_pos_nonneg 2 e0 ltac:(lia) He). nia.
    - assert (P : 2 ^ Z.log2 n * 2 ^ (- e0) = 2 ^ 52 * 2 ^ Z.succ (Z.log2 d)).
      { rewrite <- !Z.pow_add_r by lia. f_equal. unfold e0. lia. }
      pose proof (Z.pow_pos_nonneg 2 (- e0) ltac:(lia) ltac:(lia)). nia. }
  destruct (Z.ltb_spec (fst (scaled n d e0)) (2 ^ 53 * snd (scaled n d e0)))
    as [T | T]; [exact Low|].
  revert T. unfold scaled.
  destruct (Z.leb_spec 0 e0) as [He | He]; cbn [fst snd]; intros T.
  - replace (0 <=? e0 + 1) with true by (symmetry; apply Z.leb_le; lia).
    cbn [fst snd]. rewrite Z.pow_add_r by lia.
    change (2 ^ 53) with (2 ^ 52 * 2) in T. change (2 ^ 1) with 2. lia.
  - destruct (Z.leb_spec 0 (e0 + 1)) as [He1 | He1]; cbn [fst snd].
    + assert (e0 = -1) by lia. subst e0.
      replace (Z.log2 n - Z.log2 d - 53 + 1) with 0 by lia.
      replace (- (Z.log2 n - Z.log2 d - 53)) with 1 in T by lia.
      change (2 ^ 0) with 1. change (2 ^ 1) with 2 in T.
      change (2 ^ 53) with (2 ^ 52 * 2) in T. lia.
    + replace (- e0) with (- (e0 + 1) + 1) in T by lia.
      rewrite Z.pow_add_r in T by lia.
      change (2 ^ 1) with 2 in T. change (2 ^ 53) with (2 ^ 52 * 2) in T.
      lia.
Qed.

(** A positive quotient is rounded to a non-negative double that
    exceeds it by at most one part in [2^53]. *)
Lemma nearestDouble_bounds n d :
  0 < n -> 0 < d ->
  (0 <= nearestDouble n d)%Q
  /\ (nearestDouble n d * inject_Z (2 ^ 53 * d)
      <= inject_Z (n * (2 ^ 53 + 1)))%Q.
Proof.
  intros Hn Hd. unfold nearestDouble.
  pose proof (exponentOf_normal Hn Hd) as Low.
  destruct (scaled_pos (exponentOf n d) Hn Hd) as [Np Dp].
  destruct (@nearestEven_bounds (fst (scaled n d (exponentOf n d)))
              (snd (scaled n d (exponentOf n d))) ltac:(lia) Dp)
    as [M0 Mup].
  set (m := nearestEven _ _) in *.
  assert (Key : 2 ^ 53 * m * snd (scaled n d (exponentOf n d))
                <= fst (scaled n d (exponentOf n d)) * (2 ^ 53 + 1)).
  { change (2 ^ 53) with (2 * 2 ^ 52) at 1. nia. }
  revert Key. unfold scaled.
  destruct (Z.leb_spec 0 (exponentOf n d)) as [He | He]; cbn [fst snd];
    intros Key.
  - pose proof (Z.pow_pos_nonneg 2 (exponentOf n d) ltac:(lia) He) as Pp.
    split.
    + change 0%Q with (inject_Z 0). rewrite <- Zle_Qle. nia.
    + rewrite <- inject_Z_mult, <- Zle_Qle. nia.
  - pose proof (Z.pow_pos_nonneg 2 (- exponentOf n d) ltac:(lia) ltac:(lia))
      as Pp.
    split.
    + unfold Qle. cbn [Qnum Qden]. lia.
    + unfold Qle, Qmult, inject_Z. cbn [Qnum Qden].
      rewrite Pos.mul_1_r, Z2Pos.id by lia. nia.
Qed.

Lemma double_nonneg (x : Q) : (0 <= x)%Q -> (0 <= double x)%Q.
Proof.
  intros Hx. unfold double.
  destruct x as [n d]. cbn [Qnum].
  destruct n as [|p|p]; [apply Qle_refl| |].
  - apply nearestDouble_bounds; reflexivity.
  - unfold Qle in Hx. cbn [Qnum Qden] in Hx. lia.
Qed.

(** Rounding a non-negative number raises it by at most one part in
    [2^53]. *)
Lemma double_upper (x : Q) :
  (0 <= x)%Q -> (double x <= x * (1 + (1 # 2 ^ 53)))%Q.
Proof.
  intros Hx. unfold double.
  destruct x as [n d]. cbn [Qnum].
  destruct n as [|p|p].
  - unfold Qle. cbn. lia.
  - destruct (@nearestDouble_bounds (Z.pos p) (QDen (Z.pos p # d))
                ltac:(lia) ltac:(reflexivity)) as [_ U].
    set (y := nearestDouble _ _) in *. cbn [Qden] in *.
    revert U. unfold Qle, Qmult, Qplus, inject_Z. cbn [Qnum Qden].
    intros U.
    rewrite !Pos2Z.inj_mul. change (Z.pos (2 ^ 53)) with (2 ^ 53).
    replace (1 * 2 ^ 53 + 1 * 1) with (2 ^ 53 + 1) by reflexivity.
    replace (Qnum y * (2 ^ 53 * Z.pos d) * 1)
      with (Qnum y * (2 ^ 53 * Z.pos d)) in U by lia.
    replace (Z.pos p * (2 ^ 53 + 1) * Z.pos (Qden y * 1))
      with (Z.pos p * (2 ^ 53 + 1) * Z.pos (Qden y)) in U
      by (rewrite Pos.mul_1_r; reflexivity).
    nia.
  - unfold Qle in Hx. cbn [Qnum Qden] in Hx. lia.
Qed.

(** *** Numbers that may be NaN

    A reply of a remote service is parsed JSON.  A field the reply
    lacks reads as [undefined], [Math.min] of it is [NaN], and every
    sum, difference, product, minimum and maximum passes a [NaN] on.
    [Num] is a JavaScript number that holds an integer or is [NaN]. *)

Inductive Num := NaN | Int (z : Z).

Definition lift (f : Z -> Z -> Z) (a b : Num) : Num :=
  match a, b with
  | Int x, Int y => Int (f x y)
  | _, _ => NaN
  end.

Definition add : Num -> Num -> Num := lift Z.add.
Definition sub : Num -> Num -> Num := lift Z.sub.
Definition mul : Num -> Num -> Num := lift Z.mul.

(** [Math.min(a, b)] and [Math.max(a, b)]. *)
Definition min : Num -> Num -> Num := lift Z.min.
Definition max : Num -> Num -> Num := lift Z.max.

(** A function of one integer, applied to a number. *)
Definition apply (f : Z -> Z) (a : Num) : Num :=
  match a with Int x => Int (f x) | NaN => NaN end.

(** [a >= 0], which is false of [NaN]. *)
Definition nonneg (a : Num) : Prop :=
  match a with Int x => 0 <= x | NaN => False end.

Definition isNum (a : Num) : Prop :=
  match a with Int _ => True | NaN => False end.

(** [arr.reduce((sum, p) => sum + f(p), 0)] *)
Definition sumNum {A} (f : A -> Num) (arr : list A) : Num :=
  fold_left (fun sum p => add sum (f p)) arr (Int 0).

Lemma add_assoc a b c : add a (add b c) = add (add a b) c.
Proof.
  destruct a, b, c; unfold add, lift; try reflexivity.
  now rewrite Z.add_assoc.
Qed.

Lemma add_comm a b : add a b = add b a.
Proof.
  destruct a, b; unfold add, lift; try reflexivity.
  now rewrite Z.add_comm.
Qed.

Lemma add_0_l a : add (Int 0) a = a.
Proof. now destruct a. Qed.

Lemma add_0_r a : add a (Int 0) = a.
Proof. destruct a; unfold add, lift; [reflexivity | now rewrite Z.add_0_r]. Qed.

Lemma nonneg_Int a : nonneg a -> exists x, a = Int x /\ 0 <= x.
Proof. destruct a as [|x]; [contradiction | intros H; now exists x]. Qed.

Lemma nonneg_isNum a : nonneg a -> isNum a.
Proof. now destruct a. Qed.

Lemma isNum_Int a : isNum a -> exists x, a = Int x.
Proof. destruct a as [|x]; [contradiction | intros _; now exists x]. Qed.

Lemma fold_sumNum_shift {A} (f : A -> Num) (arr : list A) (a : Num) :
  fold_left (fun sum p => add sum (f p)) arr a = add a (sumNum f arr).
Proof.
  unfold sumNum. revert a.
  induction arr as [|x arr IH]; intros a; cbn [fold_left].
  - now rewrite add_0_r.
  - rewrite (IH (add a (f x))), (IH (add (Int 0) (f x))).
    now rewrite add_0_l, add_assoc.
Qed.

Lemma sumNum_nil {A} (f : A -> Num) : sumNum f [] = Int 0.
Proof. reflexivity. Qed.

Lemma sumNum_cons {A} (f : A -> Num) x arr :
  sumNum f (x :: arr) = add (f x) (sumNum f arr).
Proof.
  unfold sumNum at 1. cbn [fold_left].
  now rewrite fold_sumNum_shift, add_0_l.
Qed.

Lemma sumNum_app {A} (f : A -> Num) l1 l2 :
  sumNum f (l1 ++ l2) = add (sumNum f l1) (sumNum f l2).
Proof.
  induction l1 as [|x l1 IH]; cbn [app].
  - now rewrite sumNum_nil, add_0_l.
  - now rewrite !sumNum_cons, IH, add_assoc.
Qed.

Lemma sumNum_nonneg {A} (f : A -> Num) arr :
  Forall (fun p => nonneg (f p)) arr -> nonneg (sumNum f arr).
Proof.
  induction 1 as [|x arr Hx _ IH].
  - rewrite sumNum_nil. simpl. lia.
  - rewrite sumNum_cons.
    destruct (f x) as [|a]; [contradiction|].
    destruct (sumNum f arr) as [|b]; [contradiction|].
    simpl in *. lia.
Qed.

Lemma sumNum_isNum {A} (f : A -> Num) arr :
  Forall (fun p => isNum (f p)) arr -> isNum (sumNum f arr).
Proof.
  induction 1 as [|x arr Hx _ IH].
  - exact I.
  - rewrite sumNum_cons.
    destruct (f x); [contradiction|].
    now destruct (sumNum f arr).
Qed.

End Js.

(** ** Queues of dated entries

    Every pipeline of the three supplier games is an array of entries
    carrying the week they are due and an amount; one entry is pushed
    per resolved week, due a fixed number of weeks later. *)

Module Ledger.

Definition total (l : list Z) : Z := fold_right Z.add 0 l.

Lemma total_app l1 l2 : total (l1 ++ l2) = total l1 + total l2.
Proof. induction l1 as [|x l1 IH]; simpl; lia. Qed.

Section Entries.
Variable A : Type.
Variable mk : Z -> Z -> A.
Variables due amt : A -> Z.
Hypothesis due_mk : forall d a, due (mk d a) = d.

(** The queue after pushing [amounts] in consecutive weeks, the
    first one due at [d0]. *)
Fixpoint entries (d0 : Z) (amounts : list Z) : list A :=
  match amounts with
  | [] => []
  | a :: rest => mk d0 a :: entries (d0 + 1) rest
  end.

Lemma entries_snoc amounts : forall d0 a,
  entries d0 (amounts ++ [a])
  = entries d0 amounts ++ [mk (d0 + Z.of_nat (length amounts)) a].
Proof.
  induction amounts as [|x amounts IH]; intros d0 a; cbn [entries app length].
  - now rewrite Z.add_0_r.
  - rewrite IH.
    replace (d0 + 1 + Z.of_nat (length amounts))
      with (d0 + Z.of_nat (S (length amounts))) by lia.
    reflexivity.
Qed.

Definition inWindow (d0 w : Z) (amounts : list Z) : bool :=
  (d0 <=? w) && (w <? d0 + Z.of_nat (length amounts)).

Lemma filter_entries amounts : forall d0 w,
  filter (fun p => due p =? w) (entries d0 amounts)
  = if inWindow d0 w amounts
    then [mk w (nth (Z.to_nat (w - d0)) amounts 0)]
    else [].
Proof.
  unfold inWindow.
  induction amounts as [|a rest IH]; intros d0 w; cbn [entries filter length].
  - destruct (d0 <=? w) eqn:E1; [|reflexivity].
    destruct (w <? d0 + Z.of_nat 0) eqn:E2; [|reflexivity].
    apply Z.leb_le in E1. apply Z.ltb_lt in E2. lia.
  - rewrite due_mk, IH.
    destruct (d0 =? w) eqn:E0;
      [apply Z.eqb_eq in E0; subst w | apply Z.eqb_neq in E0].
    + replace (d0 + 1 <=? d0) with false by (symmetry; apply Z.leb_gt; lia).
      replace (d0 <=? d0) with true by (symmetry; apply Z.leb_le; lia).
      replace (d0 <? d0 + Z.of_nat (S (length rest))) with true
        by (symmetry; apply Z.ltb_lt; lia).
      rewrite Z.sub_diag. reflexivity.
    + destruct (d0 <=? w) eqn:E1;
        [apply Z.leb_le in E1 | apply Z.leb_gt in E1].
      * replace (d0 + 1 <=? w) with true by (symmetry; apply Z.leb_le; lia).
        replace (w <? d0 + 1 + Z.of_nat (length rest))
          with (w <? d0 + Z.of_nat (S (length rest)))
          by (f_equal; lia).
        cbn [andb].
        destruct (w <? d0 + Z.of_nat (S (length rest))); [|reflexivity].
        replace (Z.to_nat (w - d0)) with (S (Z.to_nat (w - (d0 + 1))))
          by lia.
        reflexivity.
      * replace (d0 + 1 <=? w) with false
          by (symmetry; apply Z.leb_gt; lia).
        reflexivity.
Qed.

Lemma find_entries amounts d0 w :
  find (fun p => due p =? w) (entries d0 amounts)
  = if inWindow d0 w amounts
    then Some (mk w (nth (Z.to_nat (w - d0)) amounts 0))
    else None.
Proof.
  pose proof (filter_entries amounts d0 w) as F.
  assert (G : forall (f : A -> bool) l,
             find f l = match filter f l with x :: _ => Some x | [] => None end).
  { intros f l. induction l as [|x l IH]; simpl; [reflexivity|].
    destruct (f x); auto. }
  rewrite G, F. now destruct (inWindow d0 w amounts).
Qed.
End Entries.

(** The week numbers [a], [a + 1], ... ([n] of them). *)
Definition weeksFrom (a : Z) (n : nat) : list Z :=
  map (fun i => a + Z.of_nat i) (seq 0 n).


(** The amounts pushed so far, seen two weeks late. *)
Definition delayed (amounts : list Z) : list Z := 0 :: 0 :: amounts.

Lemma delayed_window (first now : Z) (amounts : list Z) :
  now = first + Z.of_nat (length amounts) - 2 ->
  (if inWindow first now amounts
   then nth (Z.to_nat (now - first)) amounts 0 else 0)
  = nth (length amounts) (delayed amounts) 0.
Proof.
  intros ->. unfold inWindow, delayed.
  destruct amounts as [|a [|b rest]]; cbn [length].
  - replace (first <=? first + Z.of_nat 0 - 2) with false
      by (symmetry; apply Z.leb_gt; lia).
    reflexivity.
  - replace (first <=? first + Z.of_nat 1 - 2) with false
      by (symmetry; apply Z.leb_gt; lia).
    reflexivity.
  - replace (first <=? first + Z.of_nat (S (S (length rest))) - 2) with true
      by (symmetry; apply Z.leb_le; lia).
    replace (first + Z.of_nat (S (S (length rest))) - 2 <?
             first + Z.of_nat (S (S (length rest)))) with true
      by (symmetry; apply Z.ltb_lt; lia).
    cbn [andb].
    replace (Z.to_nat (first + Z.of_nat (S (S (length rest))) - 2 - first))
      with (length rest) by lia.
    reflexivity.
Qed.

(** A run of weekly steps, observed through what each week releases
    from a queue and what it pushes into it. *)
Section Trace.
Variables St Inp : Type.
Variable stepf : St -> Inp -> St.
Variable released : St -> Z.
Variable scheduled : St -> Inp -> Z.

Fixpoint releasedTrace (st : St) (inps : list Inp) : list Z :=
  match inps with
  | [] => []
  | i :: rest => released st :: releasedTrace (stepf st i) rest
  end.

Fixpoint scheduledTrace (st : St) (inps : list Inp) : list Z :=
  match inps with
  | [] => []
  | i :: rest => scheduled st i :: scheduledTrace (stepf st i) rest
  end.

Lemma scheduledTrace_length inps : forall st,
  length (scheduledTrace st inps) = length inps.
Proof. induction inps; intros; simpl; auto. Qed.

Variable horizon : nat.
Variable valid : Inp -> Prop.
Variable P : St -> list Z -> Prop.
Hypothesis P_released : forall st amounts,
  P st amounts -> (length amounts < horizon)%nat ->
  released st = nth (length amounts) (delayed amounts) 0.
Hypothesis P_step : forall st amounts i,
  P st amounts -> (length amounts < horizon)%nat -> valid i ->
  P (stepf st i) (amounts ++ [scheduled st i]).

Lemma releasedTrace_delayed inps : forall st amounts,
  P st amounts -> (length amounts + length inps <= horizon)%nat ->
  Forall valid inps ->
  releasedTrace st inps
  = firstn (length inps)
      (skipn (length amounts)
             (delayed (amounts ++ scheduledTrace st inps))).
Proof.
  induction inps as [|i inps IH]; intros st amounts HP Hlen Hv;
    cbn [releasedTrace scheduledTrace length firstn].
  - reflexivity.
  - cbn [length] in Hlen. inversion Hv as [|? ? Hv1 Hv2]; subst.
    rewrite (IH (stepf st i) (amounts ++ [scheduled st i]));
      [|apply P_step; [exact HP | lia | exact Hv1]
       |rewrite length_app; simpl; lia | exact Hv2].
    rewrite (P_released HP) by lia.
    rewrite <- app_assoc. cbn [app].
    set (rest := scheduled st i :: scheduledTrace (stepf st i) inps).
    rewrite length_app. cbn [length].
    replace (length amounts + 1)%nat with (S (length amounts)) by lia.
    assert (G : forall (l : list Z) k d, (k < length l)%nat ->
               skipn k l = nth k l d :: skipn (S k) l).
    { induction l as [|x l IHl]; intros k d Hk; [simpl in Hk; lia|].
      destruct k; [reflexivity|]. cbn [skipn nth].
      apply IHl. simpl in Hk. lia. }
    rewrite (G (delayed (amounts ++ rest)) (length amounts) 0).
    2:{ unfold delayed. cbn [length]. rewrite length_app. lia. }
    cbn [firstn]. f_equal.
    unfold delayed. rewrite !app_comm_cons.
    rewrite app_nth1; [reflexivity | simpl; lia].
Qed.

Lemma releasedTrace_total inps st :
  P st [] -> (length inps <= horizon)%nat -> Forall valid inps ->
  releasedTrace st inps
  = firstn (length inps) (delayed (scheduledTrace st inps))
  /\ total (releasedTrace st inps)
     + total (skipn (length inps - 2) (scheduledTrace st inps))
     = total (scheduledTrace st inps).
Proof.
  intros HP Hlen Hv.
  assert (E : releasedTrace st inps
              = firstn (length inps) (delayed (scheduledTrace st inps))).
  { now rewrite (releasedTrace_delayed HP). }
  split; [exact E|]. rewrite E.
  rewrite <- (scheduledTrace_length inps st).
  generalize (scheduledTrace st inps) as l. intros l.
  destruct l as [|a [|b l]]; cbn [length firstn delayed]; try (simpl; lia).
  replace (S (S (length l)) - 2)%nat with (length l) by lia.
  pose proof (firstn_skipn (length l) (a :: b :: l)) as FS.
  apply (f_equal total) in FS. rewrite total_app in FS.
  change (total (0 :: 0 :: firstn (length l) (a :: b :: l)))
    with (0 + (0 + total (firstn (length l) (a :: b :: l)))).
  lia.
Qed.

(** An invariant indexed by the number of weeks resolved. *)
Variable R : St -> nat -> Prop.
Hypothesis R_step : forall st n i,
  R st n -> (n < horizon)%nat -> valid i -> R (stepf st i) (S n).

End Trace.

End Ledger.

(** ** The ledger over numbers that may be NaN

    The same queue discipline as [Ledger], for amounts of type
    [Js.Num]. *)

Module NumLedger.

Definition total (l : list Js.Num) : Js.Num :=
  fold_right Js.add (Js.Int 0) l.

Lemma num_total_app l1 l2 : total (l1 ++ l2) = Js.add (total l1) (total l2).
Proof.
  induction l1 as [|x l1 IH]; cbn [app total fold_right].
  - now rewrite Js.add_0_l.
  - fold (total (l1 ++ l2)). fold (total l1).
    now rewrite IH, Js.add_assoc.
Qed.

Section Entries.
Variable A : Type.
Variable mk : Z -> Js.Num -> A.
Variable due : A -> Z.
Hypothesis due_mk : forall d a, due (mk d a) = d.

(** The queue after pushing [amounts] in consecutive weeks, the
    first one due at [d0]. *)
Fixpoint entries (d0 : Z) (amounts : list Js.Num) : list A :=
  match amounts with
  | [] => []
  | a :: rest => mk d0 a :: entries (d0 + 1) rest
  end.

Lemma num_entries_snoc amounts : forall d0 a,
  entries d0 (amounts ++ [a])
  = entries d0 amounts ++ [mk (d0 + Z.of_nat (length amounts)) a].
Proof.
  induction amounts as [|x amounts IH]; intros d0 a; cbn [entries app length].
  - now rewrite Z.add_0_r.
  - rewrite IH.
    replace (d0 + 1 + Z.of_nat (length amounts))
      with (d0 + Z.of_nat (S (length amounts))) by lia.
    reflexivity.
Qed.

Definition inWindow (d0 w : Z) (amounts : list Js.Num) : bool :=
  (d0 <=? w) && (w <? d0 + Z.of_nat (length amounts)).

Lemma num_filter_entries amounts : forall d0 w,
  filter (fun p => due p =? w) (entries d0 amounts)
  = if inWindow d0 w amounts
    then [mk w (nth (Z.to_nat (w - d0)) amounts (Js.Int 0))]
    else [].
Proof.
  unfold inWindow.
  induction amounts as [|a rest IH]; intros d0 w; cbn [entries filter length].
  - destruct (d0 <=? w) eqn:E1; [|reflexivity].
    destruct (w <? d0 + Z.of_nat 0) eqn:E2; [|reflexivity].
    apply Z.leb_le in E1. apply Z.ltb_lt in E2. lia.
  - rewrite due_mk, IH.
    destruct (d0 =? w) eqn:E0;
      [apply Z.eqb_eq in E0; subst w | apply Z.eqb_neq in E0].
    + replace (d0 + 1 <=? d0) with false by (symmetry; apply Z.leb_gt; lia).
      replace (d0 <=? d0) with true by (symmetry; apply Z.leb_le; lia).
      replace (d0 <? d0 + Z.of_nat (S (length rest))) with true
        by (symmetry; apply Z.ltb_lt; lia).
      rewrite Z.sub_diag. reflexivity.
    + destruct (d0 <=? w) eqn:E1;
        [apply Z.leb_le in E1 | apply Z.leb_gt in E1].
      * replace (d0 + 1 <=? w) with true by (symmetry; apply Z.leb_le; lia).
        replace (w <? d0 + 1 + Z.of_nat (length rest))
          with (w <? d0 + Z.of_nat (S (length rest)))
          by (f_equal; lia).
        cbn [andb].
        destruct (w <? d0 + Z.of_nat (S (length rest))); [|reflexivity].
        replace (Z.to_nat (w - d0)) with (S (Z.to_nat (w - (d0 + 1))))
          by lia.
        reflexivity.
      * replace (d0 + 1 <=? w) with false
          by (symmetry; apply Z.leb_gt; lia).
        reflexivity.
Qed.
End Entries.

(** The amounts pushed so far, seen two weeks late. *)
Definition delayed (amounts : list Js.Num) : list Js.Num :=
  Js.Int 0 :: Js.Int 0 :: amounts.

Lemma num_delayed_window (first now : Z) (amounts : list Js.Num) :
  now = first + Z.of_nat (length amounts) - 2 ->
  (if inWindow first now amounts
   then nth (Z.to_nat (now - first)) amounts (Js.Int 0) else Js.Int 0)
  = nth (length amounts) (delayed amounts) (Js.Int 0).
Proof.
  intros ->. unfold inWindow, delayed.
  destruct amounts as [|a [|b rest]]; cbn [length].
  - replace (first <=? first + Z.of_nat 0 - 2) with false
      by (symmetry; apply Z.leb_gt; lia).
    reflexivity.
  - replace (first <=? first + Z.of_nat 1 - 2) with false
      by (symmetry; apply Z.leb_gt; lia).
    reflexivity.
  - replace (first <=? first + Z.of_nat (S (S (length rest))) - 2) with true
      by (symmetry; apply Z.leb_le; lia).
    replace (first + Z.of_nat (S (S (length rest))) - 2 <?
             first + Z.of_nat (S (S (length rest)))) with true
      by (symmetry; apply Z.ltb_lt; lia).
    cbn [andb].
    replace (Z.to_nat (first + Z.of_nat (S (S (length rest))) - 2 - first))
      with (length rest) by lia.
    reflexivity.
Qed.

(** A run of weekly steps, observed through what each week releases
    from a queue and what it pushes into it. *)
Section Trace.
Variables St Inp : Type.
Variable stepf : St -> Inp -> St.
Variable released : St -> Js.Num.
Variable scheduled : St -> Inp -> Js.Num.

Fixpoint releasedTrace (st : St) (inps : list Inp) : list Js.Num :=
  match inps with
  | [] => []
  | i :: rest => released st :: releasedTrace (stepf st i) rest
  end.

Fixpoint scheduledTrace (st : St) (inps : list Inp) : list Js.Num :=
  match inps with
  | [] => []
  | i :: rest => scheduled st i :: scheduledTrace (stepf st i) rest
  end.

Lemma num_scheduledTrace_length inps : forall st,
  length (scheduledTrace st inps) = length inps.
Proof. induction inps; intros; simpl; auto. Qed.

Variable horizon : nat.
Variable valid : Inp -> Prop.
Variable P : St -> list Js.Num -> Prop.
Hypothesis P_released : forall st amounts,
  P st amounts -> (length amounts < horizon)%nat ->
  released st = nth (length amounts) (delayed amounts) (Js.Int 0).
Hypothesis P_step : forall st amounts i,
  P st amounts -> (length amounts < horizon)%nat -> valid i ->
  P (stepf st i) (amounts ++ [scheduled st i]).

Lemma num_releasedTrace_delayed inps : forall st amounts,
  P st amounts -> (length amounts + length inps <= horizon)%nat ->
  Forall valid inps ->
  releasedTrace st inps
  = firstn (length inps)
      (skipn (length amounts)
             (delayed (amounts ++ scheduledTrace st inps))).
Proof.
  induction inps as [|i inps IH]; intros st amounts HP Hlen Hv;
    cbn [releasedTrace scheduledTrace length firstn].
  - reflexivity.
  - cbn [length] in Hlen. inversion Hv as [|? ? Hv1 Hv2]; subst.
    rewrite (IH (stepf st i) (amounts ++ [scheduled st i]));
      [|apply P_step; [exact HP | lia | exact Hv1]
       |rewrite length_app; simpl; lia | exact Hv2].
    rewrite (P_released HP) by lia.
    rewrite <- app_assoc. cbn [app].
    set (rest := scheduled st i :: scheduledTrace (stepf st i) inps).
    rewrite length_app. cbn [length].
    replace (length amounts + 1)%nat with (S (length amounts)) by lia.
    assert (G : forall (l : list Js.Num) k d, (k < length l)%nat ->
               skipn k l = nth k l d :: skipn (S k) l).
    { induction l as [|x l IHl]; intros k d Hk; [simpl in Hk; lia|].
      destruct k; [reflexivity|]. cbn [skipn nth].
      apply IHl. simpl in Hk. lia. }
    rewrite (G (delayed (amounts ++ rest)) (length amounts) (Js.Int 0)).
    2:{ unfold delayed. cbn [length]. rewrite length_app. lia. }
    cbn [firstn]. f_equal.
    unfold delayed. rewrite !app_comm_cons.
    rewrite app_nth1; [reflexivity | simpl; lia].
Qed.

Lemma num_releasedTrace_total inps st :
  P st [] -> (length inps <= horizon)%nat -> Forall valid inps ->
  releasedTrace st inps
  = firstn (length inps) (delayed (scheduledTrace st inps))
  /\ Js.add (total (releasedTrace st inps))
            (total (skipn (length inps - 2) (scheduledTrace st inps)))
     = total (scheduledTrace st inps).
Proof.
  intros HP Hlen Hv.
  assert (E : releasedTrace st inps
              = firstn (length inps) (delayed (scheduledTrace st inps))).
  { now rewrite (num_releasedTrace_delayed HP). }
  split; [exact E|]. rewrite E.
  rewrite <- (num_scheduledTrace_length inps st).
  generalize (scheduledTrace st inps) as l. intros l.
  destruct l as [|a [|b l]]; cbn [length firstn delayed].
  - reflexivity.
  - cbn [Nat.sub skipn total fold_right]. now rewrite !Js.add_0_l.
  - replace (S (S (length l)) - 2)%nat with (length l) by lia.
    pose proof (firstn_skipn (length l) (a :: b :: l)) as FS.
    apply (f_equal total) in FS. rewrite num_total_app in FS.
    change (total (Js.Int 0 :: Js.Int 0 :: firstn (length l) (a :: b :: l)))
      with (Js.add (Js.Int 0)
              (Js.add (Js.Int 0) (total (firstn (length l) (a :: b :: l))))).
    now rewrite !Js.add_0_l.
Qed.
End Trace.

End NumLedger.

(** ** The Beer Game (beer-game/BeerGame.jsx) *)

Module Beer.

Inductive RoleId := retailer | wholesaler | distributor | manufacturer.

Definition RoleId_eqb (a b : RoleId) : bool :=
  match a, b with
  | retailer, retailer | wholesaler, wholesaler
  | distributor, distributor | manufacturer, manufacturer => true
  | _, _ => false
  end.

Lemma RoleId_eqb_eq a b : RoleId_eqb a b = true <-> a = b.
Proof. destruct a, b; simpl; split; congruence. Qed.

Lemma RoleId_eqb_refl a : RoleId_eqb a a = true.
Proof. now destruct a. Qed.

(** [ROLES], by [id]. *)
Definition ROLES : list RoleId :=
  [retailer; wholesaler; distributor; manufacturer].

Module CONFIG.
Definition initialInventory : Z := 12.
Definition initialBacklog : Z := 0.
Definition shippingDelay : Z := 2.
Definition orderDelay : Z := 1.
Definition totalWeeks : Z := 20.
Definition costHolding : Q := 1 # 2.
Definition costBacklog : Q := 1.
End CONFIG.

Definition getConsumerDemand (week : Z) : Z :=
  if week <=? 4 then 4 else 8.

Inductive GameState := INTRO | SETUP | HANDOFF | PLAY | SUMMARY | GAME_OVER.
Inductive PlayerType := HUMAN | AI.

Record Entry := mkEntry {
  week : Z;
  roleId : RoleId;
  inventory : Z;
  backlog : Z;
  orderPlaced : Z;
  shipped : Z;
  cost : Q
}.

(** The seed of the history: weeks -1 and 0 for every role. *)
Definition seedData : list Entry :=
  flat_map (fun w => map (fun role => mkEntry w role 12 0 4 4 6) ROLES)
           [-1; 0].

Record State := mkState {
  gameState : GameState;
  currentWeek : Z;
  turnIndex : nat;
  playerTypes : RoleId -> PlayerType;
  aiReasoning : option string;
  history : list Entry
}.

Definition initial : State :=
  mkState INTRO 1 0 (fun _ => HUMAN) None seedData.

Definition setGameState (g : GameState) (st : State) : State :=
  mkState g (currentWeek st) (turnIndex st) (playerTypes st)
          (aiReasoning st) (history st).

(** *** Retrieval *)

Definition getHistoryEntry (hist : list Entry) (w : Z) (r : RoleId)
  : option Entry :=
  find (fun h => (week h =? w) && RoleId_eqb (roleId h) r) hist.

(** A [None] result of the functions below stands for the [TypeError]
    JavaScript raises when a property of [undefined] is read. *)

Definition getIncomingShipment (hist : list Entry) (roleIndex : nat) (w : Z)
  : option Z :=
  let shipmentDelayWeek := w - CONFIG.shippingDelay in
  if Nat.eqb roleIndex 3 then
    match getHistoryEntry hist shipmentDelayWeek manufacturer with
    | Some selfHistory => Some (orderPlaced selfHistory)
    | None => Some 4
    end
  else
    match nth_error ROLES (roleIndex + 1) with
    | None => None
    | Some upstreamRole =>
        match getHistoryEntry hist shipmentDelayWeek upstreamRole with
        | Some upstreamHistory => Some (shipped upstreamHistory)
        | None => Some 4
        end
    end.

Definition getIncomingDemand (hist : list Entry) (roleIndex : nat) (w : Z)
  : option Z :=
  if Nat.eqb roleIndex 0 then Some (getConsumerDemand w)
  else
    let orderDelayWeek := w - CONFIG.orderDelay in
    match nth_error ROLES (roleIndex - 1) with
    | None => None
    | Some downstreamRole =>
        match getHistoryEntry hist orderDelayWeek downstreamRole with
        | Some downstreamHistory => Some (orderPlaced downstreamHistory)
        | None => Some 4
        end
    end.

(** *** The remote agent

    The remote call either fails (network error, malformed JSON,
    missing candidates: every exception lands in the [catch]) or
    yields the parsed object; the response schema makes [order] an
    integer. *)

Inductive Remote := Failed | Replied (order : Z) (reasoning : string).

Record Decision := mkDecision { order : Z; reasoning : string }.

Definition getAITurn (incomingDemand : Z) (remote : Remote) : Decision :=
  match remote with
  | Replied o r => mkDecision o r
  | Failed => mkDecision incomingDemand "Fallback strategy due to AI error."
  end.

(** *** Game play *)

Definition handleStartSetup (st : State) : State := setGameState SETUP st.

Definition setPlayerType (r : RoleId) (t : PlayerType) (st : State) : State :=
  mkState (gameState st) (currentWeek st) (turnIndex st)
          (fun r' => if RoleId_eqb r' r then t else playerTypes st r')
          (aiReasoning st) (history st).

Definition handleStartGame (st : State) : State :=
  mkState HANDOFF 1 0 (playerTypes st) (aiReasoning st) seedData.

Definition processTurn (st : State) (orderAmount : Z) : option State :=
  match nth_error ROLES (turnIndex st) with
  | None => None
  | Some currentRole =>
    match getHistoryEntry (history st) (currentWeek st - 1) currentRole,
          getIncomingShipment (history st) (turnIndex st) (currentWeek st),
          getIncomingDemand (history st) (turnIndex st) (currentWeek st) with
    | Some prevWeekData, Some shipmentReceived, Some demandReceived =>
        let totalAvailable := inventory prevWeekData + shipmentReceived in
        let totalToShip := demandReceived + backlog prevWeekData in
        let actuallyShipped := Z.min totalAvailable totalToShip in
        let newInventory := totalAvailable - actuallyShipped in
        let newBacklog := totalToShip - actuallyShipped in
        let weekCost :=
          (inject_Z newInventory * CONFIG.costHolding
           + inject_Z newBacklog * CONFIG.costBacklog)%Q in
        let newEntry :=
          mkEntry (currentWeek st) currentRole newInventory newBacklog
                  orderAmount actuallyShipped weekCost in
        Some (if (turnIndex st <? 3)%nat then
                mkState HANDOFF (currentWeek st) (turnIndex st + 1)
                        (playerTypes st) None (history st ++ [newEntry])
              else
                mkState SUMMARY (currentWeek st) (turnIndex st)
                        (playerTypes st) None (history st ++ [newEntry]))
    | _, _, _ => None
    end
  end.

(** [submitTurn]: the argument is what [parseInt(orderInput)] gives,
    [None] standing for [NaN]. *)
Definition submitTurn (st : State) (orderInput : option Z) : option State :=
  match orderInput with
  | None => Some st
  | Some orderAmount =>
      if orderAmount <? 0 then Some st else processTurn st orderAmount
  end.

(** The AI hook of the [PLAY] screen: gather the context, ask the
    agent, show its reasoning and hand [decision.order] to
    [processTurn].  The timers between these steps only pace the
    display; no other handler is reachable while they run. *)
Definition aiTurn (st : State) (remote : Remote) : option State :=
  match nth_error ROLES (turnIndex st) with
  | None => None
  | Some currentRole =>
    match getHistoryEntry (history st) (currentWeek st - 1) currentRole,
          getIncomingShipment (history st) (turnIndex st) (currentWeek st),
          getIncomingDemand (history st) (turnIndex st) (currentWeek st) with
    | Some _, Some _, Some incomingDemand =>
        let decision := getAITurn incomingDemand remote in
        processTurn st (order decision)
    | _, _, _ => None
    end
  end.

Definition startNextWeek (st : State) : State :=
  if currentWeek st >=? CONFIG.totalWeeks then setGameState GAME_OVER st
  else mkState HANDOFF (currentWeek st + 1) 0 (playerTypes st)
               (aiReasoning st) (history st).

(** *** The screens as a transition system

    Each screen offers only its own controls, so a handler runs only
    in the [gameState] whose screen renders it. *)

Inductive Event :=
| EStartSetup
| ESetPlayerType (r : RoleId) (t : PlayerType)
| EStartGame
| EReady
| ESubmit (orderInput : option Z)
| EAgent (remote : Remote)
| ENextWeek.

Definition currentPlayerType (st : State) : option PlayerType :=
  option_map (playerTypes st) (nth_error ROLES (turnIndex st)).

Definition step (st : State) (ev : Event) : option State :=
  match gameState st, ev with
  | INTRO, EStartSetup => Some (handleStartSetup st)
  | GAME_OVER, EStartSetup => Some (handleStartSetup st)
  | SETUP, ESetPlayerType r t => Some (setPlayerType r t st)
  | SETUP, EStartGame => Some (handleStartGame st)
  | HANDOFF, EReady => Some (setGameState PLAY st)
  | PLAY, ESubmit orderInput =>
      match currentPlayerType st with
      | None => None
      | Some HUMAN => submitTurn st orderInput
      | Some AI => Some st
      end
  | PLAY, EAgent remote =>
      match currentPlayerType st with
      | None => None
      | Some AI => aiTurn st remote
      | Some HUMAN => Some st
      end
  | SUMMARY, ENextWeek => Some (startNextWeek st)
  | _, _ => Some st
  end.

Fixpoint run (st : State) (evs : list Event) : option State :=
  match evs with
  | [] => Some st
  | ev :: evs' =>
      match step st ev with
      | Some st' => run st' evs'
      | None => None
      end
  end.

(** States the interface can reach, restarts included. *)
Inductive Reachable : State -> Prop :=
| reach_initial : Reachable initial
| reach_step st ev st' :
    Reachable st -> step st ev = Some st' -> Reachable st'.

Lemma run_reachable evs : forall st st',
  Reachable st -> run st evs = Some st' -> Reachable st'.
Proof.
  induction evs as [|ev evs IH]; simpl; intros st st' Hr H.
  - now inversion H; subst.
  - destruct (step st ev) as [st1|] eqn:E; [|discriminate].
    eapply IH; [eapply reach_step; eassumption | exact H].
Qed.

Lemma run_app evs1 : forall st evs2,
  run st (evs1 ++ evs2) =
  match run st evs1 with Some st' => run st' evs2 | None => None end.
Proof.
  induction evs1 as [|ev evs1 IH]; simpl; intros st evs2; [reflexivity|].
  destruct (step st ev); [apply IH | reflexivity].
Qed.

(** *** History lookups *)

Definition key (h : Entry) : Z * RoleId := (week h, roleId h).
Definition keys (hist : list Entry) : list (Z * RoleId) := map key hist.

Definition roleIndexOf (r : RoleId) : nat :=
  match r with
  | retailer => 0 | wholesaler => 1 | distributor => 2 | manufacturer => 3
  end.

Lemma nth_error_ROLES i r : nth_error ROLES i = Some r <-> roleIndexOf r = i.
Proof.
  split.
  - destruct i as [|[|[|[|i]]]]; simpl; intros H;
      try (inversion H; reflexivity).
    destruct i; discriminate.
  - intros <-. now destruct r.
Qed.

Lemma roleIndexOf_lt r : (roleIndexOf r < 4)%nat.
Proof. destruct r; simpl; lia. Qed.

Lemma getHistoryEntry_some hist w r h :
  getHistoryEntry hist w r = Some h ->
  In h hist /\ week h = w /\ roleId h = r.
Proof.
  intros H. apply find_some in H. destruct H as [Hin Ht].
  apply andb_true_iff in Ht. destruct Ht as [Hw Hr].
  apply Z.eqb_eq in Hw. apply RoleId_eqb_eq in Hr. auto.
Qed.

Lemma getHistoryEntry_in hist w r :
  In (w, r) (keys hist) -> exists h, getHistoryEntry hist w r = Some h.
Proof.
  unfold getHistoryEntry.
  induction hist as [|a hist IH]; simpl; [easy|].
  intros [H | H].
  - unfold key in H. inversion H; subst.
    rewrite Z.eqb_refl, RoleId_eqb_refl. simpl. eauto.
  - destruct ((week a =? w) && RoleId_eqb (roleId a) r); eauto.
Qed.

Lemma getHistoryEntry_keys hist w r h :
  getHistoryEntry hist w r = Some h -> In (w, r) (keys hist).
Proof.
  intros H. apply getHistoryEntry_some in H. destruct H as (Hin & <- & <-).
  apply (in_map key) in Hin. exact Hin.
Qed.

Lemma getHistoryEntry_unique hist h :
  NoDup (keys hist) -> In h hist ->
  getHistoryEntry hist (week h) (roleId h) = Some h.
Proof.
  unfold getHistoryEntry.
  induction hist as [|a hist IH]; simpl; [easy|].
  intros Hnd [-> | Hin].
  - now rewrite Z.eqb_refl, RoleId_eqb_refl.
  - inversion Hnd as [|k ks Hk Hnd']; subst.
    destruct ((week a =? week h) && RoleId_eqb (roleId a) (roleId h)) eqn:E.
    + exfalso. apply Hk. apply andb_true_iff in E. destruct E as [Ew Er].
      apply Z.eqb_eq in Ew. apply RoleId_eqb_eq in Er.
      unfold key at 1. rewrite Ew, Er. apply (in_map key _ _ Hin).
    + auto.
Qed.

Lemma getHistoryEntry_app hist e w r h :
  getHistoryEntry hist w r = Some h ->
  getHistoryEntry (hist ++ [e]) w r = Some h.
Proof.
  unfold getHistoryEntry. intros H. now rewrite Js.find_app, H.
Qed.

Lemma keys_app hist e : keys (hist ++ [e]) = keys hist ++ [key e].
Proof. unfold keys. now rewrite map_app. Qed.

(** *** Invariant of the reachable states *)

Definition turnsDone (st : State) : option nat :=
  match gameState st with
  | HANDOFF | PLAY => Some (turnIndex st)
  | SUMMARY | GAME_OVER => Some 4%nat
  | INTRO | SETUP => None
  end.

Record Inv (st : State) : Prop := mkInv {
  inv_week : 1 <= currentWeek st <= CONFIG.totalWeeks;
  inv_turn : (turnIndex st <= 3)%nat;
  inv_past : forall w r,
    -1 <= w < currentWeek st -> In (w, r) (keys (history st));
  inv_range : Forall (fun h => -1 <= week h <= currentWeek st) (history st);
  inv_nodup : NoDup (keys (history st));
  inv_now : forall n, turnsDone st = Some n ->
    (forall r, In (currentWeek st, r) (keys (history st))
               <-> (roleIndexOf r < n)%nat)
    /\ Z.of_nat (length (history st))
       = 8 + 4 * (currentWeek st - 1) + Z.of_nat n;
  inv_over : gameState st = GAME_OVER -> currentWeek st = CONFIG.totalWeeks
}.

Lemma NoDup_snoc {A} (l : list A) (x : A) :
  NoDup l -> ~ In x l -> NoDup (l ++ [x]).
Proof.
  induction 1 as [|y l Hy Hnd IH]; simpl; intros Hx.
  - constructor; [easy | constructor].
  - constructor.
    + rewrite in_app_iff. simpl. intros [H | [H | []]]; [easy|].
      apply Hx. now left.
    + apply IH. intros H. apply Hx. now right.
Qed.

Lemma keys_seedData :
  keys seedData =
  [(-1, retailer); (-1, wholesaler); (-1, distributor); (-1, manufacturer);
   (0, retailer); (0, wholesaler); (0, distributor); (0, manufacturer)].
Proof. reflexivity. Qed.

Lemma Inv_seed g types r :
  g = INTRO \/ g = HANDOFF -> Inv (mkState g 1 0 types r seedData).
Proof.
  intros Hg.
  constructor; cbn [history currentWeek turnIndex gameState];
    try rewrite keys_seedData.
  - unfold CONFIG.totalWeeks. lia.
  - lia.
  - intros w ro Hw. assert (w = -1 \/ w = 0) as [-> | ->] by lia;
      destruct ro; simpl; auto 10.
  - unfold seedData. simpl. repeat constructor; simpl; lia.
  - repeat (apply NoDup_cons; [simpl; intuition congruence|]).
    apply NoDup_nil.
  - intros n Hn. unfold turnsDone in Hn. simpl in Hn.
    destruct Hg as [-> | ->]; [discriminate|]. inversion Hn; subst n.
    split; [|reflexivity].
    intros ro. split; [|lia]. simpl. intuition congruence.
  - destruct Hg as [-> | ->]; discriminate.
Qed.

Lemma getIncomingShipment_defined hist i w :
  (i <= 3)%nat -> exists s, getIncomingShipment hist i w = Some s.
Proof.
  intros Hi. unfold getIncomingShipment.
  destruct i as [|[|[|[|i]]]]; simpl; try lia;
    match goal with
    | |- context [getHistoryEntry ?h ?a ?b] =>
        destruct (getHistoryEntry h a b); eauto
    end.
Qed.

Lemma getIncomingDemand_defined hist i w :
  (i <= 3)%nat -> exists d, getIncomingDemand hist i w = Some d.
Proof.
  intros Hi. unfold getIncomingDemand.
  destruct i as [|[|[|[|i]]]]; simpl; try lia; eauto;
    match goal with
    | |- context [getHistoryEntry ?h ?a ?b] =>
        destruct (getHistoryEntry h a b); eauto
    end.
Qed.

(** The entry [processTurn] commits, and the state it leaves. *)
Definition settled (st : State) (role : RoleId) (prev : Entry)
           (ship dem orderAmount : Z) : Entry :=
  let shippedNow := Z.min (inventory prev + ship) (dem + backlog prev) in
  mkEntry (currentWeek st) role
          (inventory prev + ship - shippedNow)
          (dem + backlog prev - shippedNow)
          orderAmount shippedNow
          (inject_Z (inventory prev + ship - shippedNow) * CONFIG.costHolding
           + inject_Z (dem + backlog prev - shippedNow) * CONFIG.costBacklog)%Q.

Definition committed (st : State) (e : Entry) : State :=
  if (turnIndex st <? 3)%nat then
    mkState HANDOFF (currentWeek st) (turnIndex st + 1)
            (playerTypes st) None (history st ++ [e])
  else
    mkState SUMMARY (currentWeek st) (turnIndex st)
            (playerTypes st) None (history st ++ [e]).

Lemma processTurn_inv st orderAmount st' :
  processTurn st orderAmount = Some st' ->
  exists role prev ship dem,
    nth_error ROLES (turnIndex st) = Some role
    /\ getHistoryEntry (history st) (currentWeek st - 1) role = Some prev
    /\ getIncomingShipment (history st) (turnIndex st) (currentWeek st)
       = Some ship
    /\ getIncomingDemand (history st) (turnIndex st) (currentWeek st)
       = Some dem
    /\ st' = committed st (settled st role prev ship dem orderAmount).
Proof.
  unfold processTurn. intros H.
  destruct (nth_error ROLES (turnIndex st)) as [role|] eqn:E1;
    [|discriminate].
  destruct (getHistoryEntry (history st) (currentWeek st - 1) role)
    as [prev|] eqn:E2; [|discriminate].
  destruct (getIncomingShipment (history st) (turnIndex st) (currentWeek st))
    as [ship|] eqn:E3; [|discriminate].
  destruct (getIncomingDemand (history st) (turnIndex st) (currentWeek st))
    as [dem|] eqn:E4; [|discriminate].
  inversion H. exists role, prev, ship, dem. repeat split; auto.
Qed.

Lemma processTurn_defined st orderAmount :
  Inv st -> exists st', processTurn st orderAmount = Some st'.
Proof.
  intros I. unfold processTurn.
  destruct (nth_error ROLES (turnIndex st)) as [role|] eqn:Er.
  2:{ apply nth_error_None in Er. simpl in Er. pose proof (inv_turn I). lia. }
  destruct (getHistoryEntry_in (history st) (currentWeek st - 1) role)
    as [prev ->].
  { apply (inv_past I). pose proof (inv_week I). lia. }
  destruct (getIncomingShipment_defined (history st) (currentWeek st)
              (inv_turn I)) as [ship ->].
  destruct (getIncomingDemand_defined (history st) (currentWeek st)
              (inv_turn I)) as [dem ->].
  eauto.
Qed.

Lemma roleIndexOf_inj r1 r2 : roleIndexOf r1 = roleIndexOf r2 -> r1 = r2.
Proof. destruct r1, r2; simpl; congruence. Qed.

Lemma Inv_committed st role e :
  Inv st -> gameState st = PLAY ->
  roleIndexOf role = turnIndex st ->
  week e = currentWeek st -> roleId e = role ->
  Inv (committed st e).
Proof.
  intros I Hg Hrole Hw Hr.
  pose proof (inv_week I) as Iw. pose proof (inv_turn I) as It.
  destruct (inv_now I (n := turnIndex st)) as [Inow Ilen].
  { unfold turnsDone. now rewrite Hg. }
  assert (Hfresh : ~ In (key e) (keys (history st))).
  { unfold key. rewrite Hw, Hr, Inow. lia. }
  assert (Inow' : forall r, In (currentWeek st, r) (keys (history st ++ [e]))
                            <-> (roleIndexOf r < turnIndex st + 1)%nat).
  { intros r. rewrite keys_app, in_app_iff, Inow. simpl. unfold key.
    rewrite Hw, Hr. split.
    - intros [H | [H | []]]; [lia|]. inversion H as [H1]. rewrite <- H1, Hrole. lia.
    - intros H. destruct (Nat.eq_dec (roleIndexOf r) (turnIndex st)) as [E|E].
      + right. left. f_equal. apply roleIndexOf_inj. congruence.
      + left. lia. }
  assert (Ilen' : Z.of_nat (length (history st ++ [e]))
                  = 8 + 4 * (currentWeek st - 1)
                    + Z.of_nat (turnIndex st + 1)).
  { rewrite length_app. cbn [length]. lia. }
  unfold committed.
  destruct (turnIndex st <? 3)%nat eqn:E;
    [apply Nat.ltb_lt in E | apply Nat.ltb_ge in E];
    constructor; simpl; try easy; try lia.
  all: try (intros w r Hwr; rewrite keys_app, in_app_iff; left;
            now apply (inv_past I)).
  all: try (apply Forall_app; split;
            [exact (inv_range I) | repeat constructor; lia]).
  all: try (rewrite keys_app; apply NoDup_snoc;
            [exact (inv_nodup I) | exact Hfresh]).
  - intros n Hn. unfold turnsDone in Hn. simpl in Hn.
    inversion Hn; subst n. split; [exact Inow' | exact Ilen'].
  - intros n Hn. unfold turnsDone in Hn. simpl in Hn.
    inversion Hn; subst n. replace 4%nat with (turnIndex st + 1)%nat by lia.
    split; [exact Inow' | exact Ilen'].
Qed.

Lemma Inv_ext st st' :
  currentWeek st' = currentWeek st ->
  turnIndex st' = turnIndex st ->
  history st' = history st ->
  (forall n, turnsDone st' = Some n -> turnsDone st = Some n) ->
  (gameState st' = GAME_OVER -> currentWeek st = CONFIG.totalWeeks) ->
  Inv st -> Inv st'.
Proof.
  intros Hw Ht Hh Hn Ho I.
  constructor; rewrite ?Hw, ?Ht, ?Hh; try apply I; auto.
  intros n En. apply (inv_now I). auto.
Qed.

Lemma Inv_startNextWeek st :
  Inv st -> gameState st = SUMMARY -> Inv (startNextWeek st).
Proof.
  intros I Hg. unfold startNextWeek.
  pose proof (inv_week I) as Iw. unfold CONFIG.totalWeeks in *.
  destruct (inv_now I (n := 4%nat)) as [Inow Ilen].
  { unfold turnsDone. now rewrite Hg. }
  destruct (currentWeek st >=? 20) eqn:E.
  - apply Z.geb_le in E.
    apply Inv_ext with (st := st); auto.
    + intros n Hn. unfold turnsDone in *. simpl in Hn. now rewrite Hg.
    + intros _. unfold CONFIG.totalWeeks. lia.
  - rewrite Z.geb_leb in E. apply Z.leb_gt in E.
    constructor; cbn [gameState currentWeek turnIndex history];
      unfold CONFIG.totalWeeks; try lia.
    + intros w r Hwr. destruct (Z.eq_dec w (currentWeek st)) as [-> | Hne].
      * apply Inow. apply roleIndexOf_lt.
      * apply (inv_past I). lia.
    + eapply Forall_impl; [|exact (inv_range I)]. cbv beta. intros; lia.
    + exact (inv_nodup I).
    + intros n Hn. unfold turnsDone in Hn. cbn [gameState] in Hn.
      inversion Hn; subst n. split; [|lia].
      intros r. split; [|lia]. intros Hin.
      apply in_map_iff in Hin. destruct Hin as (h & Hk & Hin).
      pose proof (proj1 (Forall_forall _ _) (inv_range I) h Hin) as Hr.
      cbv beta in Hr. unfold key in Hk. inversion Hk. lia.
    + discriminate.
Qed.

Lemma Inv_processTurn st orderAmount st' :
  Inv st -> gameState st = PLAY ->
  processTurn st orderAmount = Some st' -> Inv st'.
Proof.
  intros I Hg H. apply processTurn_inv in H.
  destruct H as (role & prev & ship & dem & Er & _ & _ & _ & ->).
  apply Inv_committed with (role := role); auto.
  now apply nth_error_ROLES.
Qed.

(** A handler that leaves week, turn and history alone and does not
    enter [GAME_OVER] keeps the invariant. *)
Ltac same_progress I Hg :=
  eapply Inv_ext; [ | | | | | exact I]; try reflexivity;
  [ let n := fresh "n" in
    let Hn := fresh "Hn" in
    intros n Hn; unfold turnsDone in *;
    cbn [gameState setGameState handleStartSetup setPlayerType] in Hn;
    rewrite ?Hg in Hn; try discriminate; rewrite ?Hg; exact Hn
  | cbn [gameState setGameState handleStartSetup setPlayerType];
    rewrite ?Hg; discriminate ].

Lemma Inv_step st ev st' : Inv st -> step st ev = Some st' -> Inv st'.
Proof.
  intros I H. unfold step in H.
  destruct (gameState st) eqn:Hg; destruct ev;
    try (inversion H; subst st'; exact I).
  - (* INTRO, start setup *)
    inversion H; subst st'. same_progress I Hg.
  - (* SETUP, player type *)
    inversion H; subst st'. same_progress I Hg.
  - (* SETUP, start game *)
    inversion H; subst st'. apply Inv_seed. now right.
  - (* HANDOFF, ready *)
    inversion H; subst st'. same_progress I Hg.
  - (* PLAY, submit *)
    destruct (currentPlayerType st) as [[|]|]; try discriminate.
    + unfold submitTurn in H. destruct orderInput as [o|].
      * destruct (o <? 0).
        -- inversion H; subst st'; exact I.
        -- eapply Inv_processTurn; eassumption.
      * inversion H; subst st'; exact I.
    + inversion H; subst st'; exact I.
  - (* PLAY, agent *)
    destruct (currentPlayerType st) as [[|]|]; try discriminate.
    + inversion H; subst st'; exact I.
    + unfold aiTurn in H.
      destruct (nth_error ROLES (turnIndex st)); [|discriminate].
      destruct (getHistoryEntry _ _ _); [|discriminate].
      destruct (getIncomingShipment _ _ _); [|discriminate].
      destruct (getIncomingDemand _ _ _); [|discriminate].
      eapply Inv_processTurn; eassumption.
  - (* SUMMARY, next week *)
    inversion H; subst st'. now apply Inv_startNextWeek.
  - (* GAME_OVER, start setup *)
    inversion H; subst st'. same_progress I Hg.
Qed.

Lemma Reachable_Inv st : Reachable st -> Inv st.
Proof.
  induction 1 as [|st ev st' _ IH H].
  - apply Inv_seed. now left.
  - eapply Inv_step; eassumption.
Qed.

(** *** Settlement of one turn *)

(** In every reachable [PLAY] state [processTurn] returns, and the
    entry it appends is the settlement of the previous entry of the
    role with the incoming shipment and demand. *)
Lemma processTurn_settles st orderAmount :
  Reachable st -> gameState st = PLAY ->
  exists role prev ship dem,
    nth_error ROLES (turnIndex st) = Some role
    /\ getHistoryEntry (history st) (currentWeek st - 1) role = Some prev
    /\ getIncomingShipment (history st) (turnIndex st) (currentWeek st)
       = Some ship
    /\ getIncomingDemand (history st) (turnIndex st) (currentWeek st)
       = Some dem
    /\ processTurn st orderAmount
       = Some (committed st (settled st role prev ship dem orderAmount)).
Proof.
  intros Hr Hg. pose proof (Reachable_Inv Hr) as I.
  destruct (processTurn_defined orderAmount I) as [st' H].
  destruct (processTurn_inv _ _ H) as (role & prev & ship & dem & H').
  exists role, prev, ship, dem. intuition congruence.
Qed.

Lemma history_committed st e : history (committed st e) = history st ++ [e].
Proof. unfold committed. now destruct (turnIndex st <? 3)%nat. Qed.

(** *** The manufacturer's supply *)


(** *** The terminal state *)



(** *** A complete game

    One turn: the hand-off screen is left, then the player of the
    role decides: a human types [fst inp], an agent replies
    [snd inp].  One week: four turns, then the summary is left. *)

Definition TurnInput : Type := Z * Remote.

Definition playTurn (st : State) (inp : TurnInput) : option State :=
  match step st EReady with
  | None => None
  | Some st1 =>
      match currentPlayerType st1 with
      | Some HUMAN => step st1 (ESubmit (Some (fst inp)))
      | Some AI => step st1 (EAgent (snd inp))
      | None => None
      end
  end.















End Beer.

(** ** The fast-food distribution-centre game

    The player runs the distribution centre; Aryzta supplies buns and
    Tyson supplies beef and fish from one pool of meat. *)

Module Mcd.

Definition MAX_WEEKS : Z := 20.
Definition HOLDING_COST : Q := 1 # 2.
Definition BACKLOG_COST : Q := 2.
Definition LEAD_TIME : Z := 2.
Definition PRODUCTION_DELAY : Z := 2.
Definition API_KEY : string := EmptyString.

(** Objects keyed by ingredient: inventory, backlog, demand, orders
    and shipped quantities. *)
Inductive Item := Buns | Beef | Fish.

Record Items := mkItems { buns : Z; beef : Z; fish : Z }.

Definition get (o : Items) (item : Item) : Z :=
  match item with Buns => buns o | Beef => beef o | Fish => fish o end.

Definition set (o : Items) (item : Item) (v : Z) : Items :=
  match item with
  | Buns => mkItems v (beef o) (fish o)
  | Beef => mkItems (buns o) v (fish o)
  | Fish => mkItems (buns o) (beef o) v
  end.

Definition generateInitialInventory : Items := mkItems 1500 1000 500.
Definition generateEmptyOrder : Items := mkItems 0 0 0.

Record Production := mkProduction { weekArrives : Z; amount : Z }.

Record SupplierLog := mkSupplierLog {
  logWeek : Z; orderReceived : Z; logInventory : Z; production : Z
}.

Module Supplier.
Record t := mk {
  role : string;
  inventory : Z;
  backlog : Z;
  productionQueue : list Production;
  lastOrderReceived : Z;
  history : list SupplierLog;
  lastReasoning : string;
  lastProductionOrder : Z
}.
End Supplier.

Definition generateSupplierState (role : string) (initialInv : Z)
  : Supplier.t :=
  Supplier.mk role initialInv 0 [] 0 [] "Simulation started. Ready for orders." 0.

Record StoreOrder := mkStoreOrder { bigMacs : Z; filets : Z }.

Record StoreOrders := mkStoreOrders {
  storeA : StoreOrder; storeB : StoreOrder; storeC : StoreOrder
}.

Record Shipment := mkShipment { arrivalWeek : Z; quantities : Items }.

Record HistoryRow := mkHistoryRow {
  rowWeek : Z;
  rowInventory : Z;
  rowBacklog : Z;
  rowCost : option Q;
  rowDemand : option Z
}.

Inductive TurnPhase := PLAYER | AI_ARYZTA | AI_TYSON | PROCESSING.

Record State := mkState {
  week : Z;
  gameOver : bool;
  turnPhase : TurnPhase;
  apiKey : string;
  inventory : Items;
  backlog : Items;
  totalCost : Q;
  aryztaState : Supplier.t;
  tysonState : Supplier.t;
  history : list HistoryRow;
  storeOrders : StoreOrders;
  currentDemand : Items;
  shipments : list Shipment;
  playerOrder : Items
}.

Definition calculateIngredientDemand (orders : StoreOrders) : Items :=
  fold_left
    (fun acc order =>
       mkItems (buns acc + (bigMacs order * 3 + filets order * 2))
               (beef acc + bigMacs order * 2)
               (fish acc + filets order * 1))
    [storeA orders; storeB orders; storeC orders]
    (mkItems 0 0 0).

Definition initialStoreOrders : StoreOrders :=
  mkStoreOrders (mkStoreOrder 100 20) (mkStoreOrder 90 30)
                (mkStoreOrder 110 10).

(** The state once the component is mounted (the mount effect has
    set [currentDemand]). *)
Definition initial : State :=
  mkState 1 false PLAYER API_KEY
          generateInitialInventory (mkItems 0 0 0) 0
          (generateSupplierState "Aryzta (Buns)" 3000)
          (generateSupplierState "Tyson (Protein)" 3000)
          [mkHistoryRow 0 3000 0 None (Some 0)]
          initialStoreOrders
          (calculateIngredientDemand initialStoreOrders)
          []
          (mkItems 0 0 0).

(** *** The agents *)

Inductive Remote := Failed | Replied (order : Z) (reasoning : string).

Record Decision := mkDecision { order : Z; reasoning : string }.

Definition maxQ (a b : Q) : Q := if Qle_bool a b then b else a.

Definition isEmpty (s : string) : bool :=
  match s with EmptyString => true | _ => false end.

Definition getAITurn (key : string) (agentState : Supplier.t)
           (currentDemandFromPlayer : Z) (remote : Remote) : Decision :=
  if isEmpty key then
    let scaled := (inject_Z (Supplier.lastOrderReceived agentState) * (3 # 2))%Q in
    let target := if Qeq_bool scaled 0 then 200%Q else scaled in
    let order :=
      maxQ 0 (target - inject_Z (Supplier.inventory agentState)
              + inject_Z (Supplier.backlog agentState))%Q in
    mkDecision (Js.round order)
      "API Key missing. Fallback strategy: Target inventory maintenance."
  else
    match remote with
    | Replied o r => mkDecision o r
    | Failed =>
        mkDecision currentDemandFromPlayer
                   "AI Brain Freeze (Error). Matching demand."
    end.

(** *** One week *)

(** The production that reaches the supplier now: the first queue
    entry due at [week + 1], if any. *)
Definition arrivingProduction (wk : Z) (state : Supplier.t)
  : option Production :=
  find (fun p => weekArrives p =? wk + 1) (Supplier.productionQueue state).

Definition processSupplier (wk : Z) (state : Supplier.t)
           (productionAmount playerOrderAmount : Z) : Supplier.t * Z :=
  let received :=
    match arrivingProduction wk state with
    | Some p => Supplier.inventory state + amount p
    | None => Supplier.inventory state
    end in
  let queue :=
    Supplier.productionQueue state
    ++ [mkProduction (wk + 1 + PRODUCTION_DELAY) productionAmount] in
  let totalOwed := playerOrderAmount + Supplier.backlog state in
  if received >=? totalOwed then
    (Supplier.mk (Supplier.role state) (received - totalOwed) 0 queue
                 playerOrderAmount (Supplier.history state)
                 (Supplier.lastReasoning state)
                 (Supplier.lastProductionOrder state),
     totalOwed)
  else
    (Supplier.mk (Supplier.role state) 0 (totalOwed - received) queue
                 playerOrderAmount (Supplier.history state)
                 (Supplier.lastReasoning state)
                 (Supplier.lastProductionOrder state),
     received).

(** The split of Tyson's shipment between beef and fish.  The
    quotient is a double, and so is each product with it before it is
    floored: with 110 shipped against 150 and 150 ordered the quotient
    is the double just below 11/30, both products fall just below 55
    and 54 of each are shipped. *)
Definition serviceLevel (shippedAmount tysonDemandTotal : Z) : Q :=
  if tysonDemandTotal >? 0
  then Js.double (inject_Z shippedAmount / inject_Z tysonDemandTotal)
  else 1%Q.

(** The loop over [['buns', 'beef', 'fish']] that fulfils the
    restaurants' demand; the pair is [(newInventory, newBacklog)]. *)
Definition fulfillItem (totalNeeds : Items) (acc : Items * Items)
           (item : Item) : Items * Items :=
  let '(newInventory, newBacklog) := acc in
  if get newInventory item >=? get totalNeeds item then
    (set newInventory item (get newInventory item - get totalNeeds item),
     set newBacklog item 0)
  else
    (set newInventory item 0,
     set newBacklog item (get totalNeeds item - get newInventory item)).

Definition fulfill (received totalNeeds : Items) : Items * Items :=
  fold_left (fulfillItem totalNeeds) [Buns; Beef; Fish]
            (received, mkItems 0 0 0).

(** The literals [1.8], [0.8] and [0.4] are the doubles nearest to
    them; [2.5] is a double. *)
Definition multiplierFor (nextWeek : Z) (random : Q) : Q :=
  if nextWeek =? 5 then 5 # 2
  else if nextWeek =? 6 then Js.double (9 # 5)
  else Js.double (Js.double (4 # 5) + Js.double (random * Js.double (2 # 5))).

Definition generateStoreDemand (multiplier : Q) (baseBM baseF : Z)
  : StoreOrder :=
  mkStoreOrder (Js.floor (Js.double (inject_Z baseBM * multiplier)))
               (Js.floor (Js.double (inject_Z baseF * multiplier))).

(** What [resolveWeek] ships to the player this week. *)
Definition tysonSplit (st : State) (shippedAmount : Z) : Z * Z :=
  let tysonDemandTotal :=
    beef (playerOrder st) + fish (playerOrder st)
    + Supplier.backlog (tysonState st) in
  let level := serviceLevel shippedAmount tysonDemandTotal in
  (Js.floor (Js.double (inject_Z (beef (playerOrder st)) * level)),
   Js.floor (Js.double (inject_Z (fish (playerOrder st)) * level))).

(** [random] is the value [Math.random()] returns this week. *)
Definition resolveWeek (st : State) (aryztaProduction tysonProduction : Z)
           (random : Q) : State :=
  let aryztaResult :=
    processSupplier (week st) (aryztaState st) aryztaProduction
                    (buns (playerOrder st)) in
  let tysonResult :=
    processSupplier (week st) (tysonState st) tysonProduction
                    (beef (playerOrder st) + fish (playerOrder st)) in
  let '(shippedBeef, shippedFish) := tysonSplit st (snd tysonResult) in
  let newShipment :=
    mkShipment (week st + 1 + LEAD_TIME)
               (mkItems (snd aryztaResult) shippedBeef shippedFish) in
  let updatedShipments := shipments st ++ [newShipment] in
  let arrivingShipment :=
    find (fun s => arrivalWeek s =? week st + 1) updatedShipments in
  let received :=
    match arrivingShipment with
    | Some s =>
        mkItems (buns (inventory st) + buns (quantities s))
                (beef (inventory st) + beef (quantities s))
                (fish (inventory st) + fish (quantities s))
    | None => inventory st
    end in
  let totalNeeds :=
    mkItems (buns (currentDemand st) + buns (backlog st))
            (beef (currentDemand st) + beef (backlog st))
            (fish (currentDemand st) + fish (backlog st)) in
  let '(newInventory, newBacklog) := fulfill received totalNeeds in
  let totalItemsHeld :=
    buns newInventory + beef newInventory + fish newInventory in
  let totalItemsBacklog :=
    buns newBacklog + beef newBacklog + fish newBacklog in
  let weeklyCost :=
    (inject_Z totalItemsHeld * HOLDING_COST
     + inject_Z totalItemsBacklog * BACKLOG_COST)%Q in
  let newTotalCost := (totalCost st + weeklyCost)%Q in
  let nextWeek := week st + 1 in
  let multiplier := multiplierFor nextWeek random in
  let nextStoreOrders :=
    mkStoreOrders (generateStoreDemand multiplier 100 20)
                  (generateStoreDemand multiplier 90 30)
                  (generateStoreDemand multiplier 110 10) in
  mkState nextWeek
          (if nextWeek =? MAX_WEEKS then true else gameOver st)
          PLAYER (apiKey st)
          newInventory newBacklog newTotalCost
          (fst aryztaResult) (fst tysonResult)
          (history st
           ++ [mkHistoryRow nextWeek totalItemsHeld totalItemsBacklog
                            (Some newTotalCost) None])
          nextStoreOrders
          (calculateIngredientDemand nextStoreOrders)
          updatedShipments
          generateEmptyOrder.

(** What the environment supplies during one turn: the two remote
    replies and the random draw. *)
Record TurnInput := mkTurnInput {
  aryztaRemote : Remote; tysonRemote : Remote; random : Q
}.

(** [startTurnSequence].  It runs on the state of the render in which
    the button was clicked: [resolveWeek] reads that state, and the
    supplier objects it stores are copies of that state's, so the
    notes written on the suppliers between the two agent calls are
    overwritten when the week is resolved. *)
Definition startTurnSequence (st : State) (inp : TurnInput) : State :=
  if week st >=? MAX_WEEKS then st
  else
    let aryztaDecision :=
      getAITurn (apiKey st) (aryztaState st) (buns (playerOrder st))
                (aryztaRemote inp) in
    let totalMeatOrder := beef (playerOrder st) + fish (playerOrder st) in
    let tysonDecision :=
      getAITurn (apiKey st) (tysonState st) totalMeatOrder
                (tysonRemote inp) in
    resolveWeek st (order aryztaDecision) (order tysonDecision)
                (random inp).

Definition setPlayerOrder (st : State) (item : Item) (v : Z) : State :=
  mkState (week st) (gameOver st) (turnPhase st) (apiKey st)
          (inventory st) (backlog st) (totalCost st)
          (aryztaState st) (tysonState st) (history st)
          (storeOrders st) (currentDemand st) (shipments st)
          (set (playerOrder st) item v).

(** The controls: the three order boxes and the turn button, all
    disabled once the game is over. *)
Inductive Event :=
| EOrder (item : Item) (v : Z)
| ETurn (inp : TurnInput).

Definition step (st : State) (ev : Event) : State :=
  if gameOver st then st
  else match turnPhase st with
       | PLAYER =>
           match ev with
           | EOrder item v => setPlayerOrder st item v
           | ETurn inp => startTurnSequence st inp
           end
       | _ => st
       end.

Definition run (st : State) (evs : list Event) : State :=
  fold_left step evs st.

(** *** Settlement at a supplier *)

Definition arrivingAmount (wk : Z) (state : Supplier.t) : Z :=
  match arrivingProduction wk state with
  | Some p => amount p
  | None => 0
  end.

Lemma processSupplier_conserves wk state productionAmount playerOrderAmount :
  let available := Supplier.inventory state + arrivingAmount wk state in
  let totalOwed := playerOrderAmount + Supplier.backlog state in
  let result := processSupplier wk state productionAmount playerOrderAmount in
  snd result = Z.min available totalOwed
  /\ Supplier.inventory (fst result) = available - snd result
  /\ Supplier.backlog (fst result) = totalOwed - snd result
  /\ Supplier.productionQueue (fst result)
     = Supplier.productionQueue state
       ++ [mkProduction (wk + 1 + PRODUCTION_DELAY) productionAmount].
Proof.
  unfold processSupplier, arrivingAmount.
  destruct (arrivingProduction wk state) as [p|]; cbv zeta;
    match goal with
    | |- context [?a >=? ?b] => destruct (a >=? b) eqn:E
    end;
    rewrite Z.geb_leb in E;
    [apply Z.leb_le in E | apply Z.leb_gt in E
    |apply Z.leb_le in E | apply Z.leb_gt in E];
    cbn [fst snd Supplier.inventory Supplier.backlog
         Supplier.productionQueue];
    repeat split; lia.
Qed.

(** *** Fulfilment at the distribution centre *)

(** One ingredient settled on its own. *)
Definition settleItem (have need : Z) : Z * Z :=
  if have >=? need then (have - need, 0) else (0, need - have).

Lemma fulfill_item received totalNeeds item :
  (get (fst (fulfill received totalNeeds)) item,
   get (snd (fulfill received totalNeeds)) item)
  = settleItem (get received item) (get totalNeeds item).
Proof.
  destruct received as [rb re rf], totalNeeds as [nb ne nf].
  unfold fulfill, settleItem, fulfillItem.
  destruct item; cbn [fold_left get set buns beef fish fst snd];
    destruct (rb >=? nb); cbn [get set buns beef fish fst snd];
    destruct (re >=? ne); cbn [get set buns beef fish fst snd];
    destruct (rf >=? nf); reflexivity.
Qed.

Lemma settleItem_nonneg have need :
  0 <= have -> 0 <= need ->
  0 <= fst (settleItem have need) /\ 0 <= snd (settleItem have need).
Proof.
  intros Hh Hn. unfold settleItem.
  destruct (have >=? need) eqn:E; rewrite Z.geb_leb in E;
    [apply Z.leb_le in E | apply Z.leb_gt in E]; simpl; lia.
Qed.

(** *** What one resolved week leaves behind *)

Lemma resolveWeek_shipments st a t r :
  shipments (resolveWeek st a t r)
  = shipments st
    ++ [mkShipment (week st + 1 + LEAD_TIME)
          (mkItems
             (snd (processSupplier (week st) (aryztaState st) a
                                   (buns (playerOrder st))))
             (fst (tysonSplit st
                     (snd (processSupplier (week st) (tysonState st) t
                             (beef (playerOrder st) + fish (playerOrder st))))))
             (snd (tysonSplit st
                     (snd (processSupplier (week st) (tysonState st) t
                             (beef (playerOrder st) + fish (playerOrder st)))))))].
Proof.
  unfold resolveWeek.
  destruct (tysonSplit st _) as [sb sf].
  destruct (fulfill _ _) as [ni nb]. reflexivity.
Qed.

Lemma resolveWeek_suppliers st a t r :
  aryztaState (resolveWeek st a t r)
  = fst (processSupplier (week st) (aryztaState st) a (buns (playerOrder st)))
  /\ tysonState (resolveWeek st a t r)
     = fst (processSupplier (week st) (tysonState st) t
              (beef (playerOrder st) + fish (playerOrder st))).
Proof.
  unfold resolveWeek.
  destruct (tysonSplit st _) as [sb sf].
  destruct (fulfill _ _) as [ni nb]. split; reflexivity.
Qed.

Lemma resolveWeek_clock st a t r :
  week (resolveWeek st a t r) = week st + 1
  /\ gameOver (resolveWeek st a t r)
     = (if week st + 1 =? MAX_WEEKS then true else gameOver st)
  /\ turnPhase (resolveWeek st a t r) = PLAYER
  /\ map rowWeek (history (resolveWeek st a t r))
     = map rowWeek (history st) ++ [week st + 1].
Proof.
  unfold resolveWeek.
  destruct (tysonSplit st _) as [sb sf].
  destruct (fulfill _ _) as [ni nb].
  cbn [week gameOver turnPhase history]. rewrite map_app.
  repeat split; reflexivity.
Qed.

Lemma resolveWeek_fulfills st a t r :
  let arriving :=
    find (fun s => arrivalWeek s =? week st + 1)
         (shipments (resolveWeek st a t r)) in
  let received :=
    match arriving with
    | Some s =>
        mkItems (buns (inventory st) + buns (quantities s))
                (beef (inventory st) + beef (quantities s))
                (fish (inventory st) + fish (quantities s))
    | None => inventory st
    end in
  let totalNeeds :=
    mkItems (buns (currentDemand st) + buns (backlog st))
            (beef (currentDemand st) + beef (backlog st))
            (fish (currentDemand st) + fish (backlog st)) in
  (inventory (resolveWeek st a t r), backlog (resolveWeek st a t r))
  = fulfill received totalNeeds.
Proof.
  cbv zeta. rewrite resolveWeek_shipments. unfold resolveWeek.
  destruct (tysonSplit st _) as [sb sf]. cbn [fst snd].
  destruct (fulfill _ _) as [ni nb]. reflexivity.
Qed.

(** *** Turns *)

(** One turn of the player: the three order boxes are filled, then
    the turn button is pressed. *)
Record Turn := mkTurn {
  bunsInput : Z; beefInput : Z; fishInput : Z; env : TurnInput
}.

Definition playTurn (st : State) (t : Turn) : State :=
  step (step (step (step st (EOrder Buns (bunsInput t)))
                   (EOrder Beef (beefInput t)))
             (EOrder Fish (fishInput t)))
       (ETurn (env t)).

Definition play (st : State) (turns : list Turn) : State :=
  fold_left playTurn turns st.

Definition typed (st : State) (t : Turn) : State :=
  setPlayerOrder
    (setPlayerOrder (setPlayerOrder st Buns (bunsInput t))
                    Beef (beefInput t))
    Fish (fishInput t).

Inductive Who := Aryzta | Tyson.

Definition supplierOf (st : State) (who : Who) : Supplier.t :=
  match who with Aryzta => aryztaState st | Tyson => tysonState st end.

(** The production order a supplier's agent gives in a turn. *)
Definition decisionOf (st : State) (t : Turn) (who : Who) : Decision :=
  match who with
  | Aryzta =>
      getAITurn (apiKey st) (aryztaState st) (bunsInput t)
                (aryztaRemote (env t))
  | Tyson =>
      getAITurn (apiKey st) (tysonState st) (beefInput t + fishInput t)
                (tysonRemote (env t))
  end.

Lemma turn_resolves_week st t :
  gameOver st = false -> turnPhase st = PLAYER -> week st < MAX_WEEKS ->
  playTurn st t
  = resolveWeek (typed st t) (order (decisionOf st t Aryzta))
                (order (decisionOf st t Tyson)) (random (env t)).
Proof.
  intros Hg Hp Hw. unfold playTurn.
  assert (E : forall s item v, gameOver s = false -> turnPhase s = PLAYER ->
              step s (EOrder item v) = setPlayerOrder s item v).
  { intros s item v H1 H2. unfold step. now rewrite H1, H2. }
  rewrite (E st Buns (bunsInput t) Hg Hp).
  rewrite (E (setPlayerOrder st Buns (bunsInput t)) Beef (beefInput t) Hg Hp).
  rewrite (E (setPlayerOrder (setPlayerOrder st Buns (bunsInput t))
                             Beef (beefInput t))
             Fish (fishInput t) Hg Hp).
  fold (typed st t).
  unfold step.
  change (gameOver (typed st t)) with (gameOver st).
  change (turnPhase (typed st t)) with (turnPhase st).
  rewrite Hg, Hp. unfold startTurnSequence.
  change (week (typed st t)) with (week st).
  replace (week st >=? MAX_WEEKS) with false
    by (symmetry; rewrite Z.geb_leb; apply Z.leb_gt; lia).
  reflexivity.
Qed.

(** *** The production queue of a supplier along a game *)

Definition released (who : Who) (st : State) : Z :=
  arrivingAmount (week st) (supplierOf st who).

Definition scheduled (who : Who) (st : State) (t : Turn) : Z :=
  order (decisionOf st t who).

(** The turn button works while [week < MAX_WEEKS]: 19 weeks. *)
Definition horizon : nat := 19.

Definition Queue (who : Who) (st : State) (amounts : list Z) : Prop :=
  Supplier.productionQueue (supplierOf st who)
  = Ledger.entries mkProduction (1 + 1 + PRODUCTION_DELAY) amounts
  /\ ((length amounts < horizon)%nat ->
      gameOver st = false /\ turnPhase st = PLAYER
      /\ week st = 1 + Z.of_nat (length amounts)).

Lemma production_released who st amounts :
  Queue who st amounts -> (length amounts < horizon)%nat ->
  released who st = nth (length amounts) (Ledger.delayed amounts) 0.
Proof.
  intros [Hq Hc] Hlen. destruct (Hc Hlen) as (_ & _ & Hw).
  unfold released, arrivingAmount, arrivingProduction. rewrite Hq.
  rewrite (Ledger.find_entries mkProduction weekArrives) by reflexivity.
  rewrite <- (@Ledger.delayed_window (1 + 1 + PRODUCTION_DELAY)
                (week st + 1) amounts)
    by (unfold PRODUCTION_DELAY; lia).
  now destruct (Ledger.inWindow (1 + 1 + PRODUCTION_DELAY) (week st + 1)
                                amounts).
Qed.

Lemma production_step who st amounts t :
  Queue who st amounts -> (length amounts < horizon)%nat -> True ->
  Queue who (playTurn st t) (amounts ++ [scheduled who st t]).
Proof.
  intros [Hq Hc] Hlen _. destruct (Hc Hlen) as (Hg & Hp & Hw).
  unfold horizon in *.
  rewrite (@turn_resolves_week st t Hg Hp) by (unfold MAX_WEEKS; lia).
  destruct (resolveWeek_suppliers (typed st t)
              (order (decisionOf st t Aryzta))
              (order (decisionOf st t Tyson)) (random (env t))) as [Ea Et].
  destruct (resolveWeek_clock (typed st t)
              (order (decisionOf st t Aryzta))
              (order (decisionOf st t Tyson)) (random (env t)))
    as (Ew & Eg & Ep & _).
  change (week (typed st t)) with (week st) in *.
  change (gameOver (typed st t)) with (gameOver st) in *.
  change (aryztaState (typed st t)) with (aryztaState st) in *.
  change (tysonState (typed st t)) with (tysonState st) in *.
  unfold Queue. split.
  - rewrite Ledger.entries_snoc.
    replace (1 + 1 + PRODUCTION_DELAY + Z.of_nat (length amounts))
      with (week st + 1 + PRODUCTION_DELAY) by lia.
    destruct who; cbn [supplierOf] in *.
    + rewrite Ea, <- Hq. apply processSupplier_conserves.
    + rewrite Et, <- Hq. apply processSupplier_conserves.
  - rewrite length_app. cbn [length]. intros Hlen'. unfold horizon in Hlen'.
    rewrite Ew, Eg, Ep.
    replace (week st + 1 =? MAX_WEEKS) with false
      by (symmetry; apply Z.eqb_neq; unfold MAX_WEEKS; lia).
    repeat split; auto. lia.
Qed.

(** *** The clock *)

Definition Clock (st : State) (n : nat) : Prop :=
  map rowWeek (history st) = 0 :: Ledger.weeksFrom 2 n
  /\ if (n <? horizon)%nat
     then gameOver st = false /\ turnPhase st = PLAYER
          /\ week st = 1 + Z.of_nat n
     else gameOver st = true /\ week st = MAX_WEEKS.




(** *** Tyson's split between beef and fish *)

(** The floored shares of beef and fish never add up to more than
    the quantity shipped, as long as that quantity is below [2^52]:
    the three roundings raise the sum of the two products by less than
    one unit. *)
Lemma tysonSplit_bound st shippedAmount :
  0 <= beef (playerOrder st) -> 0 <= fish (playerOrder st) ->
  0 <= Supplier.backlog (tysonState st) ->
  0 <= shippedAmount
    <= beef (playerOrder st) + fish (playerOrder st)
       + Supplier.backlog (tysonState st) ->
  shippedAmount < 2 ^ 52 ->
  fst (tysonSplit st shippedAmount) + snd (tysonSplit st shippedAmount)
  <= shippedAmount.
Proof.
  intros Hb Hf Hk Hs Hlt. unfold tysonSplit, serviceLevel, Js.floor.
  cbn [fst snd].
  set (b := beef (playerOrder st)) in *.
  set (f := fish (playerOrder st)) in *.
  set (s := shippedAmount) in *.
  set (t := b + f + Supplier.backlog (tysonState st)) in *.
  destruct (Z.gtb_spec t 0) as [Ht | Ht].
  - set (q := Js.double (inject_Z s / inject_Z t)).
    assert (T0 : (0 < inject_Z t)%Q)
      by (change 0%Q with (inject_Z 0); now rewrite <- Zlt_Qlt).
    assert (S0 : (0 <= inject_Z s)%Q)
      by (change 0%Q with (inject_Z 0); rewrite <- Zle_Qle; lia).
    assert (B0 : (0 <= inject_Z b)%Q)
      by (change 0%Q with (inject_Z 0); now rewrite <- Zle_Qle).
    assert (F0 : (0 <= inject_Z f)%Q)
      by (change 0%Q with (inject_Z 0); now rewrite <- Zle_Qle).
    assert (X0 : (0 <= inject_Z s / inject_Z t)%Q).
    { apply Qle_shift_div_l; [exact T0|]. now rewrite Qmult_0_l. }
    pose proof (Js.double_nonneg X0) as Q0. fold q in Q0.
    pose proof (Js.double_upper X0) as Q1. fold q in Q1.
    assert (Q2 : (inject_Z t * q <= inject_Z s * (1 + (1 # 2 ^ 53)))%Q).
    { apply Qle_trans
        with (y := (inject_Z t * (inject_Z s / inject_Z t
                                  * (1 + (1 # 2 ^ 53))))%Q).
      - apply Qmult_le_l; assumption.
      - rewrite Qmult_assoc, Qmult_div_r; [apply Qle_refl|].
        intros E. rewrite E in T0. now apply Qlt_irrefl in T0. }
    assert (PB : (0 <= inject_Z b * q)%Q) by now apply Qmult_le_0_compat.
    assert (PF : (0 <= inject_Z f * q)%Q) by now apply Qmult_le_0_compat.
    pose proof (Js.double_upper PB) as UB.
    pose proof (Js.double_upper PF) as UF.
    pose proof (Qfloor_le (Js.double (inject_Z b * q))) as FB.
    pose proof (Qfloor_le (Js.double (inject_Z f * q))) as FF.
    set (pb := Js.double (inject_Z b * q)) in *.
    set (pf := Js.double (inject_Z f * q)) in *.
    assert (BF : (inject_Z b * q + inject_Z f * q <= inject_Z t * q)%Q).
    { rewrite <- Qmult_plus_distr_l. apply Qmult_le_compat_r; [|exact Q0].
      rewrite <- inject_Z_plus, <- Zle_Qle. unfold t. lia. }
    assert (SL : (inject_Z s <= inject_Z (2 ^ 52 - 1))%Q)
      by (rewrite <- Zle_Qle; lia).
    assert (G : (inject_Z (Qfloor pb + Qfloor pf) < inject_Z (s + 1))%Q).
    { rewrite !inject_Z_plus.
      set (u := (1 + (1 # 2 ^ 53))%Q) in *.
      assert (C1 : (inject_Z b * q * u + inject_Z f * q * u
                    <= inject_Z s * u * u)%Q).
      { apply Qle_trans with (y := (inject_Z t * q * u)%Q).
        - rewrite <- Qmult_plus_distr_l. apply Qmult_le_compat_r; [exact BF|].
          unfold u. discriminate.
        - apply Qmult_le_compat_r; [exact Q2 | unfold u; discriminate]. }
      assert (C2 : (inject_Z s * u * u < inject_Z s + inject_Z 1)%Q).
      { unfold u.
        change (inject_Z (2 ^ 52 - 1)) with (4503599627370495 # 1)%Q in SL.
        change (inject_Z 1) with 1%Q.
        change (1 # 2 ^ 53)%Q with (1 # 9007199254740992)%Q. lra. }
      lra. }
    rewrite <- Zlt_Qlt in G. lia.
  - assert (b = 0) by (unfold t in *; lia).
    assert (f = 0) by (unfold t in *; lia).
    replace b with 0 by lia. replace f with 0 by lia.
    change (Qfloor (Js.double (inject_Z 0 * 1))) with 0. lia.
Qed.

Lemma find_arriving_shipment st s :
  find (fun x => arrivalWeek x =? week st + 1)
       (shipments st ++ [mkShipment (week st + 1 + LEAD_TIME) s])
  = find (fun x => arrivalWeek x =? week st + 1) (shipments st).
Proof.
  rewrite Js.find_app.
  destruct (find _ (shipments st)); [reflexivity|].
  cbn [find arrivalWeek].
  replace (week st + 1 + LEAD_TIME =? week st + 1) with false
    by (symmetry; apply Z.eqb_neq; unfold LEAD_TIME; lia).
  reflexivity.
Qed.

(** *** Exactness of the production queue *)

Lemma Queue_initial who : Queue who initial [].
Proof. split; [now destruct who | intros _; repeat split; reflexivity]. Qed.

Lemma production_queue_exact who turns :
  (length turns <= horizon)%nat ->
  let rel := Ledger.releasedTrace playTurn (released who) initial turns in
  let sch := Ledger.scheduledTrace playTurn (scheduled who) initial turns in
  rel = firstn (length turns) (Ledger.delayed sch)
  /\ Ledger.total rel + Ledger.total (skipn (length turns - 2) sch)
     = Ledger.total sch.
Proof.
  intros Hlen. cbv zeta.
  apply (@Ledger.releasedTrace_total State Turn playTurn (released who)
           (scheduled who) horizon (fun _ => True) (Queue who)
           (@production_released who) (@production_step who));
    [apply Queue_initial | exact Hlen | apply Forall_forall; auto].
Qed.

Lemma arrivingAmount_none wk state :
  (forall p, In p (Supplier.productionQueue state) ->
             weekArrives p <> wk + 1) ->
  arrivingAmount wk state = 0.
Proof.
  intros H. unfold arrivingAmount, arrivingProduction.
  destruct (find _ _) as [p|] eqn:E; [|reflexivity].
  apply find_some in E. destruct E as [Hin Hp].
  apply Z.eqb_eq in Hp. now apply H in Hin.
Qed.

Lemma arrivingAmount_other wk state state' q1 p q2 :
  Supplier.productionQueue state = q1 ++ p :: q2 ->
  Supplier.productionQueue state' = q1 ++ q2 ->
  weekArrives p <> wk + 1 ->
  arrivingAmount wk state = arrivingAmount wk state'.
Proof.
  intros E E' Hp. unfold arrivingAmount, arrivingProduction.
  rewrite E, E', !Js.find_app. cbn [find].
  apply Z.eqb_neq in Hp. now rewrite Hp.
Qed.

(** *** One ingredient at the distribution centre *)

(** What arrives of one ingredient in the week being resolved. *)
Definition arrivingQuantity (st : State) (item : Item) : Z :=
  match find (fun s => arrivalWeek s =? week st + 1) (shipments st) with
  | Some s => get (quantities s) item
  | None => 0
  end.

Lemma resolveWeek_item st a t r item :
  (get (inventory (resolveWeek st a t r)) item,
   get (backlog (resolveWeek st a t r)) item)
  = settleItem (get (inventory st) item + arrivingQuantity st item)
               (get (currentDemand st) item + get (backlog st) item).
Proof.
  pose proof (resolveWeek_fulfills st a t r) as F. cbv zeta in F.
  rewrite resolveWeek_shipments, find_arriving_shipment in F.
  unfold arrivingQuantity.
  match type of F with
  | _ = fulfill ?rec ?needs => pose proof (fulfill_item rec needs item) as G
  end.
  rewrite <- F in G. cbn [fst snd] in G. rewrite G. f_equal.
  - destruct (find _ (shipments st)); destruct item;
      cbn [get buns beef fish]; lia.
  - destruct item; reflexivity.
Qed.

End Mcd.

(** ** The semiconductor game (src/nvidiagame/NvidiaGame.jsx)

    The player assembles a product from two components, CoWoS and HBM,
    each bought from its own AI supplier. *)

Module Nvidia.

Definition MAX_WEEKS : Z := 20.
Definition LEAD_TIME : Z := 2.
Definition HOLDING_COST_PER_UNIT : Z := 50.
Definition BACKLOG_COST_PER_UNIT : Z := 500.
Definition INITIAL_INVENTORY : Z := 400.
Definition COMPONENT_CAPACITY_PER_WEEK : Z := 2000.

Definition DEMAND_SCHEDULE : list Z :=
  [200; 250; 300; 400; 500;
   800; 1000; 1200; 1100; 900;
   800; 850; 900; 1000; 1200;
   1300; 1400; 1200; 1000; 800].

Inductive Kind := cowos | hbm.

Definition Kind_eqb (a b : Kind) : bool :=
  match a, b with cowos, cowos | hbm, hbm => true | _, _ => false end.

(** An object with one field per component. *)
Record Both (A : Type) := mkBoth { ofCowos : A; ofHbm : A }.
Arguments mkBoth {A}.
Arguments ofCowos {A}.
Arguments ofHbm {A}.

Definition get {A} (o : Both A) (k : Kind) : A :=
  match k with cowos => ofCowos o | hbm => ofHbm o end.

Definition set {A} (o : Both A) (k : Kind) (v : A) : Both A :=
  match k with
  | cowos => mkBoth v (ofHbm o)
  | hbm => mkBoth (ofCowos o) v
  end.

(** Quantities are [Js.Num]: an order taken from a remote reply may be
    [NaN], and it is queued and added to the stocks as it is. *)
Record Raw := mkRaw { arrivalWeek : Z; amount : Js.Num }.

Module Supplier.
Record t := mk {
  name : string;
  inventory : Js.Num;
  backlog : Js.Num;
  pipeline : list Raw;
  lastOrder : Js.Num;
  reasoning : string;
  lastShipped : option Js.Num
}.
End Supplier.

Record Incoming := mkIncoming {
  dueWeek : Z; type : Kind; quantity : Js.Num
}.

Module Player.
Record t := mk {
  inventory : Both Js.Num;
  backlog : Js.Num;
  cash : Js.Num;
  pipeline : list Incoming
}.
End Player.

Record WeekStats := mkWeekStats {
  statWeek : Z; demand : Z; fulfilled : Js.Num; statBacklog : Js.Num;
  invCowos : Js.Num; invHbm : Js.Num; cost : Js.Num; cumCost : Js.Num;
  aiCowosInv : Js.Num; aiHbmInv : Js.Num
}.

Inductive GameState := START | PLAY | THINKING | END.

Record State := mkState {
  week : Z;
  gameState : GameState;
  player : Player.t;
  suppliers : Both Supplier.t;
  orders : Both (option Z);
  errors : Both string;
  history : list WeekStats
}.

Definition initialPlayer : Player.t :=
  Player.mk (mkBoth (Js.Int INITIAL_INVENTORY) (Js.Int INITIAL_INVENTORY))
            (Js.Int 0) (Js.Int 0) [].

Definition initial : State :=
  mkState 1 START initialPlayer
    (mkBoth
       (Supplier.mk "TSMC (CoWoS)" (Js.Int INITIAL_INVENTORY) (Js.Int 0) []
                    (Js.Int 0) "Waiting for first order..." None)
       (Supplier.mk "SK Hynix (HBM)" (Js.Int INITIAL_INVENTORY) (Js.Int 0) []
                    (Js.Int 0) "Waiting for first order..." None))
    (mkBoth (Some 0) (Some 0))
    (mkBoth EmptyString EmptyString)
    [].

(** *** The agents *)

(** What the remote call comes to.  [Failed]: the request, the
    response or its parsing throws.  [Replied order reasoning]: the
    text parses to an object; [order] is its [order] field as
    [Math.min] reads it, the integer the response schema asks for, or
    [Js.NaN] when the reply has no such field -- the schema does not
    require one. *)
Inductive Remote := Failed | Replied (order : Js.Num) (reasoning : string).

Record Decision := mkDecision { order : Js.Num; reasoning : string }.

Definition isEmpty (s : string) : bool :=
  match s with EmptyString => true | _ => false end.

(** [apiKey] is the constant the user fills in at the top of the
    file. *)
Definition getAITurn (apiKey : string) (backlog : Js.Num)
           (incomingDemand : Z) (remote : Remote) : Decision :=
  if isEmpty apiKey then
    mkDecision (Js.Int incomingDemand) "API Key missing. Matching demand."
  else
    match remote with
    | Replied o r =>
        let safeOrder :=
          Js.max (Js.Int 0) (Js.min o (Js.Int COMPONENT_CAPACITY_PER_WEEK)) in
        mkDecision safeOrder r
    | Failed =>
        let heuristic :=
          Js.add (Js.Int incomingDemand)
                 (Js.apply (fun b => Js.floor (inject_Z b * (1 # 2))) backlog) in
        mkDecision heuristic "Connection failed. Panic ordering."
    end.

(** *** Input *)

(** [parseInt(value) || 0] *)
Definition parsed (value : option Z) : Z :=
  match value with Some v => v | None => 0 end.

Definition validateOrder (value : option Z) : string :=
  let val := parsed value in
  if val <? 0 then "Cannot order negative units."
  else if val >? COMPONENT_CAPACITY_PER_WEEK then "Max order: 2000"
  else EmptyString.

Definition handleInputChange (st : State) (k : Kind) (value : option Z)
  : State :=
  mkState (week st) (gameState st) (player st) (suppliers st)
          (set (orders st) k value)
          (set (errors st) k (validateOrder value))
          (history st).

(** *** One week *)

(** Raw material reaching a supplier in week [wk]. *)
Definition arrivingRaw (sup : Supplier.t) (wk : Z) : Js.Num :=
  Js.sumNum amount
    (filter (fun p => arrivalWeek p =? wk) (Supplier.pipeline sup)).

Definition updateSupplier (st : State) (supplierKey : Kind)
           (playerOrder : Z) (aiDecision : Decision) : Supplier.t :=
  let sup := get (suppliers st) supplierKey in
  let availableInventory :=
    Js.add (Supplier.inventory sup) (arrivingRaw sup (week st)) in
  let totalDemand := Js.add (Js.Int playerOrder) (Supplier.backlog sup) in
  let shippedToPlayer := Js.min availableInventory totalDemand in
  let newBacklog := Js.sub totalDemand shippedToPlayer in
  let newInventory := Js.sub availableInventory shippedToPlayer in
  let newPipelineItem := mkRaw (week st + LEAD_TIME) (order aiDecision) in
  Supplier.mk (Supplier.name sup) newInventory newBacklog
              (Supplier.pipeline sup ++ [newPipelineItem])
              (order aiDecision) (reasoning aiDecision)
              (Some shippedToPlayer).

(** Components reaching the player in week [wk]. *)
Definition arriving (p : Player.t) (k : Kind) (wk : Z) : Js.Num :=
  Js.sumNum quantity
    (filter (fun i => Kind_eqb (type i) k && (dueWeek i =? wk))
            (Player.pipeline p)).

Definition shippedOf (sup : Supplier.t) : Js.Num :=
  match Supplier.lastShipped sup with Some v => v | None => Js.Int 0 end.

Definition finalizeTurn (st : State) (playerCowosOrder playerHbmOrder : Z)
           (cowosAI hbmAI : Decision) : State :=
  let newCowosState := updateSupplier st cowos playerCowosOrder cowosAI in
  let newHbmState := updateSupplier st hbm playerHbmOrder hbmAI in
  let arrivingCowos := arriving (player st) cowos (week st) in
  let arrivingHbm := arriving (player st) hbm (week st) in
  let currentInventory :=
    mkBoth (Js.add (ofCowos (Player.inventory (player st))) arrivingCowos)
           (Js.add (ofHbm (Player.inventory (player st))) arrivingHbm) in
  let marketDemand := nth (Z.to_nat (week st - 1)) DEMAND_SCHEDULE 0 in
  let totalPlayerDemand :=
    Js.add (Js.Int marketDemand) (Player.backlog (player st)) in
  let maxProduction :=
    Js.min (ofCowos currentInventory) (ofHbm currentInventory) in
  let fulfilled := Js.min maxProduction totalPlayerDemand in
  let newPlayerBacklog := Js.sub totalPlayerDemand fulfilled in
  let newPlayerInventory :=
    mkBoth (Js.sub (ofCowos currentInventory) fulfilled)
           (Js.sub (ofHbm currentInventory) fulfilled) in
  let holdingCost :=
    Js.mul (Js.add (ofCowos newPlayerInventory) (ofHbm newPlayerInventory))
           (Js.Int HOLDING_COST_PER_UNIT) in
  let backlogCost := Js.mul newPlayerBacklog (Js.Int BACKLOG_COST_PER_UNIT) in
  let weeklyCost := Js.add holdingCost backlogCost in
  let newTotalCash := Js.add (Player.cash (player st)) weeklyCost in
  let newPlayerPipeline :=
    Player.pipeline (player st)
    ++ [mkIncoming (week st + LEAD_TIME) cowos (shippedOf newCowosState);
        mkIncoming (week st + LEAD_TIME) hbm (shippedOf newHbmState)] in
  let weekStats :=
    mkWeekStats (week st) marketDemand fulfilled newPlayerBacklog
                (ofCowos newPlayerInventory) (ofHbm newPlayerInventory)
                weeklyCost newTotalCash
                (Supplier.inventory newCowosState)
                (Supplier.inventory newHbmState) in
  mkState (if week st >=? MAX_WEEKS then week st else week st + 1)
          (if week st >=? MAX_WEEKS then END else PLAY)
          (Player.mk newPlayerInventory newPlayerBacklog newTotalCash
                     newPlayerPipeline)
          (mkBoth newCowosState newHbmState)
          (orders st) (errors st)
          (history st ++ [weekStats]).

(** The two remote replies of one turn. *)
Definition Replies : Type := Remote * Remote.

Definition handlePlayerSubmit (apiKey : string) (st : State)
           (replies : Replies) : State :=
  let cowosOrder := parsed (ofCowos (orders st)) in
  let hbmOrder := parsed (ofHbm (orders st)) in
  if (cowosOrder >? COMPONENT_CAPACITY_PER_WEEK)
     || (hbmOrder >? COMPONENT_CAPACITY_PER_WEEK)
  then st
  else
    let cowosDecision :=
      getAITurn apiKey (Supplier.backlog (ofCowos (suppliers st)))
                cowosOrder (fst replies) in
    let hbmDecision :=
      getAITurn apiKey (Supplier.backlog (ofHbm (suppliers st)))
                hbmOrder (snd replies) in
    finalizeTurn st cowosOrder hbmOrder cowosDecision hbmDecision.

Definition restartGame (st : State) : State :=
  let fresh (sup : Supplier.t) :=
    Supplier.mk (Supplier.name sup) (Js.Int INITIAL_INVENTORY) (Js.Int 0) []
                (Supplier.lastOrder sup) "Ready"
                (Supplier.lastShipped sup) in
  mkState 1 START initialPlayer
          (mkBoth (fresh (ofCowos (suppliers st)))
                  (fresh (ofHbm (suppliers st))))
          (mkBoth (Some 0) (Some 0)) (errors st) [].

Inductive Event :=
| EStart
| EInput (k : Kind) (value : option Z)
| ESubmit (replies : Replies)
| ERestart.

(** The screens: the start button on [START], the inputs and the
    submit button (disabled while an error is shown) on [PLAY], the
    restart button on [END]. *)
Definition step (apiKey : string) (st : State) (ev : Event) : State :=
  match gameState st, ev with
  | START, EStart =>
      mkState (week st) PLAY (player st) (suppliers st) (orders st)
              (errors st) (history st)
  | PLAY, EInput k value => handleInputChange st k value
  | PLAY, ESubmit replies =>
      if isEmpty (ofCowos (errors st)) && isEmpty (ofHbm (errors st))
      then handlePlayerSubmit apiKey st replies
      else st
  | END, ERestart => restartGame st
  | _, _ => st
  end.

(** One turn of the player: both order boxes are filled, then the
    orders are submitted. *)
Record Turn := mkTurn {
  cowosInput : option Z; hbmInput : option Z; replies : Replies
}.

Definition playTurn (apiKey : string) (st : State) (t : Turn) : State :=
  step apiKey
       (step apiKey (step apiKey st (EInput cowos (cowosInput t)))
             (EInput hbm (hbmInput t)))
       (ESubmit (replies t)).

Definition started : State := step EmptyString initial EStart.

(** *** Settlement at a supplier *)

Lemma updateSupplier_settles st k playerOrder aiDecision :
  let sup := get (suppliers st) k in
  let available :=
    Js.add (Supplier.inventory sup) (arrivingRaw sup (week st)) in
  let totalOwed := Js.add (Js.Int playerOrder) (Supplier.backlog sup) in
  let sup' := updateSupplier st k playerOrder aiDecision in
  Supplier.lastShipped sup' = Some (Js.min available totalOwed)
  /\ Supplier.inventory sup' = Js.sub available (shippedOf sup')
  /\ Supplier.backlog sup' = Js.sub totalOwed (shippedOf sup')
  /\ Supplier.pipeline sup'
     = Supplier.pipeline sup
       ++ [mkRaw (week st + LEAD_TIME) (order aiDecision)].
Proof.
  cbv zeta. unfold updateSupplier, shippedOf.
  cbn [Supplier.lastShipped Supplier.inventory Supplier.backlog
       Supplier.pipeline].
  repeat split; reflexivity.
Qed.

(** *** Settlement at the assembling player *)

Lemma finalizeTurn_player st c h dc dh :
  let availableCowos :=
    Js.add (ofCowos (Player.inventory (player st)))
           (arriving (player st) cowos (week st)) in
  let availableHbm :=
    Js.add (ofHbm (Player.inventory (player st)))
           (arriving (player st) hbm (week st)) in
  let totalOwed :=
    Js.add (Js.Int (nth (Z.to_nat (week st - 1)) DEMAND_SCHEDULE 0))
           (Player.backlog (player st)) in
  let fulfilledNow :=
    Js.min (Js.min availableCowos availableHbm) totalOwed in
  let p' := player (finalizeTurn st c h dc dh) in
  Player.inventory p'
  = mkBoth (Js.sub availableCowos fulfilledNow)
           (Js.sub availableHbm fulfilledNow)
  /\ Player.backlog p' = Js.sub totalOwed fulfilledNow.
Proof. cbv zeta. unfold finalizeTurn. split; reflexivity. Qed.

(** *** Turns *)

Definition validTurn (t : Turn) : Prop :=
  validateOrder (cowosInput t) = EmptyString
  /\ validateOrder (hbmInput t) = EmptyString.

Lemma validateOrder_ok value :
  validateOrder value = EmptyString <->
  0 <= parsed value <= COMPONENT_CAPACITY_PER_WEEK.
Proof.
  unfold validateOrder.
  destruct (parsed value <? 0) eqn:E1;
    [apply Z.ltb_lt in E1 | apply Z.ltb_ge in E1].
  - split; [discriminate | lia].
  - destruct (parsed value >? COMPONENT_CAPACITY_PER_WEEK) eqn:E2;
      rewrite Z.gtb_ltb in E2;
      [apply Z.ltb_lt in E2 | apply Z.ltb_ge in E2].
    + split; [discriminate | lia].
    + split; [lia | reflexivity].
Qed.

Definition inputOf (t : Turn) (k : Kind) : option Z :=
  match k with cowos => cowosInput t | hbm => hbmInput t end.

Definition replyOf (t : Turn) (k : Kind) : Remote :=
  match k with cowos => fst (replies t) | hbm => snd (replies t) end.

(** The production order supplier [k] places in a turn. *)
Definition decisionOf (apiKey : string) (st : State) (t : Turn) (k : Kind)
  : Decision :=
  getAITurn apiKey (Supplier.backlog (get (suppliers st) k))
            (parsed (inputOf t k)) (replyOf t k).

Definition typed (st : State) (t : Turn) : State :=
  handleInputChange (handleInputChange st cowos (cowosInput t))
                    hbm (hbmInput t).

Lemma playTurn_play apiKey st t :
  gameState st = PLAY -> validTurn t ->
  playTurn apiKey st t
  = finalizeTurn (typed st t)
      (parsed (cowosInput t)) (parsed (hbmInput t))
      (decisionOf apiKey st t cowos) (decisionOf apiKey st t hbm).
Proof.
  intros Hg [Vc Vh]. unfold playTurn.
  assert (E1 : step apiKey st (EInput cowos (cowosInput t))
               = handleInputChange st cowos (cowosInput t)).
  { unfold step. now rewrite Hg. }
  rewrite E1.
  assert (E2 : step apiKey (handleInputChange st cowos (cowosInput t))
                    (EInput hbm (hbmInput t)) = typed st t).
  { unfold step. cbn [gameState handleInputChange]. now rewrite Hg. }
  rewrite E2. unfold step.
  change (gameState (typed st t)) with (gameState st). rewrite Hg.
  change (ofCowos (errors (typed st t))) with (validateOrder (cowosInput t)).
  change (ofHbm (errors (typed st t))) with (validateOrder (hbmInput t)).
  rewrite Vc, Vh. cbn [isEmpty andb].
  unfold handlePlayerSubmit.
  change (ofCowos (orders (typed st t))) with (cowosInput t).
  change (ofHbm (orders (typed st t))) with (hbmInput t).
  apply validateOrder_ok in Vc. apply validateOrder_ok in Vh.
  replace (parsed (cowosInput t) >? COMPONENT_CAPACITY_PER_WEEK) with false
    by (symmetry; rewrite Z.gtb_ltb; apply Z.ltb_ge; lia).
  replace (parsed (hbmInput t) >? COMPONENT_CAPACITY_PER_WEEK) with false
    by (symmetry; rewrite Z.gtb_ltb; apply Z.ltb_ge; lia).
  reflexivity.
Qed.

(** *** The raw-material queue of a supplier along a game *)

Definition released (k : Kind) (st : State) : Js.Num :=
  arrivingRaw (get (suppliers st) k) (week st).

Definition scheduled (apiKey : string) (k : Kind) (st : State) (t : Turn)
  : Js.Num :=
  order (decisionOf apiKey st t k).

Definition horizon : nat := 20.

Definition Queue (k : Kind) (st : State) (amounts : list Js.Num) : Prop :=
  Supplier.pipeline (get (suppliers st) k)
  = NumLedger.entries mkRaw (1 + LEAD_TIME) amounts
  /\ ((length amounts < horizon)%nat ->
      gameState st = PLAY /\ week st = 1 + Z.of_nat (length amounts)).

Lemma Queue_released k st amounts :
  Queue k st amounts -> (length amounts < horizon)%nat ->
  released k st
  = nth (length amounts) (NumLedger.delayed amounts) (Js.Int 0).
Proof.
  intros [Hq Hc] Hlen. destruct (Hc Hlen) as [_ Hw].
  unfold released, arrivingRaw. rewrite Hq.
  rewrite (NumLedger.num_filter_entries mkRaw arrivalWeek) by reflexivity.
  rewrite <- (@NumLedger.num_delayed_window (1 + LEAD_TIME) (week st) amounts)
    by (unfold LEAD_TIME; lia).
  destruct (NumLedger.inWindow (1 + LEAD_TIME) (week st) amounts).
  - rewrite Js.sumNum_cons, Js.sumNum_nil. cbn [amount]. apply Js.add_0_r.
  - reflexivity.
Qed.

Lemma Queue_step apiKey k st amounts t :
  Queue k st amounts -> (length amounts < horizon)%nat -> validTurn t ->
  Queue k (playTurn apiKey st t) (amounts ++ [scheduled apiKey k st t]).
Proof.
  intros [Hq Hc] Hlen Hv. destruct (Hc Hlen) as [Hg Hw].
  rewrite (@playTurn_play apiKey st t Hg Hv).
  unfold Queue, horizon in *. split.
  - rewrite NumLedger.num_entries_snoc. rewrite <- Hq.
    replace (1 + LEAD_TIME + Z.of_nat (length amounts))
      with (week st + LEAD_TIME) by lia.
    destruct k; reflexivity.
  - rewrite length_app. cbn [length]. intros Hlen'.
    unfold finalizeTurn. cbn [gameState week].
    change (week (typed st t)) with (week st).
    replace (week st >=? MAX_WEEKS) with false
      by (symmetry; rewrite Z.geb_leb; apply Z.leb_gt;
          unfold MAX_WEEKS; lia).
    split; [reflexivity | lia].
Qed.

(** *** The clock *)

Definition Clock (st : State) (n : nat) : Prop :=
  map statWeek (history st) = Ledger.weeksFrom 1 n
  /\ if (n <? horizon)%nat
     then gameState st = PLAY /\ week st = 1 + Z.of_nat n
     else gameState st = END /\ week st = MAX_WEEKS.


Definition play (apiKey : string) (st : State) (turns : list Turn) : State :=
  fold_left (playTurn apiKey) turns st.



(** *** Exactness of the raw-material queue *)

Lemma Queue_started k : Queue k started [].
Proof. split; [now destruct k | intros _; split; reflexivity]. Qed.

Lemma raw_queue_exact apiKey k turns :
  (length turns <= horizon)%nat -> Forall validTurn turns ->
  let rel :=
    NumLedger.releasedTrace (playTurn apiKey) (released k) started turns in
  let sch :=
    NumLedger.scheduledTrace (playTurn apiKey) (scheduled apiKey k)
                             started turns in
  rel = firstn (length turns) (NumLedger.delayed sch)
  /\ Js.add (NumLedger.total rel)
            (NumLedger.total (skipn (length turns - 2) sch))
     = NumLedger.total sch.
Proof.
  intros Hlen Hv. cbv zeta.
  apply (@NumLedger.num_releasedTrace_total State Turn (playTurn apiKey)
           (released k)
           (scheduled apiKey k) horizon validTurn (Queue k)
           (@Queue_released k) (@Queue_step apiKey k));
    [apply Queue_started | exact Hlen | exact Hv].
Qed.

Lemma arrivingRaw_none sup wk :
  (forall p, In p (Supplier.pipeline sup) -> arrivalWeek p <> wk) ->
  arrivingRaw sup wk = Js.Int 0.
Proof.
  intros H. unfold arrivingRaw. rewrite Js.filter_none; [reflexivity|].
  intros p Hp. apply Z.eqb_neq. now apply H.
Qed.

Lemma arrivingRaw_other sup sup' q1 p q2 wk :
  Supplier.pipeline sup = q1 ++ p :: q2 ->
  Supplier.pipeline sup' = q1 ++ q2 ->
  arrivalWeek p <> wk ->
  arrivingRaw sup wk = arrivingRaw sup' wk.
Proof.
  intros E E' Hp. unfold arrivingRaw. rewrite E, E', !filter_app.
  cbn [filter]. apply Z.eqb_neq in Hp. now rewrite Hp.
Qed.

End Nvidia.

(** ** The earlier semiconductor component

    Same chain as [Nvidia]; entries leave the queues when they arrive,
    nothing is queued for a zero order, and the agent's fallback is an
    order-up-to rule. *)

Module Blackwell.

Definition MAX_WEEKS : Z := 20.
Definition LEAD_TIME : Z := 2.
Definition HOLDING_COST : Z := 5.
Definition BACKLOG_COST : Z := 20.
Definition ORDER_CAP_PER_COMPONENT : Z := 500.
Definition INITIAL_INVENTORY : Z := 100.
Definition API_KEY : string := EmptyString.

Definition DEMAND_CURVE : list Z :=
  [50; 50; 60; 80; 100; 120; 150; 200; 250; 300;
   300; 320; 310; 300; 280; 260; 250; 250; 250; 250].

Inductive Kind := cowos | hbm.

Record Both (A : Type) := mkBoth { ofCowos : A; ofHbm : A }.
Arguments mkBoth {A}.
Arguments ofCowos {A}.
Arguments ofHbm {A}.

Definition get {A} (o : Both A) (k : Kind) : A :=
  match k with cowos => ofCowos o | hbm => ofHbm o end.

Definition set {A} (o : Both A) (k : Kind) (v : A) : Both A :=
  match k with
  | cowos => mkBoth v (ofHbm o)
  | hbm => mkBoth (ofCowos o) v
  end.

Module Production.
Record t := mk { amount : Z; arrivalWeek : Z }.
End Production.

Module Shipment.
Record t := mk { type : Kind; amount : Z; arrivalWeek : Z }.
End Shipment.

Module Supplier.
Record t := mk {
  inventory : Z;
  backlog : Z;
  incomingProduction : list Production.t
}.
End Supplier.

Record Score := mkScore { current : Z; total : Z }.

Record HistoryRow := mkHistoryRow {
  rowWeek : Z; demand : Z; fulfilled : Z; rowBacklog : Z;
  inventoryCoWoS : Z; inventoryHBM : Z;
  ordersCoWoS : Z; ordersHBM : Z;
  supplierCoWoSInv : Z; cost : Z
}.

Inductive GameState := start | playing | gameover.
Inductive TurnPhase := player_turn | ai_turn | resolving | phase_gameover.

(** The log lines and the "thinking" indicator only feed the display
    and are left out. *)
Record State := mkState {
  week : Z;
  gameState : GameState;
  turnPhase : TurnPhase;
  inventory : Both Z;
  blackwellBacklog : Z;
  userShipments : list Shipment.t;
  suppliers : Both Supplier.t;
  score : Score;
  history : list HistoryRow;
  orders : Both Z
}.

Definition freshSuppliers : Both Supplier.t :=
  mkBoth (Supplier.mk 200 0 []) (Supplier.mk 200 0 []).

Definition initial : State :=
  mkState 0 start player_turn
          (mkBoth INITIAL_INVENTORY INITIAL_INVENTORY) 0 []
          freshSuppliers (mkScore 0 0) [] (mkBoth 0 0).

(** *** The agents *)

Inductive Remote := Failed | Replied (order : Z) (reasoning : string).

Record Decision := mkDecision { order : Z; reasoning : string }.

Definition isEmpty (s : string) : bool :=
  match s with EmptyString => true | _ => false end.

Definition getAITurn (apiKey : string) (currentStats : Supplier.t)
           (incomingDemand : Z) (remote : Remote) : Decision :=
  if isEmpty apiKey then
    let safeOrder :=
      Z.max 0 (incomingDemand - Supplier.inventory currentStats
               + Supplier.backlog currentStats) in
    mkDecision safeOrder "API Key missing. Defaulting to match demand."
  else
    match remote with
    | Replied o r => mkDecision o r
    | Failed =>
        let target := 200 in
        let pipeline :=
          fold_left (fun a b => a + Production.amount b)
                    (Supplier.incomingProduction currentStats) 0 in
        let needed :=
          Z.max 0 ((target + Supplier.backlog currentStats + incomingDemand)
                   - (Supplier.inventory currentStats + pipeline)) in
        mkDecision (Z.min needed ORDER_CAP_PER_COMPONENT)
                   "Connection failed. Using heuristic fallback."
    end.

(** *** One week *)

Definition startGame (st : State) : State :=
  mkState 1 playing player_turn
          (mkBoth INITIAL_INVENTORY INITIAL_INVENTORY) 0 []
          freshSuppliers (mkScore 0 0) [] (mkBoth 0 0).

Definition dueNow (wk : Z) (p : Production.t) : bool :=
  Production.arrivalWeek p =? wk.

(** The third component of the result is [newUserShipments], the
    array the function pushes its shipment on. *)
Definition processSupplier (wk : Z) (newUserShipments : list Shipment.t)
           (type : Kind) (userOrder : Z) (aiDecision : Decision)
           (currentSupplierState : Supplier.t)
  : Supplier.t * Z * list Shipment.t :=
  let incomingProduction := Supplier.incomingProduction currentSupplierState in
  let supplierArriving := filter (dueNow wk) incomingProduction in
  let supplierPending :=
    filter (fun p => negb (dueNow wk p)) incomingProduction in
  let received :=
    fold_left (fun inventory p => inventory + Production.amount p)
              supplierArriving (Supplier.inventory currentSupplierState) in
  let totalOwed := userOrder + Supplier.backlog currentSupplierState in
  let canShip := Z.min totalOwed received in
  let newBacklog := totalOwed - canShip in
  let shipments :=
    if canShip >? 0
    then newUserShipments ++ [Shipment.mk type canShip (wk + LEAD_TIME)]
    else newUserShipments in
  let pending :=
    if order aiDecision >? 0
    then supplierPending
         ++ [Production.mk (order aiDecision) (wk + LEAD_TIME)]
    else supplierPending in
  (Supplier.mk (received - canShip) newBacklog pending, canShip, shipments).

Definition receiveShipment (acc : Z * Z) (s : Shipment.t) : Z * Z :=
  let '(userCoWoS, userHBM) := acc in
  match Shipment.type s with
  | cowos => (userCoWoS + Shipment.amount s, userHBM)
  | hbm => (userCoWoS, userHBM + Shipment.amount s)
  end.

Definition resolveWeek (st : State) (cowosDecision hbmDecision : Decision)
  : State :=
  if week st >? MAX_WEEKS then st
  else
    let userArriving :=
      filter (fun s => Shipment.arrivalWeek s =? week st) (userShipments st) in
    let '(receivedCoWoS, receivedHBM) :=
      fold_left receiveShipment userArriving
                (ofCowos (inventory st), ofHbm (inventory st)) in
    let maxProduction := Z.min receivedCoWoS receivedHBM in
    let currentDemand := nth (Z.to_nat (week st - 1)) DEMAND_CURVE 0 in
    let totalDemandNeeded := currentDemand + blackwellBacklog st in
    let fulfilledNow := Z.min totalDemandNeeded maxProduction in
    let userCoWoS := receivedCoWoS - fulfilledNow in
    let userHBM := receivedHBM - fulfilledNow in
    let newBacklog := totalDemandNeeded - fulfilledNow in
    let '(cowosState, _, shipments1) :=
      processSupplier (week st) (userShipments st) cowos
                      (ofCowos (orders st)) cowosDecision
                      (ofCowos (suppliers st)) in
    let '(hbmState, _, shipments2) :=
      processSupplier (week st) shipments1 hbm
                      (ofHbm (orders st)) hbmDecision
                      (ofHbm (suppliers st)) in
    let currentHoldingCost := (userCoWoS + userHBM) * HOLDING_COST in
    let currentBacklogCost := newBacklog * BACKLOG_COST in
    let weeklyCost := currentHoldingCost + currentBacklogCost in
    let newTotalScore := total (score st) + weeklyCost in
    mkState (if week st =? MAX_WEEKS then week st else week st + 1)
            (if week st =? MAX_WEEKS then gameover else gameState st)
            (if week st =? MAX_WEEKS then phase_gameover else player_turn)
            (mkBoth userCoWoS userHBM)
            newBacklog
            shipments2
            (mkBoth cowosState hbmState)
            (mkScore weeklyCost newTotalScore)
            (history st
             ++ [mkHistoryRow (week st) currentDemand fulfilledNow newBacklog
                              userCoWoS userHBM
                              (ofCowos (orders st)) (ofHbm (orders st))
                              (Supplier.inventory cowosState) weeklyCost])
            (mkBoth 0 0).

Definition Replies : Type := Remote * Remote.

(** The submit button starts the agents' turn; when both have
    answered the week is resolved. *)
Definition aiTurn (apiKey : string) (st : State) (replies : Replies)
  : State :=
  let cowosDecision :=
    getAITurn apiKey (ofCowos (suppliers st)) (ofCowos (orders st))
              (fst replies) in
  let hbmDecision :=
    getAITurn apiKey (ofHbm (suppliers st)) (ofHbm (orders st))
              (snd replies) in
  resolveWeek st cowosDecision hbmDecision.

Definition canSubmit (st : State) : bool :=
  (ofCowos (orders st) >=? 0) && (ofHbm (orders st) >=? 0)
  && match turnPhase st with player_turn => true | _ => false end.

Definition handlePlayerSubmit (apiKey : string) (st : State)
           (replies : Replies) : State :=
  match gameState st, turnPhase st with
  | playing, player_turn => aiTurn apiKey st replies
  | _, _ => st
  end.

Definition setOrder (st : State) (k : Kind) (v : Z) : State :=
  mkState (week st) (gameState st) (turnPhase st) (inventory st)
          (blackwellBacklog st) (userShipments st) (suppliers st)
          (score st) (history st) (set (orders st) k v).

Inductive Event :=
| EStartGame
| EOrder (k : Kind) (v : Z)
| ESubmit (replies : Replies).

(** The start and game-over screens show the start button; the order
    boxes are enabled during the player's turn and the submit button
    while [canSubmit] holds. *)
Definition step (apiKey : string) (st : State) (ev : Event) : State :=
  match ev with
  | EStartGame =>
      match gameState st with
      | playing => st
      | _ => startGame st
      end
  | EOrder k v =>
      match turnPhase st with
      | player_turn => setOrder st k v
      | _ => st
      end
  | ESubmit replies =>
      if canSubmit st then handlePlayerSubmit apiKey st replies else st
  end.

Record Turn := mkTurn {
  cowosInput : Z; hbmInput : Z; replies : Replies
}.

Definition playTurn (apiKey : string) (st : State) (t : Turn) : State :=
  step apiKey
       (step apiKey (step apiKey st (EOrder cowos (cowosInput t)))
             (EOrder hbm (hbmInput t)))
       (ESubmit (replies t)).

Definition started : State := step EmptyString initial EStartGame.

(** *** Settlement at a supplier *)

Definition arrivingTotal (sup : Supplier.t) (wk : Z) : Z :=
  Js.sumOf Production.amount
           (filter (dueNow wk) (Supplier.incomingProduction sup)).

Lemma processSupplier_settles wk ships type userOrder aiDecision cur :
  let available := Supplier.inventory cur + arrivingTotal cur wk in
  let totalOwed := userOrder + Supplier.backlog cur in
  let result := processSupplier wk ships type userOrder aiDecision cur in
  let sup' := fst (fst result) in
  let shipped := snd (fst result) in
  shipped = Z.min available totalOwed
  /\ Supplier.inventory sup' = available - shipped
  /\ Supplier.backlog sup' = totalOwed - shipped
  /\ Supplier.incomingProduction sup'
     = filter (fun p => negb (dueNow wk p)) (Supplier.incomingProduction cur)
       ++ (if order aiDecision >? 0
           then [Production.mk (order aiDecision) (wk + LEAD_TIME)]
           else []).
Proof.
  cbv zeta. unfold processSupplier, arrivingTotal.
  cbn [fst snd Supplier.inventory Supplier.backlog
       Supplier.incomingProduction].
  rewrite Js.fold_sum_shift.
  repeat split; try lia.
  destruct (order aiDecision >? 0); [reflexivity | now rewrite app_nil_r].
Qed.

(** *** Turns *)

Definition validTurn (t : Turn) : Prop :=
  0 <= cowosInput t /\ 0 <= hbmInput t.

Definition inputOf (t : Turn) (k : Kind) : Z :=
  match k with cowos => cowosInput t | hbm => hbmInput t end.

Definition replyOf (t : Turn) (k : Kind) : Remote :=
  match k with cowos => fst (replies t) | hbm => snd (replies t) end.

Definition decisionOf (apiKey : string) (st : State) (t : Turn) (k : Kind)
  : Decision :=
  getAITurn apiKey (get (suppliers st) k) (inputOf t k) (replyOf t k).

Definition typed (st : State) (t : Turn) : State :=
  setOrder (setOrder st cowos (cowosInput t)) hbm (hbmInput t).

Lemma turn_resolves apiKey st t :
  gameState st = playing -> turnPhase st = player_turn -> validTurn t ->
  playTurn apiKey st t
  = resolveWeek (typed st t)
      (decisionOf apiKey st t cowos) (decisionOf apiKey st t hbm).
Proof.
  intros Hg Hp [Vc Vh]. unfold playTurn.
  assert (E1 : step apiKey st (EOrder cowos (cowosInput t))
               = setOrder st cowos (cowosInput t)).
  { unfold step. now rewrite Hp. }
  rewrite E1.
  assert (E2 : step apiKey (setOrder st cowos (cowosInput t))
                    (EOrder hbm (hbmInput t)) = typed st t).
  { unfold step. cbn [turnPhase setOrder]. now rewrite Hp. }
  rewrite E2. unfold step, canSubmit.
  change (turnPhase (typed st t)) with (turnPhase st). rewrite Hp.
  change (ofCowos (orders (typed st t))) with (cowosInput t).
  change (ofHbm (orders (typed st t))) with (hbmInput t).
  replace (cowosInput t >=? 0) with true
    by (symmetry; rewrite Z.geb_leb; apply Z.leb_le; lia).
  replace (hbmInput t >=? 0) with true
    by (symmetry; rewrite Z.geb_leb; apply Z.leb_le; lia).
  cbn [andb]. unfold handlePlayerSubmit.
  change (gameState (typed st t)) with (gameState st).
  change (turnPhase (typed st t)) with (turnPhase st).
  rewrite Hg, Hp. reflexivity.
Qed.

Lemma resolveWeek_fields st dc dh :
  week st <= MAX_WEEKS ->
  week (resolveWeek st dc dh)
  = (if week st =? MAX_WEEKS then week st else week st + 1)
  /\ gameState (resolveWeek st dc dh)
     = (if week st =? MAX_WEEKS then gameover else gameState st)
  /\ turnPhase (resolveWeek st dc dh)
     = (if week st =? MAX_WEEKS then phase_gameover else player_turn)
  /\ map rowWeek (history (resolveWeek st dc dh))
     = map rowWeek (history st) ++ [week st]
  /\ ofCowos (suppliers (resolveWeek st dc dh))
     = fst (fst (processSupplier (week st) (userShipments st) cowos
                   (ofCowos (orders st)) dc (ofCowos (suppliers st))))
  /\ forall ships,
      ofHbm (suppliers (resolveWeek st dc dh))
      = fst (fst (processSupplier (week st) ships hbm
                    (ofHbm (orders st)) dh (ofHbm (suppliers st)))).
Proof.
  intros Hw. unfold resolveWeek.
  replace (week st >? MAX_WEEKS) with false
    by (symmetry; rewrite Z.gtb_ltb; apply Z.ltb_ge; lia).
  destruct (fold_left receiveShipment _ _) as [rc rh].
  unfold processSupplier.
  cbn [week gameState turnPhase history suppliers ofCowos ofHbm fst snd].
  rewrite map_app. repeat split; reflexivity.
Qed.

(** *** The production queue of a supplier along a game *)

Definition released (k : Kind) (st : State) : Z :=
  arrivingTotal (get (suppliers st) k) (week st).

(** The amount a turn puts on the queue of supplier [k]: the agent's
    order when it is positive, nothing otherwise. *)
Definition scheduled (apiKey : string) (k : Kind) (st : State) (t : Turn)
  : Z :=
  let o := order (decisionOf apiKey st t k) in
  if o >? 0 then o else 0.

Definition horizon : nat := 20.

Definition mkEntry (due amount : Z) : Production.t :=
  Production.mk amount due.

(** After [n] resolved weeks the queue holds the positive entries
    that are due later than week [n]. *)
Definition waiting (n : nat) (p : Production.t) : bool :=
  (1 + Z.of_nat n <=? Production.arrivalWeek p)
  && (0 <? Production.amount p).

Definition Queue (k : Kind) (st : State) (amounts : list Z) : Prop :=
  Supplier.incomingProduction (get (suppliers st) k)
  = filter (waiting (length amounts))
           (Ledger.entries mkEntry (1 + LEAD_TIME) amounts)
  /\ Forall (fun a => 0 <= a) amounts
  /\ ((length amounts < horizon)%nat ->
      gameState st = playing /\ turnPhase st = player_turn
      /\ week st = 1 + Z.of_nat (length amounts)).

Ltac decide_tests :=
  repeat match goal with
         | |- context [?a <=? ?b] => destruct (Z.leb_spec a b)
         | |- context [?a <? ?b] => destruct (Z.ltb_spec a b)
         | |- context [?a =? ?b] => destruct (Z.eqb_spec a b)
         end;
  cbn [andb negb]; try reflexivity; try lia.

Lemma pending_released k st amounts :
  Queue k st amounts -> (length amounts < horizon)%nat ->
  released k st = nth (length amounts) (Ledger.delayed amounts) 0.
Proof.
  intros (Hq & Hpos & Hc) Hlen. destruct (Hc Hlen) as (_ & _ & Hw).
  unfold released, arrivingTotal. rewrite Hq, Js.filter_filter.
  rewrite (filter_ext _
             (fun p => dueNow (week st) p && (0 <? Production.amount p))).
  2:{ intros p. unfold waiting, dueNow. rewrite Hw. decide_tests. }
  rewrite <- Js.filter_filter.
  unfold dueNow.
  rewrite (Ledger.filter_entries mkEntry Production.arrivalWeek)
    by reflexivity.
  rewrite <- (@Ledger.delayed_window (1 + LEAD_TIME) (week st) amounts)
    by (unfold LEAD_TIME; lia).
  destruct (Ledger.inWindow (1 + LEAD_TIME) (week st) amounts);
    [|reflexivity].
  pose proof (Js.nth_nonneg (Z.to_nat (week st - (1 + LEAD_TIME))) Hpos) as Hn.
  cbn [filter mkEntry Production.amount].
  destruct (Z.ltb_spec 0 (nth (Z.to_nat (week st - (1 + LEAD_TIME))) amounts 0)).
  - unfold Js.sumOf, mkEntry. cbn [fold_left Production.amount]. lia.
  - unfold Js.sumOf. cbn [fold_left]. lia.
Qed.

Lemma pending_step apiKey k st amounts t :
  Queue k st amounts -> (length amounts < horizon)%nat -> validTurn t ->
  Queue k (playTurn apiKey st t) (amounts ++ [scheduled apiKey k st t]).
Proof.
  intros (Hq & Hpos & Hc) Hlen Hv. destruct (Hc Hlen) as (Hg & Hp & Hw).
  rewrite (@turn_resolves apiKey st t Hg Hp Hv).
  assert (Hle : week (typed st t) <= MAX_WEEKS).
  { change (week (typed st t)) with (week st).
    unfold MAX_WEEKS, horizon in *. lia. }
  destruct (resolveWeek_fields (typed st t) (decisionOf apiKey st t cowos)
              (decisionOf apiKey st t hbm) Hle)
    as (Ew & Eg & Ep & _ & Ec & Eh).
  change (week (typed st t)) with (week st) in *.
  change (gameState (typed st t)) with (gameState st) in *.
  change (suppliers (typed st t)) with (suppliers st) in *.
  unfold Queue. split; [|split].
  - assert (E : Supplier.incomingProduction
                  (get (suppliers (resolveWeek (typed st t)
                          (decisionOf apiKey st t cowos)
                          (decisionOf apiKey st t hbm))) k)
                = filter (fun p => negb (dueNow (week st) p))
                    (Supplier.incomingProduction (get (suppliers st) k))
                  ++ (if order (decisionOf apiKey st t k) >? 0
                      then [Production.mk (order (decisionOf apiKey st t k))
                                          (week st + LEAD_TIME)]
                      else [])).
    { destruct k; cbn [get].
      - rewrite Ec. apply processSupplier_settles.
      - rewrite (Eh []). apply processSupplier_settles. }
    rewrite E, Hq, Js.filter_filter, Ledger.entries_snoc, filter_app.
    rewrite length_app. cbn [length].
    f_equal.
    + apply filter_ext. intros p. unfold waiting, dueNow. rewrite Hw.
      replace (Z.of_nat (length amounts + 1)) with (Z.of_nat (length amounts) + 1)
        by lia.
      decide_tests.
    + unfold scheduled, waiting. cbn [filter mkEntry Production.arrivalWeek
                                      Production.amount].
      replace (1 + LEAD_TIME + Z.of_nat (length amounts))
        with (week st + LEAD_TIME) by lia.
      replace (1 + Z.of_nat (length amounts + 1) <=? week st + LEAD_TIME)
        with true
        by (symmetry; apply Z.leb_le; unfold LEAD_TIME; lia).
      cbn [andb]. rewrite Z.gtb_ltb.
      destruct (Z.ltb_spec 0 (order (decisionOf apiKey st t k))) as [Ho|Ho].
      * replace (0 <? order (decisionOf apiKey st t k)) with true
          by (symmetry; apply Z.ltb_lt; lia).
        reflexivity.
      * reflexivity.
  - apply Forall_app. split; [exact Hpos|]. constructor; [|constructor].
    unfold scheduled. rewrite Z.gtb_ltb.
    destruct (Z.ltb_spec 0 (order (decisionOf apiKey st t k))); lia.
  - rewrite length_app. cbn [length]. intros Hlen'.
    rewrite Ew, Eg, Ep.
    replace (week st =? MAX_WEEKS) with false
      by (symmetry; apply Z.eqb_neq; unfold MAX_WEEKS, horizon in *; lia).
    repeat split; auto. lia.
Qed.

(** *** The clock *)

Definition Clock (st : State) (n : nat) : Prop :=
  map rowWeek (history st) = Ledger.weeksFrom 1 n
  /\ if (n <? horizon)%nat
     then gameState st = playing /\ turnPhase st = player_turn
          /\ week st = 1 + Z.of_nat n
     else gameState st = gameover /\ turnPhase st = phase_gameover
          /\ week st = MAX_WEEKS.


Definition play (apiKey : string) (st : State) (turns : list Turn) : State :=
  fold_left (playTurn apiKey) turns st.



(** *** Settlement at the assembling player *)

Lemma resolveWeek_assembles st dc dh :
  week st <= MAX_WEEKS ->
  let received :=
    fold_left receiveShipment
      (filter (fun s => Shipment.arrivalWeek s =? week st) (userShipments st))
      (ofCowos (inventory st), ofHbm (inventory st)) in
  let totalOwed :=
    nth (Z.to_nat (week st - 1)) DEMAND_CURVE 0 + blackwellBacklog st in
  let fulfilledNow :=
    Z.min totalOwed (Z.min (fst received) (snd received)) in
  inventory (resolveWeek st dc dh)
  = mkBoth (fst received - fulfilledNow) (snd received - fulfilledNow)
  /\ blackwellBacklog (resolveWeek st dc dh) = totalOwed - fulfilledNow.
Proof.
  intros Hw. cbv zeta. unfold resolveWeek.
  replace (week st >? MAX_WEEKS) with false
    by (symmetry; rewrite Z.gtb_ltb; apply Z.ltb_ge; lia).
  destruct (fold_left receiveShipment _ _) as [rc rh].
  unfold processSupplier. cbn [inventory blackwellBacklog fst snd].
  split; reflexivity.
Qed.

Lemma receiveShipment_nonneg (l : list Shipment.t) : forall acc,
  Forall (fun s => 0 <= Shipment.amount s) l ->
  0 <= fst acc -> 0 <= snd acc ->
  0 <= fst (fold_left receiveShipment l acc)
  /\ 0 <= snd (fold_left receiveShipment l acc).
Proof.
  induction l as [|s l IH]; intros [c h] Hl Hc Hh; cbn [fold_left].
  - auto.
  - inversion Hl as [|? ? Hs Hl']; subst. apply IH; auto;
      unfold receiveShipment; destruct (Shipment.type s); cbn [fst snd] in *; lia.
Qed.

(** *** Exactness of the production queue *)

Lemma pending_at_start k : Queue k started [].
Proof.
  split; [now destruct k | split; [constructor|]].
  intros _. repeat split; reflexivity.
Qed.

Lemma pending_queue_exact apiKey k turns :
  (length turns <= horizon)%nat -> Forall validTurn turns ->
  let rel := Ledger.releasedTrace (playTurn apiKey) (released k) started turns in
  let sch :=
    Ledger.scheduledTrace (playTurn apiKey) (scheduled apiKey k) started turns in
  rel = firstn (length turns) (Ledger.delayed sch)
  /\ Ledger.total rel + Ledger.total (skipn (length turns - 2) sch)
     = Ledger.total sch.
Proof.
  intros Hlen Hv. cbv zeta.
  apply (@Ledger.releasedTrace_total State Turn (playTurn apiKey) (released k)
           (scheduled apiKey k) horizon validTurn (Queue k)
           (@pending_released k) (@pending_step apiKey k));
    [apply pending_at_start | exact Hlen | exact Hv].
Qed.

Lemma arrivingTotal_none sup wk :
  (forall p, In p (Supplier.incomingProduction sup) ->
             Production.arrivalWeek p <> wk) ->
  arrivingTotal sup wk = 0.
Proof.
  intros H. unfold arrivingTotal. rewrite Js.filter_none; [reflexivity|].
  intros p Hp. apply Z.eqb_neq. now apply H.
Qed.

Lemma arrivingTotal_other sup sup' q1 p q2 wk :
  Supplier.incomingProduction sup = q1 ++ p :: q2 ->
  Supplier.incomingProduction sup' = q1 ++ q2 ->
  Production.arrivalWeek p <> wk ->
  arrivingTotal sup wk = arrivingTotal sup' wk.
Proof.
  intros E E' Hp. unfold arrivingTotal. rewrite E, E', !filter_app.
  cbn [filter]. unfold dueNow at 2. apply Z.eqb_neq in Hp. now rewrite Hp.
Qed.

End Blackwell.

(** * The claims *)

(** A reachable [PLAY] state of the Beer Game: week 1, the retailer to
    move. *)
Definition beerFirstTurn : Beer.State :=
  Beer.setGameState Beer.PLAY
    (Beer.handleStartGame (Beer.handleStartSetup Beer.initial)).

Lemma beerFirstTurn_reachable : Beer.Reachable beerFirstTurn.
Proof.
  apply (@Beer.run_reachable [Beer.EStartSetup; Beer.EStartGame; Beer.EReady]
           Beer.initial); [apply Beer.reach_initial | reflexivity].
Defined.

(** Two turns of the semiconductor game without a key: the player
    orders 400 CoWoS and no HBM, then nothing. *)
Definition nvidiaCowosOnly : list Nvidia.Turn :=
  [Nvidia.mkTurn (Some 400) (Some 0) (Nvidia.Failed, Nvidia.Failed);
   Nvidia.mkTurn (Some 0) (Some 0) (Nvidia.Failed, Nvidia.Failed)].




(** C2. Non-negativity.  Whenever the prior inventory, the prior
    backlog, the arriving supply and the incoming order are
    non-negative, the inventory and the backlog a transition produces
    are non-negative: for the Beer Game turn, for the distribution
    centre and the suppliers of the fast-food game, and for the
    suppliers and the assembling player of both semiconductor games. *)
Theorem C2_non_negativity :
  (forall st orderAmount role prev ship dem,
      Beer.Reachable st -> Beer.gameState st = Beer.PLAY ->
      nth_error Beer.ROLES (Beer.turnIndex st) = Some role ->
      Beer.getHistoryEntry (Beer.history st) (Beer.currentWeek st - 1) role
      = Some prev ->
      Beer.getIncomingShipment (Beer.history st) (Beer.turnIndex st)
        (Beer.currentWeek st) = Some ship ->
      Beer.getIncomingDemand (Beer.history st) (Beer.turnIndex st)
        (Beer.currentWeek st) = Some dem ->
      0 <= Beer.inventory prev -> 0 <= Beer.backlog prev ->
      0 <= ship -> 0 <= dem ->
      exists st' e,
        Beer.processTurn st orderAmount = Some st'
        /\ Beer.history st' = Beer.history st ++ [e]
        /\ 0 <= Beer.inventory e /\ 0 <= Beer.backlog e)
  /\ (forall st a t r item,
         0 <= Mcd.get (Mcd.inventory st) item ->
         (forall s, In s (Mcd.shipments st) ->
                    0 <= Mcd.get (Mcd.quantities s) item) ->
         0 <= Mcd.get (Mcd.currentDemand st) item ->
         0 <= Mcd.get (Mcd.backlog st) item ->
         0 <= Mcd.get (Mcd.inventory (Mcd.resolveWeek st a t r)) item
         /\ 0 <= Mcd.get (Mcd.backlog (Mcd.resolveWeek st a t r)) item)
  /\ (forall wk state productionAmount playerOrderAmount,
         0 <= Mcd.Supplier.inventory state ->
         0 <= Mcd.arrivingAmount wk state ->
         0 <= playerOrderAmount ->
         0 <= Mcd.Supplier.backlog state ->
         let result :=
           Mcd.processSupplier wk state productionAmount playerOrderAmount in
         0 <= Mcd.Supplier.inventory (fst result)
         /\ 0 <= Mcd.Supplier.backlog (fst result))
  /\ (forall st k playerOrder aiDecision,
         let sup := Nvidia.get (Nvidia.suppliers st) k in
         Js.nonneg (Nvidia.Supplier.inventory sup) ->
         Js.nonneg (Nvidia.arrivingRaw sup (Nvidia.week st)) ->
         0 <= playerOrder ->
         Js.nonneg (Nvidia.Supplier.backlog sup) ->
         let sup' := Nvidia.updateSupplier st k playerOrder aiDecision in
         Js.nonneg (Nvidia.Supplier.inventory sup')
         /\ Js.nonneg (Nvidia.Supplier.backlog sup'))
  /\ (forall st c h dc dh,
         let p := Nvidia.player st in
         Js.nonneg (Nvidia.ofCowos (Nvidia.Player.inventory p)) ->
         Js.nonneg (Nvidia.ofHbm (Nvidia.Player.inventory p)) ->
         Js.nonneg (Nvidia.arriving p Nvidia.cowos (Nvidia.week st)) ->
         Js.nonneg (Nvidia.arriving p Nvidia.hbm (Nvidia.week st)) ->
         Js.nonneg (Nvidia.Player.backlog p) ->
         let p' := Nvidia.player (Nvidia.finalizeTurn st c h dc dh) in
         Js.nonneg (Nvidia.ofCowos (Nvidia.Player.inventory p'))
         /\ Js.nonneg (Nvidia.ofHbm (Nvidia.Player.inventory p'))
         /\ Js.nonneg (Nvidia.Player.backlog p'))
  /\ (forall wk ships type userOrder aiDecision cur,
         0 <= Blackwell.Supplier.inventory cur ->
         0 <= Blackwell.arrivingTotal cur wk ->
         0 <= userOrder ->
         0 <= Blackwell.Supplier.backlog cur ->
         let result :=
           Blackwell.processSupplier wk ships type userOrder aiDecision cur in
         0 <= Blackwell.Supplier.inventory (fst (fst result))
         /\ 0 <= Blackwell.Supplier.backlog (fst (fst result)))
  /\ (forall st dc dh,
         Blackwell.week st <= Blackwell.MAX_WEEKS ->
         0 <= Blackwell.ofCowos (Blackwell.inventory st) ->
         0 <= Blackwell.ofHbm (Blackwell.inventory st) ->
         Forall (fun s => 0 <= Blackwell.Shipment.amount s)
                (Blackwell.userShipments st) ->
         0 <= Blackwell.blackwellBacklog st ->
         let st' := Blackwell.resolveWeek st dc dh in
         0 <= Blackwell.ofCowos (Blackwell.inventory st')
         /\ 0 <= Blackwell.ofHbm (Blackwell.inventory st')
         /\ 0 <= Blackwell.blackwellBacklog st').
Proof.
  split; [|split; [|split; [|split; [|split; [|split]]]]].
  - intros st orderAmount role prev ship dem Hr Hg E1 E2 E3 E4 Hi Hb Hs Hd.
    destruct (Beer.processTurn_settles orderAmount Hr Hg)
      as (role' & prev' & ship' & dem' & F1 & F2 & F3 & F4 & F5).
    assert (role' = role) by congruence. subst role'.
    assert (prev' = prev) by congruence. subst prev'.
    assert (ship' = ship) by congruence. subst ship'.
    assert (dem' = dem) by congruence. subst dem'.
    eexists. eexists. split; [exact F5|].
    split; [apply Beer.history_committed|].
    unfold Beer.settled. cbn [Beer.inventory Beer.backlog]. lia.
  - intros st a t r item Hi Hs Hd Hb.
    pose proof (Mcd.resolveWeek_fulfills st a t r) as F. cbv zeta in F.
    rewrite Mcd.resolveWeek_shipments, Mcd.find_arriving_shipment in F.
    match type of F with
    | _ = Mcd.fulfill ?rec ?needs =>
        pose proof (Mcd.fulfill_item rec needs item) as G;
        assert (Hrec : 0 <= Mcd.get rec item);
        [|assert (Hneeds : 0 <= Mcd.get needs item)]
    end.
    + destruct (find _ (Mcd.shipments st)) as [s|] eqn:E; [|exact Hi].
      apply find_some in E. destruct E as [Hin _].
      specialize (Hs s Hin).
      destruct item; cbn [Mcd.get Mcd.buns Mcd.beef Mcd.fish] in *; lia.
    + destruct item; cbn [Mcd.get Mcd.buns Mcd.beef Mcd.fish] in *; lia.
    + rewrite <- F in G. cbn [fst snd] in G.
      pose proof (Mcd.settleItem_nonneg Hrec Hneeds) as [N1 N2].
      rewrite <- G in N1, N2. cbn [fst snd] in N1, N2. auto.
  - intros wk state productionAmount playerOrderAmount Hi Ha Ho Hb. cbv zeta.
    destruct (Mcd.processSupplier_conserves wk state productionAmount
                playerOrderAmount) as (H1 & H2 & H3 & _).
    lia.
  - intros st k playerOrder aiDecision. cbv zeta. intros Hi Ha Ho Hb.
    destruct (Nvidia.updateSupplier_settles st k playerOrder aiDecision)
      as (H1 & H2 & H3 & _).
    rewrite H2, H3. unfold Nvidia.shippedOf. rewrite H1.
    destruct (@Js.nonneg_Int _ Hi) as (i & -> & Hi').
    destruct (@Js.nonneg_Int _ Ha) as (a & -> & Ha').
    destruct (@Js.nonneg_Int _ Hb) as (b & -> & Hb').
    cbn [Js.add Js.sub Js.min Js.lift Js.nonneg]. lia.
  - intros st c h dc dh. cbv zeta. intros Hc Hh Hac Hah Hb.
    destruct (Nvidia.finalizeTurn_player st c h dc dh) as [H1 H2].
    rewrite H1, H2. cbn [Nvidia.ofCowos Nvidia.ofHbm].
    assert (0 <= nth (Z.to_nat (Nvidia.week st - 1)) Nvidia.DEMAND_SCHEDULE 0).
    { apply Js.nth_nonneg. unfold Nvidia.DEMAND_SCHEDULE.
      repeat constructor; lia. }
    destruct (@Js.nonneg_Int _ Hc) as (ic & -> & Hc').
    destruct (@Js.nonneg_Int _ Hh) as (ih & -> & Hh').
    destruct (@Js.nonneg_Int _ Hac) as (ac & -> & Hac').
    destruct (@Js.nonneg_Int _ Hah) as (ah & -> & Hah').
    destruct (@Js.nonneg_Int _ Hb) as (b & -> & Hb').
    cbn [Js.add Js.sub Js.min Js.lift Js.nonneg]. lia.
  - intros wk ships type userOrder aiDecision cur Hi Ha Ho Hb. cbv zeta.
    destruct (Blackwell.processSupplier_settles wk ships type userOrder
                aiDecision cur) as (H1 & H2 & H3 & _).
    lia.
  - intros st dc dh Hw Hc Hh Hs Hb. cbv zeta.
    destruct (@Blackwell.resolveWeek_assembles st dc dh Hw) as [H1 H2].
    rewrite H1, H2. cbn [Blackwell.ofCowos Blackwell.ofHbm].
    assert (0 <= nth (Z.to_nat (Blackwell.week st - 1)) Blackwell.DEMAND_CURVE 0).
    { apply Js.nth_nonneg. unfold Blackwell.DEMAND_CURVE.
      repeat constructor; lia. }
    match goal with
    | |- context [fold_left Blackwell.receiveShipment ?l ?acc] =>
        destruct (@Blackwell.receiveShipment_nonneg l acc) as [R1 R2];
        [ apply Forall_forall; intros s Hin; apply filter_In in Hin;
          destruct Hin as [Hin _];
          exact (proj1 (Forall_forall _ _) Hs s Hin)
        | exact Hc | exact Hh | ]
    end.
    lia.
Qed.

Lemma C2_witness :
  exists st' e,
    Beer.processTurn beerFirstTurn 4 = Some st'
    /\ Beer.history st' = Beer.history beerFirstTurn ++ [e]
    /\ 0 <= Beer.inventory e /\ 0 <= Beer.backlog e.
Proof.
  apply (proj1 C2_non_negativity beerFirstTurn 4 Beer.retailer
           (Beer.mkEntry 0 Beer.retailer 12 0 4 4 6) 4 4).
  - exact beerFirstTurn_reachable.
  - reflexivity.
  - reflexivity.
  - reflexivity.
  - reflexivity.
  - reflexivity.
  - simpl; lia.
  - simpl; lia.
  - lia.
  - lia.
Defined.

(** Twenty turns of the semiconductor game in which the player orders
    five units of each component and no API key is set, so that each
    supplier orders what it is asked for. *)
Definition nvidiaTurn5 : Nvidia.Turn :=
  Nvidia.mkTurn (Some 5) (Some 5) (Nvidia.Failed, Nvidia.Failed).

Definition nvidiaGame5 : list Nvidia.Turn := repeat nvidiaTurn5 20.

Lemma nvidiaGame5_valid : Forall Nvidia.validTurn nvidiaGame5.
Proof. apply Forall_forall. intros t Ht. apply repeat_spec in Ht. now subst t. Defined.

(** C3, as stated, fails: over the complete run [nvidiaGame5] the
    CoWoS supplier schedules 100 units into its raw-material queue and
    releases 90; the two entries of weeks 19 and 20 are due after the
    last week. *)
Lemma C3_counterexample :
  let rel :=
    NumLedger.releasedTrace (Nvidia.playTurn EmptyString)
      (Nvidia.released Nvidia.cowos) Nvidia.started nvidiaGame5 in
  let sch :=
    NumLedger.scheduledTrace (Nvidia.playTurn EmptyString)
      (Nvidia.scheduled EmptyString Nvidia.cowos) Nvidia.started nvidiaGame5 in
  NumLedger.total rel = Js.Int 90 /\ NumLedger.total sch = Js.Int 100
  /\ NumLedger.total rel <> NumLedger.total sch.
Proof. vm_compute. repeat split; discriminate. Qed.

(** C3, amended.  For the production queue of every supplier of the
    three supplier games and every run of at most the full number of
    turns: the amount released in a week is the amount scheduled two
    turns earlier (nothing in the first two weeks), so an entry
    scheduled for week [p] is released in week [p] and in no other;
    the total released plus the amounts scheduled in the last two
    turns, which are still queued when the run ends, equals the total
    scheduled; collecting in a week with no due entry gives 0; and an
    entry due in another week does not change what a week collects. *)
Theorem C3_pipeline_exactness_within_horizon :
  (forall apiKey k turns,
      (length turns <= Nvidia.horizon)%nat -> Forall Nvidia.validTurn turns ->
      let rel :=
        NumLedger.releasedTrace (Nvidia.playTurn apiKey) (Nvidia.released k)
                                Nvidia.started turns in
      let sch :=
        NumLedger.scheduledTrace (Nvidia.playTurn apiKey)
                                 (Nvidia.scheduled apiKey k)
                                 Nvidia.started turns in
      rel = firstn (length turns) (NumLedger.delayed sch)
      /\ Js.add (NumLedger.total rel)
                (NumLedger.total (skipn (length turns - 2) sch))
         = NumLedger.total sch)
  /\ (forall apiKey k turns,
         (length turns <= Blackwell.horizon)%nat ->
         Forall Blackwell.validTurn turns ->
         let rel :=
           Ledger.releasedTrace (Blackwell.playTurn apiKey)
                                (Blackwell.released k) Blackwell.started turns in
         let sch :=
           Ledger.scheduledTrace (Blackwell.playTurn apiKey)
                                 (Blackwell.scheduled apiKey k)
                                 Blackwell.started turns in
         rel = firstn (length turns) (Ledger.delayed sch)
         /\ Ledger.total rel + Ledger.total (skipn (length turns - 2) sch)
            = Ledger.total sch)
  /\ (forall who turns,
         (length turns <= Mcd.horizon)%nat ->
         let rel :=
           Ledger.releasedTrace Mcd.playTurn (Mcd.released who)
                                Mcd.initial turns in
         let sch :=
           Ledger.scheduledTrace Mcd.playTurn (Mcd.scheduled who)
                                 Mcd.initial turns in
         rel = firstn (length turns) (Ledger.delayed sch)
         /\ Ledger.total rel + Ledger.total (skipn (length turns - 2) sch)
            = Ledger.total sch)
  /\ (forall sup wk,
         (forall p, In p (Nvidia.Supplier.pipeline sup) ->
                    Nvidia.arrivalWeek p <> wk) ->
         Nvidia.arrivingRaw sup wk = Js.Int 0)
  /\ (forall sup wk,
         (forall p, In p (Blackwell.Supplier.incomingProduction sup) ->
                    Blackwell.Production.arrivalWeek p <> wk) ->
         Blackwell.arrivingTotal sup wk = 0)
  /\ (forall wk state,
         (forall p, In p (Mcd.Supplier.productionQueue state) ->
                    Mcd.weekArrives p <> wk + 1) ->
         Mcd.arrivingAmount wk state = 0)
  /\ (forall sup sup' q1 p q2 wk,
         Nvidia.Supplier.pipeline sup = q1 ++ p :: q2 ->
         Nvidia.Supplier.pipeline sup' = q1 ++ q2 ->
         Nvidia.arrivalWeek p <> wk ->
         Nvidia.arrivingRaw sup wk = Nvidia.arrivingRaw sup' wk)
  /\ (forall sup sup' q1 p q2 wk,
         Blackwell.Supplier.incomingProduction sup = q1 ++ p :: q2 ->
         Blackwell.Supplier.incomingProduction sup' = q1 ++ q2 ->
         Blackwell.Production.arrivalWeek p <> wk ->
         Blackwell.arrivingTotal sup wk = Blackwell.arrivingTotal sup' wk)
  /\ (forall wk state state' q1 p q2,
         Mcd.Supplier.productionQueue state = q1 ++ p :: q2 ->
         Mcd.Supplier.productionQueue state' = q1 ++ q2 ->
         Mcd.weekArrives p <> wk + 1 ->
         Mcd.arrivingAmount wk state = Mcd.arrivingAmount wk state').
Proof.
  split; [exact Nvidia.raw_queue_exact|].
  split; [exact Blackwell.pending_queue_exact|].
  split; [exact Mcd.production_queue_exact|].
  split; [exact Nvidia.arrivingRaw_none|].
  split; [exact Blackwell.arrivingTotal_none|].
  split; [exact Mcd.arrivingAmount_none|].
  split; [exact Nvidia.arrivingRaw_other|].
  split; [exact Blackwell.arrivingTotal_other | exact Mcd.arrivingAmount_other].
Qed.

Lemma C3_witness :
  let rel :=
    NumLedger.releasedTrace (Nvidia.playTurn EmptyString)
      (Nvidia.released Nvidia.cowos) Nvidia.started nvidiaGame5 in
  let sch :=
    NumLedger.scheduledTrace (Nvidia.playTurn EmptyString)
      (Nvidia.scheduled EmptyString Nvidia.cowos) Nvidia.started nvidiaGame5 in
  rel = firstn (length nvidiaGame5) (NumLedger.delayed sch)
  /\ Js.add (NumLedger.total rel)
            (NumLedger.total (skipn (length nvidiaGame5 - 2) sch))
     = NumLedger.total sch.
Proof.
  apply (proj1 C3_pipeline_exactness_within_horizon EmptyString Nvidia.cowos
           nvidiaGame5).
  - vm_compute. repeat constructor.
  - exact nvidiaGame5_valid.
Defined.

(** Five turns of the semiconductor game with a key set: the player
    orders nothing, and the first reply for CoWoS carries no order. *)
Definition nvidiaNoOrder : list Nvidia.Turn :=
  Nvidia.mkTurn (Some 0) (Some 0)
    (Nvidia.Replied Js.NaN "hold", Nvidia.Replied (Js.Int 0) "hold")
  :: repeat (Nvidia.mkTurn (Some 0) (Some 0)
               (Nvidia.Replied (Js.Int 0) "hold",
                Nvidia.Replied (Js.Int 0) "hold")) 4.

(** C4.  The claim holds on the clamped paths and fails on their
    siblings.  In the semiconductor game a reply of the remote agent
    that carries an integer order is clamped to
    [0, COMPONENT_CAPACITY_PER_WEEK]; a reply without an order gives
    [NaN], and the fallback taken when the remote call fails is not
    clamped: with a backlog of 1600 and an incoming order of 2000 it
    orders 2800.  That state is reached in the second week of a game.
    The [NaN] order is queued: in the game [nvidiaNoOrder] the stock of
    the CoWoS supplier is [NaN] after week 3 and the player's cash
    after week 5.  In the earlier component the fallback taken when
    the call fails is clamped to [0, ORDER_CAP_PER_COMPONENT], the
    reply is returned as it comes, and the fallback without a key is
    bounded below only. *)
Theorem C4_unclamped_decisions :
  (forall backlog incomingDemand o r,
      exists v,
        Nvidia.order (Nvidia.getAITurn "key" backlog incomingDemand
                        (Nvidia.Replied (Js.Int o) r)) = Js.Int v
        /\ 0 <= v <= Nvidia.COMPONENT_CAPACITY_PER_WEEK)
  /\ (forall backlog incomingDemand r,
         Nvidia.order (Nvidia.getAITurn "key" backlog incomingDemand
                         (Nvidia.Replied Js.NaN r)) = Js.NaN)
  /\ Nvidia.order (Nvidia.getAITurn "key" (Js.Int 1600) 2000 Nvidia.Failed)
     = Js.Int 2800
  /\ Nvidia.COMPONENT_CAPACITY_PER_WEEK < 2800
  /\ (let turns :=
        [Nvidia.mkTurn (Some 2000) (Some 0)
           (Nvidia.Replied (Js.Int 0) "hold", Nvidia.Replied (Js.Int 0) "hold");
         Nvidia.mkTurn (Some 2000) (Some 0)
           (Nvidia.Failed, Nvidia.Replied (Js.Int 0) "hold")] in
      Nvidia.Supplier.lastOrder
        (Nvidia.ofCowos (Nvidia.suppliers
           (Nvidia.play "key" Nvidia.started turns))) = Js.Int 2800)
  /\ (Forall Nvidia.validTurn nvidiaNoOrder
      /\ Nvidia.Supplier.inventory
           (Nvidia.ofCowos (Nvidia.suppliers
              (Nvidia.play "key" Nvidia.started (firstn 3 nvidiaNoOrder))))
         = Js.NaN
      /\ Nvidia.Player.cash
           (Nvidia.player (Nvidia.play "key" Nvidia.started nvidiaNoOrder))
         = Js.NaN)
  /\ (forall sup incomingDemand,
         0 <= Blackwell.order (Blackwell.getAITurn "key" sup incomingDemand
                                 Blackwell.Failed)
           <= Blackwell.ORDER_CAP_PER_COMPONENT)
  /\ Blackwell.order
       (Blackwell.getAITurn "key" (Blackwell.Supplier.mk 200 0 []) 100
          (Blackwell.Replied (-5) "cut")) = -5
  /\ Blackwell.order
       (Blackwell.getAITurn "key" (Blackwell.Supplier.mk 200 0 []) 100
          (Blackwell.Replied 9999 "hoard")) = 9999
  /\ (Blackwell.order
        (Blackwell.getAITurn EmptyString (Blackwell.Supplier.mk 0 600 []) 100
           Blackwell.Failed) = 700
      /\ Blackwell.ORDER_CAP_PER_COMPONENT < 700).
Proof.
  split; [|split; [|split; [|split; [|split; [|split; [|split; [|split;
    [|split]]]]]]]].
  - intros backlog incomingDemand o r.
    unfold Nvidia.getAITurn, Nvidia.COMPONENT_CAPACITY_PER_WEEK.
    cbn [Nvidia.isEmpty Nvidia.order Js.min Js.max Js.lift].
    eexists. split; [reflexivity | lia].
  - reflexivity.
  - vm_compute. reflexivity.
  - reflexivity.
  - vm_compute. reflexivity.
  - split; [|split; vm_compute; reflexivity].
    repeat constructor.
  - intros sup incomingDemand.
    unfold Blackwell.getAITurn, Blackwell.ORDER_CAP_PER_COMPONENT.
    cbn [Blackwell.isEmpty Blackwell.order]. lia.
  - reflexivity.
  - reflexivity.
  - split; reflexivity.
Qed.

(** C5.  In the Beer Game the order a human types is checked
    ([submitTurn] returns on a negative amount), but the order of the
    remote agent goes to [processTurn] as it comes: with the retailer
    played by the agent and the reply [-3], the history records an
    order of [-3] in week 1, and in week 2 the wholesaler receives an
    incoming demand of [-3]. *)
Theorem C5_agent_order_unchecked :
  (forall st, Beer.submitTurn st (Some (-3)) = Some st)
  /\ (let evs :=
        [Beer.EStartSetup; Beer.ESetPlayerType Beer.retailer Beer.AI;
         Beer.EStartGame; Beer.EReady;
         Beer.EAgent (Beer.Replied (-3) "Destock.")] in
      option_map (fun st => map Beer.orderPlaced (Beer.history st))
                 (Beer.run Beer.initial evs)
      = Some [4; 4; 4; 4; 4; 4; 4; 4; -3])
  /\ (let evs :=
        [Beer.EStartSetup; Beer.ESetPlayerType Beer.retailer Beer.AI;
         Beer.EStartGame; Beer.EReady;
         Beer.EAgent (Beer.Replied (-3) "Destock.");
         Beer.EReady; Beer.ESubmit (Some 4);
         Beer.EReady; Beer.ESubmit (Some 4);
         Beer.EReady; Beer.ESubmit (Some 4);
         Beer.ENextWeek;
         Beer.EReady; Beer.EAgent (Beer.Replied 4 "Steady.");
         Beer.EReady] in
      option_map (fun st =>
                    (Beer.gameState st, Beer.currentWeek st, Beer.turnIndex st,
                     Beer.getIncomingDemand (Beer.history st)
                       (Beer.turnIndex st) (Beer.currentWeek st)))
                 (Beer.run Beer.initial evs)
      = Some (Beer.PLAY, 2, 1%nat, Some (-3))).
Proof.
  split; [|split].
  - intros st. reflexivity.
  - vm_compute. reflexivity.
  - vm_compute. reflexivity.
Qed.





(** The semiconductor game at its first turn, and the same state with
    only 100 HBM units in the player's stock. *)
Definition nvidiaLowHbm : Nvidia.State :=
  Nvidia.mkState 1 Nvidia.PLAY
    (Nvidia.Player.mk (Nvidia.mkBoth (Js.Int 400) (Js.Int 100))
                      (Js.Int 0) (Js.Int 0) [])
    (Nvidia.suppliers Nvidia.started) (Nvidia.orders Nvidia.started)
    (Nvidia.errors Nvidia.started) [].

(** The turns of [nvidiaCowosOnly] with 400 HBM ordered as well in the
    first one. *)
Definition nvidiaBothKinds : list Nvidia.Turn :=
  [Nvidia.mkTurn (Some 400) (Some 400) (Nvidia.Failed, Nvidia.Failed);
   Nvidia.mkTurn (Some 0) (Some 0) (Nvidia.Failed, Nvidia.Failed)].

(** C7, as stated, fails for the assembling player: the two states
    agree on everything that concerns CoWoS (stock 400, nothing
    arriving, backlog 0, demand 200), and the CoWoS stock after the
    week is 200 in one and 300 in the other.  The same happens between
    two states reached by playing: after [nvidiaCowosOnly] and after
    [nvidiaBothKinds] week 3 opens with the same CoWoS stock, arrival
    and backlog, and closes with a CoWoS stock of 400 in one and 50 in
    the other. *)
Lemma C7_counterexample :
  let d := Nvidia.mkDecision (Js.Int 0) EmptyString in
  let after st := Nvidia.player (Nvidia.finalizeTurn st 0 0 d d) in
  let one := Nvidia.play EmptyString Nvidia.started nvidiaCowosOnly in
  let two := Nvidia.play EmptyString Nvidia.started nvidiaBothKinds in
  let next st :=
    Nvidia.player
      (Nvidia.playTurn EmptyString st
         (Nvidia.mkTurn (Some 0) (Some 0) (Nvidia.Failed, Nvidia.Failed))) in
  (Nvidia.ofCowos (Nvidia.Player.inventory (Nvidia.player Nvidia.started))
   = Nvidia.ofCowos (Nvidia.Player.inventory (Nvidia.player nvidiaLowHbm))
   /\ Nvidia.arriving (Nvidia.player Nvidia.started) Nvidia.cowos 1
      = Nvidia.arriving (Nvidia.player nvidiaLowHbm) Nvidia.cowos 1
   /\ Nvidia.Player.backlog (Nvidia.player Nvidia.started)
      = Nvidia.Player.backlog (Nvidia.player nvidiaLowHbm)
   /\ Nvidia.week Nvidia.started = Nvidia.week nvidiaLowHbm
   /\ Nvidia.ofCowos (Nvidia.Player.inventory (after Nvidia.started))
      = Js.Int 200
   /\ Nvidia.ofCowos (Nvidia.Player.inventory (after nvidiaLowHbm))
      = Js.Int 300)
  /\ (Nvidia.week one = 3 /\ Nvidia.week two = 3
      /\ Nvidia.ofCowos (Nvidia.Player.inventory (Nvidia.player one))
         = Nvidia.ofCowos (Nvidia.Player.inventory (Nvidia.player two))
      /\ Nvidia.arriving (Nvidia.player one) Nvidia.cowos 3 = Js.Int 400
      /\ Nvidia.arriving (Nvidia.player two) Nvidia.cowos 3 = Js.Int 400
      /\ Nvidia.Player.backlog (Nvidia.player one)
         = Nvidia.Player.backlog (Nvidia.player two)
      /\ Nvidia.ofCowos (Nvidia.Player.inventory (next one)) = Js.Int 400
      /\ Nvidia.ofCowos (Nvidia.Player.inventory (next two)) = Js.Int 50).
Proof. vm_compute. repeat split; reflexivity. Qed.

(** C7, amended.  At the distribution centre of the fast-food game
    each ingredient is settled on its own: its stock and backlog after
    the week are a function of its own prior stock, arriving quantity,
    demand and prior backlog.  At the assembling player of the
    semiconductor games the two components are settled together: one
    quantity, [min (min available_cowos available_hbm) total_owed], is
    taken from both stocks and from the single backlog. *)
Theorem C7_per_kind_settlement :
  (forall st a t r item,
      (Mcd.get (Mcd.inventory (Mcd.resolveWeek st a t r)) item,
       Mcd.get (Mcd.backlog (Mcd.resolveWeek st a t r)) item)
      = Mcd.settleItem
          (Mcd.get (Mcd.inventory st) item + Mcd.arrivingQuantity st item)
          (Mcd.get (Mcd.currentDemand st) item + Mcd.get (Mcd.backlog st) item))
  /\ (forall st c h dc dh,
         let p := Nvidia.player st in
         let availableCowos :=
           Js.add (Nvidia.ofCowos (Nvidia.Player.inventory p))
                  (Nvidia.arriving p Nvidia.cowos (Nvidia.week st)) in
         let availableHbm :=
           Js.add (Nvidia.ofHbm (Nvidia.Player.inventory p))
                  (Nvidia.arriving p Nvidia.hbm (Nvidia.week st)) in
         let totalOwed :=
           Js.add (Js.Int (nth (Z.to_nat (Nvidia.week st - 1))
                               Nvidia.DEMAND_SCHEDULE 0))
                  (Nvidia.Player.backlog p) in
         let fulfilledNow :=
           Js.min (Js.min availableCowos availableHbm) totalOwed in
         let p' := Nvidia.player (Nvidia.finalizeTurn st c h dc dh) in
         Nvidia.Player.inventory p'
         = Nvidia.mkBoth (Js.sub availableCowos fulfilledNow)
                         (Js.sub availableHbm fulfilledNow)
         /\ Nvidia.Player.backlog p' = Js.sub totalOwed fulfilledNow)
  /\ (forall st dc dh,
         Blackwell.week st <= Blackwell.MAX_WEEKS ->
         let received :=
           fold_left Blackwell.receiveShipment
             (filter (fun s => Blackwell.Shipment.arrivalWeek s
                               =? Blackwell.week st)
                     (Blackwell.userShipments st))
             (Blackwell.ofCowos (Blackwell.inventory st),
              Blackwell.ofHbm (Blackwell.inventory st)) in
         let totalOwed :=
           nth (Z.to_nat (Blackwell.week st - 1)) Blackwell.DEMAND_CURVE 0
           + Blackwell.blackwellBacklog st in
         let fulfilledNow :=
           Z.min totalOwed (Z.min (fst received) (snd received)) in
         Blackwell.inventory (Blackwell.resolveWeek st dc dh)
         = Blackwell.mkBoth (fst received - fulfilledNow)
                            (snd received - fulfilledNow)
         /\ Blackwell.blackwellBacklog (Blackwell.resolveWeek st dc dh)
            = totalOwed - fulfilledNow).
Proof.
  split; [exact Mcd.resolveWeek_item|].
  split; [exact Nvidia.finalizeTurn_player|].
  exact Blackwell.resolveWeek_assembles.
Qed.

Lemma C7_witness :
  let d := Blackwell.mkDecision 0 EmptyString in
  Blackwell.inventory (Blackwell.resolveWeek Blackwell.started d d)
  = Blackwell.mkBoth 50 50
  /\ Blackwell.blackwellBacklog (Blackwell.resolveWeek Blackwell.started d d)
     = 0.
Proof.
  apply (proj2 (proj2 C7_per_kind_settlement) Blackwell.started).
  vm_compute. discriminate.
Defined.

(** The fast-food game with 50 units of meat at Tyson and an order of
    60 beef and 20 fish. *)
Definition mcdShortfall : Mcd.State :=
  Mcd.setPlayerOrder
    (Mcd.setPlayerOrder
       (Mcd.mkState 1 false Mcd.PLAYER Mcd.API_KEY
          (Mcd.inventory Mcd.initial) (Mcd.backlog Mcd.initial) 0
          (Mcd.aryztaState Mcd.initial)
          (Mcd.generateSupplierState "Tyson (Protein)" 50)
          (Mcd.history Mcd.initial) (Mcd.storeOrders Mcd.initial)
          (Mcd.currentDemand Mcd.initial) [] (Mcd.mkItems 0 0 0))
       Mcd.Beef 60)
    Mcd.Fish 20.

(** C8.  Proportional shortfall.  When Tyson has 50 units available,
    no backlog, and the player orders 60 beef and 20 fish, the
    shipment the week creates carries [floor (60 * 50/80) = 37] beef
    and [floor (20 * 50/80) = 12] fish. *)
Theorem C8_proportional_shortfall st a t r :
  Mcd.Supplier.inventory (Mcd.tysonState st)
  + Mcd.arrivingAmount (Mcd.week st) (Mcd.tysonState st) = 50 ->
  Mcd.Supplier.backlog (Mcd.tysonState st) = 0 ->
  Mcd.beef (Mcd.playerOrder st) = 60 ->
  Mcd.fish (Mcd.playerOrder st) = 20 ->
  Js.floor (60 * (50 / 80))%Q = 37
  /\ Js.floor (20 * (50 / 80))%Q = 12
  /\ exists shippedBuns,
      Mcd.shipments (Mcd.resolveWeek st a t r)
      = Mcd.shipments st
        ++ [Mcd.mkShipment (Mcd.week st + 1 + Mcd.LEAD_TIME)
                           (Mcd.mkItems shippedBuns 37 12)].
Proof.
  intros Hav Hbk Hbeef Hfish.
  split; [reflexivity|]. split; [reflexivity|].
  eexists. rewrite Mcd.resolveWeek_shipments.
  destruct (Mcd.processSupplier_conserves (Mcd.week st) (Mcd.tysonState st) t
              (Mcd.beef (Mcd.playerOrder st) + Mcd.fish (Mcd.playerOrder st)))
    as (Hs & _).
  rewrite Hs, Hav, Hbk, Hbeef, Hfish.
  change (Z.min 50 (60 + 20 + 0)) with 50.
  unfold Mcd.tysonSplit, Mcd.serviceLevel.
  rewrite Hbk, Hbeef, Hfish. vm_compute. reflexivity.
Qed.

Lemma C8_witness :
  Js.floor (60 * (50 / 80))%Q = 37
  /\ Js.floor (20 * (50 / 80))%Q = 12
  /\ exists shippedBuns,
      Mcd.shipments (Mcd.resolveWeek mcdShortfall 0 0 0)
      = Mcd.shipments mcdShortfall
        ++ [Mcd.mkShipment (Mcd.week mcdShortfall + 1 + Mcd.LEAD_TIME)
                           (Mcd.mkItems shippedBuns 37 12)].
Proof.
  apply (@C8_proportional_shortfall mcdShortfall 0 0 0); reflexivity.
Defined.



(** Tyson holds 110 units and the player orders 150 beef and 150
    fish. *)
Definition mcdRounding : Mcd.State :=
  Mcd.setPlayerOrder
    (Mcd.setPlayerOrder
       (Mcd.mkState 1 false Mcd.PLAYER Mcd.API_KEY
          (Mcd.inventory Mcd.initial) (Mcd.backlog Mcd.initial) 0
          (Mcd.aryztaState Mcd.initial)
          (Mcd.generateSupplierState "Tyson (Protein)" 110)
          (Mcd.history Mcd.initial) (Mcd.storeOrders Mcd.initial)
          (Mcd.currentDemand Mcd.initial) [] (Mcd.mkItems 0 0 0))
       Mcd.Beef 150)
    Mcd.Fish 150.

(** C10.  The floored split never over-ships and may lose units.  With
    non-negative orders, backlog and stock at Tyson, and fewer than
    [2^52] units deducted by [processSupplier], the beef and fish put
    on the shipment sum to at most the deducted quantity, the service
    level and its two products being rounded to doubles before the
    floor; Tyson's stock and backlog are settled against the whole
    deducted quantity.  In the state [mcdShortfall] 50 units are
    deducted, 37 + 12 = 49 are shipped, Tyson keeps no stock and the
    backlog is 30 = 80 - 50, so one unit is in neither place.  In the
    state [mcdRounding] 110 units are deducted and the rounding of
    110/300 leaves 54 + 54 = 108 on the shipment, although
    [floor (150 * 11/30) = 55]. *)
Theorem C10_floored_split_loses_units :
  (forall st a t r,
      0 <= Mcd.beef (Mcd.playerOrder st) ->
      0 <= Mcd.fish (Mcd.playerOrder st) ->
      0 <= Mcd.Supplier.backlog (Mcd.tysonState st) ->
      0 <= Mcd.Supplier.inventory (Mcd.tysonState st) ->
      0 <= Mcd.arrivingAmount (Mcd.week st) (Mcd.tysonState st) ->
      let owed :=
        Mcd.beef (Mcd.playerOrder st) + Mcd.fish (Mcd.playerOrder st)
        + Mcd.Supplier.backlog (Mcd.tysonState st) in
      let available :=
        Mcd.Supplier.inventory (Mcd.tysonState st)
        + Mcd.arrivingAmount (Mcd.week st) (Mcd.tysonState st) in
      let deducted :=
        snd (Mcd.processSupplier (Mcd.week st) (Mcd.tysonState st) t
               (Mcd.beef (Mcd.playerOrder st) + Mcd.fish (Mcd.playerOrder st))) in
      deducted < 2 ^ 52 ->
      let st' := Mcd.resolveWeek st a t r in
      exists shippedBuns shippedBeef shippedFish,
        Mcd.shipments st'
        = Mcd.shipments st
          ++ [Mcd.mkShipment (Mcd.week st + 1 + Mcd.LEAD_TIME)
                (Mcd.mkItems shippedBuns shippedBeef shippedFish)]
        /\ shippedBeef + shippedFish <= deducted
        /\ Mcd.Supplier.inventory (Mcd.tysonState st') = available - deducted
        /\ Mcd.Supplier.backlog (Mcd.tysonState st') = owed - deducted)
  /\ (let st' := Mcd.resolveWeek mcdShortfall 0 0 0 in
      snd (Mcd.processSupplier (Mcd.week mcdShortfall)
             (Mcd.tysonState mcdShortfall) 0 (60 + 20)) = 50
      /\ map Mcd.quantities (Mcd.shipments st') = [Mcd.mkItems 0 37 12]
      /\ 37 + 12 < 50
      /\ Mcd.Supplier.inventory (Mcd.tysonState st') = 0
      /\ Mcd.Supplier.backlog (Mcd.tysonState st') = 30)
  /\ (let st' := Mcd.resolveWeek mcdRounding 0 0 0 in
      snd (Mcd.processSupplier (Mcd.week mcdRounding)
             (Mcd.tysonState mcdRounding) 0 (150 + 150)) = 110
      /\ map Mcd.quantities (Mcd.shipments st') = [Mcd.mkItems 0 54 54]
      /\ Js.floor (150 * (110 / 300))%Q = 55
      /\ 54 + 54 < 110
      /\ Mcd.Supplier.inventory (Mcd.tysonState st') = 0
      /\ Mcd.Supplier.backlog (Mcd.tysonState st') = 190).
Proof.
  split; [|split].
  - intros st a t r Hb Hf Hk Hi Ha. cbv zeta. intros Hlt.
    destruct (Mcd.processSupplier_conserves (Mcd.week st) (Mcd.tysonState st) t
                (Mcd.beef (Mcd.playerOrder st) + Mcd.fish (Mcd.playerOrder st)))
      as (Hs & Hinv & Hbk & _).
    destruct (Mcd.resolveWeek_suppliers st a t r) as [_ Et].
    do 3 eexists. split; [apply Mcd.resolveWeek_shipments|].
    split; [|split].
    + apply Mcd.tysonSplit_bound; auto. rewrite Hs. lia.
    + rewrite Et. exact Hinv.
    + rewrite Et. exact Hbk.
  - vm_compute. repeat split; reflexivity.
  - vm_compute. repeat split; reflexivity.
Qed.

Lemma C10_witness :
  exists shippedBuns shippedBeef shippedFish,
    Mcd.shipments (Mcd.resolveWeek mcdShortfall 0 0 0)
    = Mcd.shipments mcdShortfall
      ++ [Mcd.mkShipment (Mcd.week mcdShortfall + 1 + Mcd.LEAD_TIME)
            (Mcd.mkItems shippedBuns shippedBeef shippedFish)]
    /\ shippedBeef + shippedFish
       <= snd (Mcd.processSupplier (Mcd.week mcdShortfall)
                 (Mcd.tysonState mcdShortfall) 0
                 (Mcd.beef (Mcd.playerOrder mcdShortfall)
                  + Mcd.fish (Mcd.playerOrder mcdShortfall)))
    /\ Mcd.Supplier.inventory
         (Mcd.tysonState (Mcd.resolveWeek mcdShortfall 0 0 0))
       = Mcd.Supplier.inventory (Mcd.tysonState mcdShortfall)
         + Mcd.arrivingAmount (Mcd.week mcdShortfall)
             (Mcd.tysonState mcdShortfall)
         - snd (Mcd.processSupplier (Mcd.week mcdShortfall)
                  (Mcd.tysonState mcdShortfall) 0
                  (Mcd.beef (Mcd.playerOrder mcdShortfall)
                   + Mcd.fish (Mcd.playerOrder mcdShortfall)))
    /\ Mcd.Supplier.backlog
         (Mcd.tysonState (Mcd.resolveWeek mcdShortfall 0 0 0))
       = Mcd.beef (Mcd.playerOrder mcdShortfall)
         + Mcd.fish (Mcd.playerOrder mcdShortfall)
         + Mcd.Supplier.backlog (Mcd.tysonState mcdShortfall)
         - snd (Mcd.processSupplier (Mcd.week mcdShortfall)
                  (Mcd.tysonState mcdShortfall) 0
                  (Mcd.beef (Mcd.playerOrder mcdShortfall)
                   + Mcd.fish (Mcd.playerOrder mcdShortfall))).
Proof.
  apply (proj1 C10_floored_split_loses_units mcdShortfall 0 0 0%Q);
    vm_compute; solve [discriminate | reflexivity].
Defined.

(** * Further properties of the code *)

(** A holding term plus a backlog term, at non-negative rates. *)
Lemma cost_terms_nonneg (a b : Z) (h k : Q) :
  0 <= a -> 0 <= b -> (0 <= h)%Q -> (0 <= k)%Q ->
  (0 <= inject_Z a * h + inject_Z b * k)%Q.
Proof.
  intros Ha Hb Hh Hk.
  apply Qle_trans with (y := (0 + 0)%Q); [apply Qle_refl|].
  apply Qplus_le_compat; apply Qmult_le_0_compat; auto;
    change 0%Q with (inject_Z 0); now rewrite <- Zle_Qle.
Qed.

(** ** The Beer Game *)

(** The figure of the [GAME_OVER] screen. *)
Module BeerGameOver.
Definition totalCost (history : list Beer.Entry) : Q :=
  fold_left
    (fun acc curr =>
       (acc + (if Beer.week curr >? 0 then Beer.cost curr else 0))%Q)
    history 0%Q.
End BeerGameOver.

Section BeerFurther.
Import Beer.

(** How one event changes the history: [handleStartGame] resets it to
    the seed, [processTurn] appends the settled entry of the role in
    turn, every other handler leaves it alone. *)
Inductive HistoryChange (st : State) (ev : Event) (st' : State) : Prop :=
| change_reset :
    ev = EStartGame -> history st' = seedData -> HistoryChange st ev st'
| change_none :
    history st' = history st -> HistoryChange st ev st'
| change_commit role prev ship dem o :
    nth_error ROLES (turnIndex st) = Some role ->
    getHistoryEntry (history st) (currentWeek st - 1) role = Some prev ->
    getIncomingShipment (history st) (turnIndex st) (currentWeek st)
    = Some ship ->
    getIncomingDemand (history st) (turnIndex st) (currentWeek st)
    = Some dem ->
    history st' = history st ++ [settled st role prev ship dem o] ->
    (ev = ESubmit (Some o) /\ 0 <= o)
    \/ (exists remote, ev = EAgent remote
                       /\ o = order (getAITurn dem remote)) ->
    HistoryChange st ev st'.

Lemma step_history st ev st' :
  step st ev = Some st' -> HistoryChange st ev st'.
Proof.
  intros H. unfold step in H.
  destruct (gameState st) eqn:Hg; destruct ev;
    try (inversion H; subst st'; apply change_none; reflexivity).
  - (* SETUP, start game *)
    inversion H; subst st'. now apply change_reset.
  - (* PLAY, submit *)
    destruct (currentPlayerType st) as [[|]|]; try discriminate.
    + unfold submitTurn in H. destruct orderInput as [o|].
      * destruct (Z.ltb_spec o 0).
        -- inversion H; subst st'. now apply change_none.
        -- destruct (processTurn_inv _ _ H)
             as (role & prev & ship & dem & E1 & E2 & E3 & E4 & ->).
           eapply change_commit; eauto using history_committed.
      * inversion H; subst st'. now apply change_none.
    + inversion H; subst st'. now apply change_none.
  - (* PLAY, agent *)
    destruct (currentPlayerType st) as [[|]|]; try discriminate.
    + inversion H; subst st'. now apply change_none.
    + unfold aiTurn in H.
      destruct (nth_error ROLES (turnIndex st)) as [role|] eqn:E1;
        [|discriminate].
      destruct (getHistoryEntry _ _ _) as [prev|] eqn:E2; [|discriminate].
      destruct (getIncomingShipment _ _ _) as [ship|] eqn:E3; [|discriminate].
      destruct (getIncomingDemand _ _ _) as [dem|] eqn:E4; [|discriminate].
      destruct (processTurn_inv _ _ H)
        as (role' & prev' & ship' & dem' & F1 & F2 & F3 & F4 & ->).
      rewrite E1 in F1. inversion F1; subst role'.
      rewrite E2 in F2. inversion F2; subst prev'.
      rewrite E3 in F3. inversion F3; subst ship'.
      rewrite E4 in F4. inversion F4; subst dem'.
      eapply change_commit; eauto using history_committed.
  - (* SUMMARY, next week *)
    inversion H; subst st'. apply change_none. unfold startNextWeek.
    now destruct (currentWeek st >=? CONFIG.totalWeeks).
Qed.

(** A property of entries that the seed has and every settlement
    establishes holds throughout every reachable history. *)
Lemma history_invariant (P : Entry -> Prop) :
  Forall P seedData ->
  (forall st role prev ship dem o, P (settled st role prev ship dem o)) ->
  forall st, Reachable st -> Forall P (history st).
Proof.
  intros Hseed Hset st Hr.
  induction Hr as [|st ev st' _ IH H].
  - exact Hseed.
  - destruct (step_history _ _ H) as [_ E | E | role prev ship dem o _ _ _ _ E _];
      rewrite E; auto.
    apply Forall_app. split; [exact IH | repeat constructor; apply Hset].
Qed.

(** X1.  Stock and backlog exclude each other.  Every entry of every
    reachable history, whoever placed the orders and whatever they
    were, has a non-negative inventory and a non-negative backlog, and
    at least one of the two is zero. *)
Theorem beer_stock_excludes_backlog st h :
  Reachable st -> In h (history st) ->
  0 <= inventory h /\ 0 <= backlog h
  /\ (inventory h = 0 \/ backlog h = 0).
Proof.
  intros Hr Hin.
  revert h Hin. apply Forall_forall.
  apply history_invariant; [| |exact Hr].
  - unfold seedData. simpl. repeat constructor; simpl; lia.
  - intros. unfold settled. cbn [inventory backlog]. lia.
Qed.

Lemma beer_stock_excludes_backlog_witness :
  let h := mkEntry 0 retailer 12 0 4 4 6 in
  0 <= inventory h /\ 0 <= backlog h
  /\ (inventory h = 0 \/ backlog h = 0).
Proof.
  apply (@beer_stock_excludes_backlog initial (mkEntry 0 retailer 12 0 4 4 6)).
  - apply reach_initial.
  - simpl. auto 10.
Defined.

(** X2.  The history only grows during a game.  Any event other than
    the start of a new game leaves the recorded entries in place and
    appends at most one; what a lookup found before, it still finds. *)
Theorem beer_history_append_only st ev st' :
  step st ev = Some st' -> ev <> EStartGame ->
  exists added,
    history st' = history st ++ added
    /\ (length added <= 1)%nat
    /\ forall w r h,
         getHistoryEntry (history st) w r = Some h ->
         getHistoryEntry (history st') w r = Some h.
Proof.
  intros H Hev.
  destruct (step_history _ _ H)
    as [E _ | E | role prev ship dem o _ _ _ _ E _].
  - contradiction.
  - exists []. rewrite E, app_nil_r. auto.
  - exists [settled st role prev ship dem o]. rewrite E.
    repeat split; auto. intros w r h. apply getHistoryEntry_app.
Qed.

Lemma beer_history_append_only_witness :
  exists added,
    history (committed beerFirstTurn
               (settled beerFirstTurn retailer
                        (mkEntry 0 retailer 12 0 4 4 6) 4 4 7))
    = history beerFirstTurn ++ added
    /\ (length added <= 1)%nat
    /\ forall w r h,
         getHistoryEntry (history beerFirstTurn) w r = Some h ->
         getHistoryEntry
           (history (committed beerFirstTurn
                       (settled beerFirstTurn retailer
                                (mkEntry 0 retailer 12 0 4 4 6) 4 4 7)))
           w r = Some h.
Proof.
  apply (@beer_history_append_only beerFirstTurn (ESubmit (Some 7))).
  - reflexivity.
  - discriminate.
Defined.

(** X3.  Orders travel up a link in one week and shipments travel down
    it in two.  For two adjacent roles of a reachable state, the
    demand the upstream role faces this week is the order its
    customer recorded last week, and the shipment the downstream role
    receives is what its supplier recorded as shipped two weeks ago;
    both entries exist and are the only ones for their week and role,
    so the default of 4 is never used. *)
Theorem beer_link_delays st i down up :
  Reachable st ->
  nth_error ROLES i = Some down -> nth_error ROLES (S i) = Some up ->
  exists ordered sent,
    getHistoryEntry (history st) (currentWeek st - CONFIG.orderDelay) down
    = Some ordered
    /\ getIncomingDemand (history st) (S i) (currentWeek st)
       = Some (orderPlaced ordered)
    /\ getHistoryEntry (history st) (currentWeek st - CONFIG.shippingDelay) up
       = Some sent
    /\ getIncomingShipment (history st) i (currentWeek st)
       = Some (shipped sent)
    /\ (forall h, In h (history st) -> week h = week ordered ->
                  roleId h = down -> h = ordered)
    /\ (forall h, In h (history st) -> week h = week sent ->
                  roleId h = up -> h = sent).
Proof.
  intros Hr Hd Hu. pose proof (Reachable_Inv Hr) as I.
  pose proof (inv_week I) as Iw.
  destruct (getHistoryEntry_in (history st)
              (currentWeek st - CONFIG.orderDelay) down) as [ordered Ho].
  { apply (inv_past I). unfold CONFIG.orderDelay. lia. }
  destruct (getHistoryEntry_in (history st)
              (currentWeek st - CONFIG.shippingDelay) up) as [sent Hs].
  { apply (inv_past I). unfold CONFIG.shippingDelay. lia. }
  destruct (getHistoryEntry_some _ _ _ Ho) as (Hino & Hwo & Hro).
  destruct (getHistoryEntry_some _ _ _ Hs) as (Hins & Hws & Hrs).
  assert (Hi : (i <= 2)%nat).
  { apply nth_error_ROLES in Hu. pose proof (roleIndexOf_lt up). lia. }
  exists ordered, sent. repeat split; auto.
  - unfold getIncomingDemand. cbn [Nat.eqb].
    replace (S i - 1)%nat with i by lia. now rewrite Hd, Ho.
  - unfold getIncomingShipment.
    replace (i =? 3)%nat with false by (symmetry; apply Nat.eqb_neq; lia).
    replace (i + 1)%nat with (S i) by lia. now rewrite Hu, Hs.
  - intros h Hin Hw Hro'.
    pose proof (@getHistoryEntry_unique _ _ (inv_nodup I) Hin) as U.
    rewrite Hw, Hro', Hwo in U. congruence.
  - intros h Hin Hw Hro'.
    pose proof (@getHistoryEntry_unique _ _ (inv_nodup I) Hin) as U.
    rewrite Hw, Hro', Hws in U. congruence.
Qed.

Lemma beer_link_delays_witness :
  exists ordered sent,
    getHistoryEntry (history beerFirstTurn)
      (currentWeek beerFirstTurn - CONFIG.orderDelay) wholesaler
    = Some ordered
    /\ getIncomingDemand (history beerFirstTurn) 2 (currentWeek beerFirstTurn)
       = Some (orderPlaced ordered)
    /\ getHistoryEntry (history beerFirstTurn)
         (currentWeek beerFirstTurn - CONFIG.shippingDelay) distributor
       = Some sent
    /\ getIncomingShipment (history beerFirstTurn) 1
         (currentWeek beerFirstTurn)
       = Some (shipped sent)
    /\ (forall h, In h (history beerFirstTurn) -> week h = week ordered ->
                  roleId h = wholesaler -> h = ordered)
    /\ (forall h, In h (history beerFirstTurn) -> week h = week sent ->
                  roleId h = distributor -> h = sent).
Proof.
  apply (@beer_link_delays beerFirstTurn 1 wholesaler distributor).
  - exact beerFirstTurn_reachable.
  - reflexivity.
  - reflexivity.
Defined.

(** An entry of the equilibrium the game starts in. *)
Definition steady (h : Entry) : bool :=
  (inventory h =? 12) && (backlog h =? 0)
  && (orderPlaced h =? 4) && (shipped h =? 4).

Lemma steady_fields h :
  steady h = true ->
  inventory h = 12 /\ backlog h = 0 /\ orderPlaced h = 4 /\ shipped h = 4.
Proof.
  unfold steady. rewrite !andb_true_iff, !Z.eqb_eq. tauto.
Qed.

Lemma steady_lookup hist w r h :
  forallb steady hist = true -> getHistoryEntry hist w r = Some h ->
  inventory h = 12 /\ backlog h = 0 /\ orderPlaced h = 4 /\ shipped h = 4.
Proof.
  intros Hs Hh. apply steady_fields.
  apply getHistoryEntry_some in Hh.
  exact (proj1 (forallb_forall _ _) Hs h (proj1 Hh)).
Qed.

Lemma steady_shipment hist i w s :
  forallb steady hist = true -> getIncomingShipment hist i w = Some s ->
  s = 4.
Proof.
  intros Hs. unfold getIncomingShipment.
  destruct (i =? 3)%nat.
  - destruct (getHistoryEntry _ _ _) as [h|] eqn:E; intros H; inversion H;
      [|reflexivity].
    now destruct (steady_lookup _ _ _ Hs E) as (_ & _ & -> & _).
  - destruct (nth_error ROLES (i + 1)) as [up|]; [|discriminate].
    destruct (getHistoryEntry _ _ _) as [h|] eqn:E; intros H; inversion H;
      [|reflexivity].
    now destruct (steady_lookup _ _ _ Hs E) as (_ & _ & _ & ->).
Qed.

Lemma steady_demand hist i w d :
  forallb steady hist = true -> getIncomingDemand hist i w = Some d ->
  d = if (i =? 0)%nat then getConsumerDemand w else 4.
Proof.
  intros Hs. unfold getIncomingDemand.
  destruct (i =? 0)%nat; [congruence|].
  destruct (nth_error ROLES (i - 1)) as [down|]; [|discriminate].
  destruct (getHistoryEntry _ _ _) as [h|] eqn:E; intros H; inversion H;
    [|reflexivity].
  now destruct (steady_lookup _ _ _ Hs E) as (_ & _ & -> & _).
Qed.

(** X4.  The game starts in an equilibrium that only the consumer can
    break.  While every recorded entry holds 12, owes nothing, orders 4
    and ships 4, the role in turn that orders 4 again ships exactly the
    demand it faces out of 16 units: 4 for the three upstream roles and
    for the retailer through week 4, which leaves the equilibrium in
    place; 8 for the retailer from week 5 on, which leaves it 8 in
    stock. *)
Theorem beer_equilibrium st :
  Reachable st -> gameState st = PLAY ->
  forallb steady (history st) = true ->
  exists e,
    processTurn st 4 = Some (committed st e)
    /\ orderPlaced e = 4
    /\ shipped e = (if (turnIndex st =? 0)%nat
                    then getConsumerDemand (currentWeek st) else 4)
    /\ inventory e = 16 - shipped e
    /\ backlog e = 0
    /\ steady e = (negb (turnIndex st =? 0)%nat || (currentWeek st <=? 4)).
Proof.
  intros Hr Hg Hs.
  destruct (processTurn_settles 4 Hr Hg)
    as (role & prev & ship & dem & _ & Eprev & Eship & Edem & E).
  destruct (steady_lookup _ _ _ Hs Eprev) as (Hi & Hb & _ & _).
  pose proof (steady_shipment _ _ _ Hs Eship) as ->.
  pose proof (steady_demand _ _ _ Hs Edem) as Hd.
  exists (settled st role prev 4 dem 4). split; [exact E|].
  unfold steady, settled. cbn [inventory backlog orderPlaced shipped].
  rewrite Hi, Hb, Hd. unfold getConsumerDemand.
  destruct (turnIndex st =? 0)%nat; destruct (currentWeek st <=? 4);
    repeat split; reflexivity.
Qed.

Lemma beer_equilibrium_witness :
  exists e,
    processTurn beerFirstTurn 4 = Some (committed beerFirstTurn e)
    /\ orderPlaced e = 4
    /\ shipped e = (if (turnIndex beerFirstTurn =? 0)%nat
                    then getConsumerDemand (currentWeek beerFirstTurn) else 4)
    /\ inventory e = 16 - shipped e
    /\ backlog e = 0
    /\ steady e = (negb (turnIndex beerFirstTurn =? 0)%nat
                   || (currentWeek beerFirstTurn <=? 4)).
Proof.
  apply (@beer_equilibrium beerFirstTurn).
  - exact beerFirstTurn_reachable.
  - reflexivity.
  - reflexivity.
Defined.

(** Clicks and typed orders: every event but an agent's reply. *)
Definition typedOrClicked (ev : Event) : bool :=
  match ev with EAgent _ => false | _ => true end.

Lemma typed_orders_kept evs : forall st st',
  forallb typedOrClicked evs = true -> run st evs = Some st' ->
  Forall (fun h => 0 <= orderPlaced h) (history st) ->
  Forall (fun h => 0 <= orderPlaced h) (history st').
Proof.
  induction evs as [|ev evs IH]; intros st st' Hev Hrun Hst.
  - inversion Hrun; now subst.
  - cbn [run] in Hrun. cbn [forallb] in Hev.
    apply andb_true_iff in Hev. destruct Hev as [Hev1 Hev2].
    destruct (step st ev) as [st1|] eqn:E; [|discriminate].
    apply (IH st1 st' Hev2 Hrun).
    destruct (step_history _ _ E)
      as [_ E1 | E1 | role prev ship dem o _ _ _ _ E1 Ho]; rewrite E1.
    + unfold seedData. simpl. repeat constructor; simpl; lia.
    + exact Hst.
    + apply Forall_app. split; [exact Hst|]. repeat constructor.
      unfold settled. cbn [orderPlaced].
      destruct Ho as [[_ Ho] | (remote & -> & _)]; [exact Ho | discriminate].
Qed.

(** X5.  No player at the keyboard can record a negative order.
    Whatever is clicked and typed from the first screen on, restarts
    and rejected inputs included, every order in the history is
    non-negative as long as no agent has replied. *)
Theorem beer_typed_orders_nonneg evs st :
  forallb typedOrClicked evs = true -> run initial evs = Some st ->
  Forall (fun h => 0 <= orderPlaced h) (history st).
Proof.
  intros Hev Hrun. apply (@typed_orders_kept evs initial st Hev Hrun).
  unfold seedData. simpl. repeat constructor; simpl; lia.
Qed.

Lemma beer_typed_orders_nonneg_witness :
  Forall (fun h => 0 <= orderPlaced h)
         (history (committed beerFirstTurn
                     (settled beerFirstTurn retailer
                              (mkEntry 0 retailer 12 0 4 4 6) 4 4 7))).
Proof.
  apply (@beer_typed_orders_nonneg
           [EStartSetup; EStartGame; EReady; ESubmit (Some (-2));
            ESubmit None; ESubmit (Some 7)]).
  - reflexivity.
  - reflexivity.
Defined.

(** X6.  What a turn adds to the final cost.  In a reachable [PLAY]
    state the entry a turn records carries the cost
    [0.5 * inventory + 1.0 * backlog], which is never negative, and
    the total shown at the end of the game grows by exactly that
    amount; the eight seed entries, which carry a cost of 6 each, count
    for nothing. *)
Theorem beer_total_cost st o :
  Reachable st -> gameState st = PLAY ->
  exists e,
    processTurn st o = Some (committed st e)
    /\ cost e = (inject_Z (inventory e) * CONFIG.costHolding
                 + inject_Z (backlog e) * CONFIG.costBacklog)%Q
    /\ (0 <= cost e)%Q
    /\ BeerGameOver.totalCost (history (committed st e))
       = (BeerGameOver.totalCost (history st) + cost e)%Q
    /\ BeerGameOver.totalCost seedData = 0%Q.
Proof.
  intros Hr Hg.
  destruct (processTurn_settles o Hr Hg)
    as (role & prev & ship & dem & _ & _ & _ & _ & E).
  pose proof (inv_week (Reachable_Inv Hr)) as Iw.
  exists (settled st role prev ship dem o).
  split; [exact E|]. split; [reflexivity|]. split; [|split].
  - unfold settled. cbn [cost].
    apply cost_terms_nonneg; try lia; discriminate.
  - rewrite history_committed. unfold BeerGameOver.totalCost.
    rewrite fold_left_app. cbn [fold_left].
    change (week (settled st role prev ship dem o)) with (currentWeek st).
    replace (currentWeek st >? 0) with true
      by (symmetry; rewrite Z.gtb_ltb; apply Z.ltb_lt; lia).
    reflexivity.
  - reflexivity.
Qed.

Lemma beer_total_cost_witness :
  exists e,
    processTurn beerFirstTurn 4 = Some (committed beerFirstTurn e)
    /\ cost e = (inject_Z (inventory e) * CONFIG.costHolding
                 + inject_Z (backlog e) * CONFIG.costBacklog)%Q
    /\ (0 <= cost e)%Q
    /\ BeerGameOver.totalCost (history (committed beerFirstTurn e))
       = (BeerGameOver.totalCost (history beerFirstTurn) + cost e)%Q
    /\ BeerGameOver.totalCost seedData = 0%Q.
Proof.
  apply (@beer_total_cost beerFirstTurn 4).
  - exact beerFirstTurn_reachable.
  - reflexivity.
Defined.

(** X7.  One entry per role and week, none skipped.  In every
    reachable state no week and role is recorded twice, every role has
    its entry for each week from the seed up to last week, and of the
    current week exactly the roles that have played are on record: the
    history holds the 8 seed entries, 4 for each week completed and one
    for each turn taken this week. *)
Theorem beer_one_entry_per_turn st :
  Reachable st ->
  NoDup (keys (history st))
  /\ (forall w r, -1 <= w < currentWeek st ->
                  exists h, getHistoryEntry (history st) w r = Some h)
  /\ forall n, turnsDone st = Some n ->
       (forall r, (exists h, getHistoryEntry (history st) (currentWeek st) r
                             = Some h)
                  <-> (roleIndexOf r < n)%nat)
       /\ Z.of_nat (length (history st))
          = 8 + 4 * (currentWeek st - 1) + Z.of_nat n.
Proof.
  intros Hr. pose proof (Reachable_Inv Hr) as I.
  split; [exact (inv_nodup I)|]. split.
  - intros w r Hw. apply getHistoryEntry_in. now apply (inv_past I).
  - intros n Hn. destruct (inv_now I Hn) as [Inow Ilen].
    split; [|exact Ilen].
    intros r. rewrite <- Inow. split.
    + intros [h Hh]. eapply getHistoryEntry_keys; eassumption.
    + apply getHistoryEntry_in.
Qed.

Lemma beer_one_entry_per_turn_witness :
  NoDup (keys (history beerFirstTurn))
  /\ (forall w r, -1 <= w < currentWeek beerFirstTurn ->
                  exists h, getHistoryEntry (history beerFirstTurn) w r
                            = Some h)
  /\ forall n, turnsDone beerFirstTurn = Some n ->
       (forall r, (exists h, getHistoryEntry (history beerFirstTurn)
                               (currentWeek beerFirstTurn) r = Some h)
                  <-> (roleIndexOf r < n)%nat)
       /\ Z.of_nat (length (history beerFirstTurn))
          = 8 + 4 * (currentWeek beerFirstTurn - 1) + Z.of_nat n.
Proof.
  apply (@beer_one_entry_per_turn beerFirstTurn).
  exact beerFirstTurn_reachable.
Defined.

(** A reachable [PLAY] state in which an agent is to move: week 1,
    the retailer played by the AI. *)
Definition beerAgentTurn : State :=
  setGameState PLAY
    (handleStartGame (setPlayerType retailer AI (handleStartSetup initial))).

Lemma beerAgentTurn_reachable : Reachable beerAgentTurn.
Proof.
  apply (@run_reachable
           [EStartSetup; ESetPlayerType retailer AI; EStartGame; EReady]
           initial); [apply reach_initial | reflexivity].
Defined.

(** X8.  An agent that cannot be reached passes its customer's order
    on.  In a reachable [PLAY] state whose role is played by the AI,
    a failed remote call still completes the turn, and the order
    recorded is exactly the demand the role faces this week. *)
Theorem beer_agent_fallback_passes_demand st :
  Reachable st -> gameState st = PLAY -> currentPlayerType st = Some AI ->
  exists role prev ship dem,
    getIncomingDemand (history st) (turnIndex st) (currentWeek st) = Some dem
    /\ step st (EAgent Failed)
       = Some (committed st (settled st role prev ship dem dem))
    /\ orderPlaced (settled st role prev ship dem dem) = dem.
Proof.
  intros Hr Hg Ht.
  destruct (processTurn_settles 0 Hr Hg)
    as (role & prev & ship & dem & Ero & Eprev & Eship & Edem & _).
  destruct (processTurn_settles dem Hr Hg)
    as (role' & prev' & ship' & dem' & Ero' & Eprev' & Eship' & Edem' & E).
  rewrite Ero in Ero'. inversion Ero'; subst role'.
  rewrite Eprev in Eprev'. inversion Eprev'; subst prev'.
  rewrite Eship in Eship'. inversion Eship'; subst ship'.
  rewrite Edem in Edem'. inversion Edem'; subst dem'.
  exists role, prev, ship, dem. split; [exact Edem|]. split; [|reflexivity].
  unfold step. rewrite Hg, Ht. unfold aiTurn.
  rewrite Ero, Eprev, Eship, Edem. exact E.
Qed.

Lemma beer_agent_fallback_passes_demand_witness :
  exists role prev ship dem,
    getIncomingDemand (history beerAgentTurn) (turnIndex beerAgentTurn)
                      (currentWeek beerAgentTurn) = Some dem
    /\ step beerAgentTurn (EAgent Failed)
       = Some (committed beerAgentTurn
                 (settled beerAgentTurn role prev ship dem dem))
    /\ orderPlaced (settled beerAgentTurn role prev ship dem dem) = dem.
Proof.
  apply (@beer_agent_fallback_passes_demand beerAgentTurn).
  - exact beerAgentTurn_reachable.
  - reflexivity.
  - reflexivity.
Defined.
End BeerFurther.

(** ** The fast-food game *)

Section McdFurther.
Import Mcd.

Lemma supplier_settlement_sound wk state productionAmount playerOrderAmount :
  let s := fst (processSupplier wk state productionAmount
                                playerOrderAmount) in
  0 <= Supplier.inventory s /\ 0 <= Supplier.backlog s
  /\ (Supplier.inventory s = 0 \/ Supplier.backlog s = 0).
Proof.
  cbv zeta. unfold processSupplier.
  destruct (arrivingProduction wk state) as [q|];
    match goal with
    | |- context [?a >=? ?b] => destruct (a >=? b) eqn:E
    end;
    rewrite Z.geb_leb in E;
    [apply Z.leb_le in E | apply Z.leb_gt in E
    |apply Z.leb_le in E | apply Z.leb_gt in E];
    cbn [fst Supplier.inventory Supplier.backlog]; lia.
Qed.

Lemma resolveWeek_item_sound st a t r item :
  let st' := resolveWeek st a t r in
  0 <= get (inventory st') item /\ 0 <= get (backlog st') item
  /\ (get (inventory st') item = 0 \/ get (backlog st') item = 0).
Proof.
  cbv zeta.
  pose proof (resolveWeek_item st a t r item) as E.
  unfold settleItem in E.
  match type of E with
  | context [?a >=? ?b] => destruct (a >=? b) eqn:C
  end;
    rewrite Z.geb_leb in C;
    [apply Z.leb_le in C | apply Z.leb_gt in C];
    inversion E as [[E1 E2]]; lia.
Qed.

(** X9.  Stock and backlog exclude each other at both tiers.  Whatever
    the state and the orders, a supplier leaves [processSupplier] with
    a non-negative inventory and a non-negative backlog of which at
    least one is zero, and so does every ingredient of the distribution
    centre after [resolveWeek]. *)
Theorem mcd_stock_excludes_backlog :
  (forall wk state productionAmount playerOrderAmount,
      let s := fst (processSupplier wk state productionAmount
                                    playerOrderAmount) in
      0 <= Supplier.inventory s /\ 0 <= Supplier.backlog s
      /\ (Supplier.inventory s = 0 \/ Supplier.backlog s = 0))
  /\ (forall st a t r item,
         let st' := resolveWeek st a t r in
         0 <= get (inventory st') item /\ 0 <= get (backlog st') item
         /\ (get (inventory st') item = 0 \/ get (backlog st') item = 0)).
Proof.
  split; [exact supplier_settlement_sound | exact resolveWeek_item_sound].
Qed.

(** *** The suppliers' fallback rule *)

Lemma round_halves (x : Q) (n : Z) :
  (x == n # 2)%Q -> Js.round x = (n + 1) / 2.
Proof.
  intros E. unfold Js.round.
  assert (E' : (x + (1 # 2) == (n + 1) # 2)%Q).
  { rewrite E. unfold Qeq, Qplus. simpl. lia. }
  rewrite (Qfloor_comp _ _ E'). reflexivity.
Qed.

(** Twice the stock level the fallback rule aims at. *)
Definition twiceTarget (agentState : Supplier.t) : Z :=
  if Supplier.lastOrderReceived agentState =? 0 then 400
  else 3 * Supplier.lastOrderReceived agentState.

Lemma fallback_order agentState demand remote :
  order (getAITurn EmptyString agentState demand remote)
  = Z.max 0 ((twiceTarget agentState
              - 2 * Supplier.inventory agentState
              + 2 * Supplier.backlog agentState + 1) / 2).
Proof.
  unfold getAITurn. cbn [isEmpty order].
  set (l := Supplier.lastOrderReceived agentState).
  set (i := Supplier.inventory agentState).
  set (b := Supplier.backlog agentState).
  set (n := twiceTarget agentState - 2 * i + 2 * b).
  assert (H2 : forall (a : Q) (m : Z),
             (a == m # 2)%Q ->
             (a - inject_Z i + inject_Z b == (m - 2 * i + 2 * b) # 2)%Q).
  { intros a m Ea. rewrite Ea.
    cbv [Qeq Qplus Qminus Qopp inject_Z Qnum Qden]. lia. }
  assert (E : ((if Qeq_bool (inject_Z l * (3 # 2)) 0 then 200
                else inject_Z l * (3 # 2))
               - inject_Z i + inject_Z b == n # 2)%Q).
  { unfold n, twiceTarget. fold l. apply H2.
    destruct (Z.eqb_spec l 0) as [-> | Hl].
    - reflexivity.
    - destruct (Qeq_bool (inject_Z l * (3 # 2)) 0) eqn:Q0.
      + apply Qeq_bool_eq in Q0.
        cbv [Qeq Qmult inject_Z Qnum Qden] in Q0. lia.
      + cbv [Qeq Qmult inject_Z Qnum Qden]. lia. }
  unfold maxQ.
  match goal with
  | |- context [Qle_bool 0 ?x] => set (x0 := x) in *
  end.
  destruct (Qle_bool 0 x0) eqn:L.
  - apply Qle_bool_iff in L. rewrite E in L.
    unfold Qle in L. simpl in L.
    rewrite (round_halves E).
    assert (0 <= (n + 1) / 2) by (apply Z.div_pos; lia). lia.
  - assert (Hn : n < 0).
    { destruct (Z.ltb_spec n 0) as [H | H]; [exact H|].
      assert (L' : Qle_bool 0 x0 = true).
      { apply Qle_bool_iff. rewrite E. unfold Qle. simpl. lia. }
      congruence. }
    assert ((n + 1) / 2 <= 0).
    { apply Z.div_le_upper_bound; lia. }
    change (Js.round 0) with 0. lia.
Qed.

Lemma step_apiKey st ev : apiKey (step st ev) = apiKey st.
Proof.
  unfold step. destruct (gameOver st); [reflexivity|].
  destruct (turnPhase st); try reflexivity.
  destruct ev as [item v | inp]; [reflexivity|].
  unfold startTurnSequence.
  destruct (week st >=? MAX_WEEKS); [reflexivity|].
  unfold resolveWeek.
  destruct (tysonSplit st _) as [sb sf].
  destruct (fulfill _ _) as [ni nb]. reflexivity.
Qed.

Lemma run_apiKey evs : forall st, apiKey (run st evs) = apiKey st.
Proof.
  unfold run. induction evs as [|ev evs IH]; intros st; cbn [fold_left].
  - reflexivity.
  - now rewrite IH, step_apiKey.
Qed.

(** X10.  The suppliers always follow the order-up-to rule.  The key the
    component starts with is empty and nothing sets it, so in every
    state the interface can reach, whatever the remote service would
    answer, the production order of a supplier is its fallback: the
    gap between the target (1.5 times the last order received, or 200
    when that is zero) and inventory minus backlog, rounded to the
    nearest integer with halves up, and never below zero. *)
Theorem mcd_agents_use_fallback evs t who :
  let st := run initial evs in
  let sup := supplierOf st who in
  order (decisionOf st t who)
  = Z.max 0 ((twiceTarget sup - 2 * Supplier.inventory sup
              + 2 * Supplier.backlog sup + 1) / 2)
  /\ 0 <= order (decisionOf st t who).
Proof.
  cbv zeta.
  assert (E : order (decisionOf (run initial evs) t who)
              = Z.max 0 ((twiceTarget (supplierOf (run initial evs) who)
                          - 2 * Supplier.inventory
                                  (supplierOf (run initial evs) who)
                          + 2 * Supplier.backlog
                                  (supplierOf (run initial evs) who) + 1) / 2)).
  { unfold decisionOf. rewrite run_apiKey.
    destruct who; cbn [supplierOf]; apply fallback_order. }
  split; [exact E | rewrite E; lia].
Qed.

(** *** Cost *)

Lemma resolveWeek_cost st a t r :
  let st' := resolveWeek st a t r in
  totalCost st'
  = (totalCost st
     + (inject_Z (buns (inventory st') + beef (inventory st')
                  + fish (inventory st')) * HOLDING_COST
        + inject_Z (buns (backlog st') + beef (backlog st')
                    + fish (backlog st')) * BACKLOG_COST))%Q.
Proof.
  cbv zeta. unfold resolveWeek.
  destruct (tysonSplit st _) as [sb sf].
  destruct (fulfill _ _) as [ni nb]. reflexivity.
Qed.

(** X11.  The running cost never decreases.  A resolved week adds
    [0.5] per unit held and [2] per unit owed, summed over the three
    ingredients, to [totalCost]; the sum is never negative, so no event
    of the interface, in any state, lowers the total. *)
Theorem mcd_cost_never_decreases :
  (forall st a t r,
      let st' := resolveWeek st a t r in
      totalCost st'
      = (totalCost st
         + (inject_Z (buns (inventory st') + beef (inventory st')
                      + fish (inventory st')) * HOLDING_COST
            + inject_Z (buns (backlog st') + beef (backlog st')
                        + fish (backlog st')) * BACKLOG_COST))%Q)
  /\ (forall st ev, (totalCost st <= totalCost (step st ev))%Q).
Proof.
  split; [exact resolveWeek_cost|].
  intros st ev. unfold step.
  destruct (gameOver st); [apply Qle_refl|].
  destruct (turnPhase st); try apply Qle_refl.
  destruct ev as [item v | inp]; [apply Qle_refl|].
  unfold startTurnSequence.
  destruct (week st >=? MAX_WEEKS); [apply Qle_refl|].
  match goal with
  | |- (_ <= totalCost (resolveWeek ?s ?a ?t ?r))%Q =>
      rewrite (resolveWeek_cost s a t r);
      pose proof (resolveWeek_item_sound s a t r Buns) as Hb;
      pose proof (resolveWeek_item_sound s a t r Beef) as He;
      pose proof (resolveWeek_item_sound s a t r Fish) as Hf
  end.
  cbv zeta in Hb, He, Hf. cbn [get] in Hb, He, Hf.
  rewrite <- (Qplus_0_r (totalCost st)) at 1.
  apply Qplus_le_compat; [apply Qle_refl|].
  apply cost_terms_nonneg; try lia; discriminate.
Qed.

(** *** Demand *)

Lemma floor_nonneg (base : Z) (m : Q) :
  0 <= base -> (0 <= m)%Q -> 0 <= Js.floor (Js.double (inject_Z base * m)).
Proof.
  intros Hb Hm. unfold Js.floor.
  change 0 with (Qfloor 0). apply Qfloor_resp_le.
  apply Js.double_nonneg.
  apply Qmult_le_0_compat; [|exact Hm].
  change 0%Q with (inject_Z 0). now rewrite <- Zle_Qle.
Qed.

Lemma multiplier_nonneg nextWeek (r : Q) :
  (0 <= r)%Q -> (0 <= multiplierFor nextWeek r)%Q.
Proof.
  intros Hr. unfold multiplierFor.
  destruct (nextWeek =? 5); [discriminate|].
  destruct (nextWeek =? 6); [apply Js.double_nonneg; discriminate|].
  apply Js.double_nonneg.
  apply Qle_trans with (y := (0 + 0)%Q); [apply Qle_refl|].
  apply Qplus_le_compat; [apply Js.double_nonneg; discriminate|].
  apply Js.double_nonneg.
  apply Qmult_le_0_compat; [exact Hr | apply Js.double_nonneg; discriminate].
Qed.

Lemma resolveWeek_demand st a t r :
  currentDemand (resolveWeek st a t r)
  = calculateIngredientDemand
      (mkStoreOrders
         (generateStoreDemand (multiplierFor (week st + 1) r) 100 20)
         (generateStoreDemand (multiplierFor (week st + 1) r) 90 30)
         (generateStoreDemand (multiplierFor (week st + 1) r) 110 10)).
Proof.
  unfold resolveWeek.
  destruct (tysonSplit st _) as [sb sf].
  destruct (fulfill _ _) as [ni nb]. reflexivity.
Qed.

(** X12.  The demand the restaurants place.  The week resolved as
    week 4 generates the campaign demand for week 5, exactly 2.5 times
    the opening demand of 1020 buns, 600 beef and 60 fish, and the next
    one generates 1.8 times the store orders, each rounded down,
    whatever the state, the orders and the random draw; in every other
    week the demand depends on the draw and is never negative. *)
Theorem mcd_campaign_demand :
  currentDemand initial = mkItems 1020 600 60
  /\ (forall st a t r,
         week st = 4 ->
         currentDemand (resolveWeek st a t r) = mkItems 2550 1500 150)
  /\ (forall st a t r,
         week st = 5 ->
         currentDemand (resolveWeek st a t r) = mkItems 1836 1080 108)
  /\ (forall st a t r item,
         (0 <= r)%Q -> 0 <= get (currentDemand (resolveWeek st a t r)) item).
Proof.
  split; [reflexivity|]. split; [|split].
  - intros st a t r Hw. rewrite resolveWeek_demand, Hw. reflexivity.
  - intros st a t r Hw. rewrite resolveWeek_demand, Hw. reflexivity.
  - intros st a t r item Hr. rewrite resolveWeek_demand.
    pose proof (multiplier_nonneg (week st + 1) Hr) as Hm.
    set (m := multiplierFor (week st + 1) r) in *.
    assert (F1 := @floor_nonneg 100 m ltac:(lia) Hm).
    assert (F2 := @floor_nonneg 20 m ltac:(lia) Hm).
    assert (F3 := @floor_nonneg 90 m ltac:(lia) Hm).
    assert (F4 := @floor_nonneg 30 m ltac:(lia) Hm).
    assert (F5 := @floor_nonneg 110 m ltac:(lia) Hm).
    assert (F6 := @floor_nonneg 10 m ltac:(lia) Hm).
    unfold calculateIngredientDemand, generateStoreDemand.
    cbn [fold_left storeA storeB storeC bigMacs filets buns beef fish].
    destruct item; cbn [get buns beef fish]; lia.
Qed.

Lemma mcd_campaign_demand_witness :
  currentDemand
    (resolveWeek (play initial (repeat (mkTurn 1000 600 60
                                          (mkTurnInput Failed Failed 0)) 3))
                 0 0 (1 # 3))
  = mkItems 2550 1500 150.
Proof.
  apply (proj1 (proj2 mcd_campaign_demand)).
  vm_compute. reflexivity.
Defined.

(** *** Deliveries to the distribution centre *)

(** What the suppliers put on the truck in a turn. *)
Definition dispatched (st : State) (t : Turn) : Items :=
  let st1 := typed st t in
  let tysonShipped :=
    snd (processSupplier (week st1) (tysonState st1)
           (order (decisionOf st t Tyson))
           (beef (playerOrder st1) + fish (playerOrder st1))) in
  mkItems
    (snd (processSupplier (week st1) (aryztaState st1)
            (order (decisionOf st t Aryzta)) (buns (playerOrder st1))))
    (fst (tysonSplit st1 tysonShipped))
    (snd (tysonSplit st1 tysonShipped)).

(** The shipments seen through one ingredient. *)
Definition ofItem (item : Item) (s : Shipment) : Production :=
  mkProduction (arrivalWeek s) (get (quantities s) item).

Definition Deliveries (item : Item) (st : State) (amounts : list Z) : Prop :=
  map (ofItem item) (shipments st)
  = Ledger.entries mkProduction (1 + 1 + LEAD_TIME) amounts
  /\ ((length amounts < horizon)%nat ->
      gameOver st = false /\ turnPhase st = PLAYER
      /\ week st = 1 + Z.of_nat (length amounts)).

Lemma arrivingQuantity_ofItem item wk (l : list Shipment) :
  match find (fun s => arrivalWeek s =? wk) l with
  | Some s => get (quantities s) item
  | None => 0
  end
  = match find (fun p => weekArrives p =? wk) (map (ofItem item) l) with
    | Some p => amount p
    | None => 0
    end.
Proof.
  induction l as [|s l IH]; cbn [find map]; [reflexivity|].
  cbn [ofItem weekArrives]. now destruct (arrivalWeek s =? wk).
Qed.

Lemma deliveries_released item st amounts :
  Deliveries item st amounts -> (length amounts < horizon)%nat ->
  arrivingQuantity st item = nth (length amounts) (Ledger.delayed amounts) 0.
Proof.
  intros [Hq Hc] Hlen. destruct (Hc Hlen) as (_ & _ & Hw).
  unfold arrivingQuantity. rewrite arrivingQuantity_ofItem, Hq.
  rewrite (Ledger.find_entries mkProduction weekArrives) by reflexivity.
  rewrite <- (@Ledger.delayed_window (1 + 1 + LEAD_TIME) (week st + 1) amounts)
    by (unfold LEAD_TIME; lia).
  now destruct (Ledger.inWindow (1 + 1 + LEAD_TIME) (week st + 1) amounts).
Qed.

Lemma deliveries_step item st amounts t :
  Deliveries item st amounts -> (length amounts < horizon)%nat -> True ->
  Deliveries item (playTurn st t) (amounts ++ [get (dispatched st t) item]).
Proof.
  intros [Hq Hc] Hlen _. destruct (Hc Hlen) as (Hg & Hp & Hw).
  unfold horizon in *.
  rewrite (@turn_resolves_week st t Hg Hp) by (unfold MAX_WEEKS; lia).
  destruct (resolveWeek_clock (typed st t)
              (order (decisionOf st t Aryzta))
              (order (decisionOf st t Tyson)) (random (env t)))
    as (Ew & Eg & Ep & _).
  change (week (typed st t)) with (week st) in Ew, Eg.
  change (gameOver (typed st t)) with (gameOver st) in Eg.
  unfold Deliveries. split.
  - rewrite resolveWeek_shipments, map_app, Ledger.entries_snoc.
    change (shipments (typed st t)) with (shipments st). rewrite Hq.
    change (week (typed st t)) with (week st).
    replace (1 + 1 + LEAD_TIME + Z.of_nat (length amounts))
      with (week st + 1 + LEAD_TIME) by lia.
    reflexivity.
  - rewrite length_app. cbn [length]. intros Hlen'. unfold horizon in Hlen'.
    rewrite Ew, Eg, Ep.
    replace (week st + 1 =? MAX_WEEKS) with false
      by (symmetry; apply Z.eqb_neq; unfold MAX_WEEKS; lia).
    repeat split; auto. lia.
Qed.

Lemma deliveries_initial item : Deliveries item initial [].
Proof. split; [reflexivity | intros _; repeat split; reflexivity]. Qed.

(** X13.  What a supplier ships reaches the distribution centre two
    turns later.  Along any game from the opening state, the quantity
    of an ingredient added to the player's stock in a turn is the
    quantity dispatched two turns earlier and nothing in the first two
    turns; so the deliveries plus the last two dispatches account for
    everything dispatched. *)
Theorem mcd_deliveries_exact item turns :
  (length turns <= horizon)%nat ->
  let arrived :=
    Ledger.releasedTrace playTurn (fun st => arrivingQuantity st item)
                         initial turns in
  let sent :=
    Ledger.scheduledTrace playTurn (fun st t => get (dispatched st t) item)
                          initial turns in
  arrived = firstn (length turns) (Ledger.delayed sent)
  /\ Ledger.total arrived + Ledger.total (skipn (length turns - 2) sent)
     = Ledger.total sent.
Proof.
  intros Hlen. cbv zeta.
  apply (@Ledger.releasedTrace_total State Turn playTurn
           (fun st => arrivingQuantity st item)
           (fun st t => get (dispatched st t) item)
           horizon (fun _ => True) (Deliveries item)
           (@deliveries_released item) (@deliveries_step item));
    [apply deliveries_initial | exact Hlen | apply Forall_forall; auto].
Qed.

Lemma mcd_deliveries_exact_witness :
  let turns := repeat (mkTurn 1000 600 60 (mkTurnInput Failed Failed 0)) 5 in
  let arrived :=
    Ledger.releasedTrace playTurn (fun st => arrivingQuantity st Beef)
                         initial turns in
  let sent :=
    Ledger.scheduledTrace playTurn (fun st t => get (dispatched st t) Beef)
                          initial turns in
  arrived = firstn (length turns) (Ledger.delayed sent)
  /\ Ledger.total arrived + Ledger.total (skipn (length turns - 2) sent)
     = Ledger.total sent.
Proof.
  apply (@mcd_deliveries_exact Beef
           (repeat (mkTurn 1000 600 60 (mkTurnInput Failed Failed 0)) 5)).
  vm_compute. repeat constructor.
Defined.

(** X14.  The order boxes take any integer.  A negative order for buns
    is handed to the supplier as it is: when Aryzta owes nothing and
    its stock is not negative, it ships that negative quantity, its own
    inventory grows by as much, and the quantity is put on the truck
    for the player. *)
Theorem mcd_negative_order_ships_negative st t :
  gameOver st = false -> turnPhase st = PLAYER -> week st < MAX_WEEKS ->
  bunsInput t < 0 ->
  Supplier.backlog (aryztaState st) = 0 ->
  0 <= Supplier.inventory (aryztaState st)
       + arrivingAmount (week st) (aryztaState st) ->
  let st' := playTurn st t in
  buns (dispatched st t) = bunsInput t
  /\ Supplier.inventory (aryztaState st')
     = Supplier.inventory (aryztaState st)
       + arrivingAmount (week st) (aryztaState st) - bunsInput t
  /\ Supplier.backlog (aryztaState st') = 0
  /\ shipments st'
     = shipments st
       ++ [mkShipment (week st + 1 + LEAD_TIME) (dispatched st t)].
Proof.
  intros Hg Hp Hw Hneg Hb Hinv. cbv zeta.
  rewrite (@turn_resolves_week st t Hg Hp Hw).
  destruct (resolveWeek_suppliers (typed st t)
              (order (decisionOf st t Aryzta))
              (order (decisionOf st t Tyson)) (random (env t))) as [Ea _].
  rewrite Ea, resolveWeek_shipments.
  change (aryztaState (typed st t)) with (aryztaState st).
  change (week (typed st t)) with (week st).
  change (buns (playerOrder (typed st t))) with (bunsInput t).
  change (shipments (typed st t)) with (shipments st).
  destruct (processSupplier_conserves (week st) (aryztaState st)
              (order (decisionOf st t Aryzta)) (bunsInput t))
    as (Es & Ei & Ek & _).
  unfold dispatched. cbn [buns].
  change (aryztaState (typed st t)) with (aryztaState st).
  change (week (typed st t)) with (week st).
  change (buns (playerOrder (typed st t))) with (bunsInput t).
  rewrite Ei, Ek, Es. repeat split; try lia.
Qed.

Lemma mcd_negative_order_ships_negative_witness :
  let t := mkTurn (-100) 0 0 (mkTurnInput Failed Failed 0) in
  let st' := playTurn initial t in
  buns (dispatched initial t) = bunsInput t
  /\ Supplier.inventory (aryztaState st')
     = Supplier.inventory (aryztaState initial)
       + arrivingAmount (week initial) (aryztaState initial) - bunsInput t
  /\ Supplier.backlog (aryztaState st') = 0
  /\ shipments st'
     = shipments initial
       ++ [mkShipment (week initial + 1 + LEAD_TIME) (dispatched initial t)].
Proof.
  apply (@mcd_negative_order_ships_negative initial
           (mkTurn (-100) 0 0 (mkTurnInput Failed Failed 0)));
    vm_compute; congruence.
Defined.

(** *** The week counter *)

Definition Dated (st : State) : Prop :=
  1 <= week st <= MAX_WEEKS
  /\ gameOver st = (week st =? MAX_WEEKS)
  /\ Z.of_nat (length (history st)) = week st.

Lemma Dated_step st ev : Dated st -> Dated (step st ev).
Proof.
  intros D. pose proof D as (Hw & Hg & Hh). unfold step.
  destruct (gameOver st) eqn:G; [exact D|].
  destruct (turnPhase st); try exact D.
  destruct ev as [item v | inp]; [exact D|].
  unfold startTurnSequence.
  destruct (week st >=? MAX_WEEKS); [exact D|].
  symmetry in Hg. apply Z.eqb_neq in Hg.
  match goal with
  | |- Dated (resolveWeek ?s ?a ?t ?r) =>
      destruct (resolveWeek_clock s a t r) as (Ew & Eg & _ & Eh)
  end.
  apply (f_equal (@length Z)) in Eh.
  rewrite length_app, !length_map in Eh. cbn [length] in Eh.
  unfold Dated. rewrite Ew, Eg, Eh, G. unfold MAX_WEEKS in *.
  repeat split; try lia.
  now destruct (week st + 1 =? 20).
Qed.

Lemma Dated_run evs : forall st, Dated st -> Dated (run st evs).
Proof.
  unfold run. induction evs as [|ev evs IH]; intros st D; cbn [fold_left];
    auto.
  apply IH. now apply Dated_step.
Qed.

(** X15.  The week counter stays within 1 to 20 and the game is over
    exactly at 20.  In every state the interface can reach, [week] lies
    between 1 and [MAX_WEEKS], [gameOver] is set exactly when it has
    reached [MAX_WEEKS], and the history holds one row per week
    started. *)
Theorem mcd_week_bounds evs :
  let st := run initial evs in
  1 <= week st <= MAX_WEEKS
  /\ gameOver st = (week st =? MAX_WEEKS)
  /\ Z.of_nat (length (history st)) = week st.
Proof.
  cbv zeta. apply Dated_run. unfold Dated, MAX_WEEKS. simpl.
  repeat split; lia.
Qed.
End McdFurther.

(** ** The semiconductor game *)

Section NvidiaFurther.
Import Nvidia.

Lemma validateOrder_rejects value :
  parsed value < 0 \/ COMPONENT_CAPACITY_PER_WEEK < parsed value ->
  isEmpty (validateOrder value) = false.
Proof.
  intros H. unfold validateOrder.
  destruct (Z.ltb_spec (parsed value) 0); [reflexivity|].
  rewrite Z.gtb_ltb.
  destruct (Z.ltb_spec COMPONENT_CAPACITY_PER_WEEK (parsed value));
    [reflexivity | lia].
Qed.

(** X16.  An order outside [0, 2000] resolves nothing.  When either
    box holds a negative number or more than the supplier capacity,
    submitting leaves the week, the player, the suppliers and the
    history as they were: only the boxes and their error messages
    change. *)
Theorem nvidia_invalid_order_blocks apiKey st t k :
  gameState st = PLAY ->
  parsed (inputOf t k) < 0
  \/ COMPONENT_CAPACITY_PER_WEEK < parsed (inputOf t k) ->
  let st' := playTurn apiKey st t in
  st' = typed st t
  /\ week st' = week st /\ gameState st' = PLAY
  /\ player st' = player st /\ suppliers st' = suppliers st
  /\ history st' = history st.
Proof.
  intros Hg Hbad. cbv zeta.
  assert (E : playTurn apiKey st t = typed st t).
  { unfold playTurn.
    assert (E1 : step apiKey st (EInput cowos (cowosInput t))
                 = handleInputChange st cowos (cowosInput t)).
    { unfold step. now rewrite Hg. }
    rewrite E1.
    assert (E2 : step apiKey (handleInputChange st cowos (cowosInput t))
                      (EInput hbm (hbmInput t)) = typed st t).
    { unfold step. cbn [gameState handleInputChange]. now rewrite Hg. }
    rewrite E2. unfold step.
    change (gameState (typed st t)) with (gameState st). rewrite Hg.
    change (ofCowos (errors (typed st t))) with (validateOrder (cowosInput t)).
    change (ofHbm (errors (typed st t))) with (validateOrder (hbmInput t)).
    apply validateOrder_rejects in Hbad.
    destruct k; cbn [inputOf] in Hbad; rewrite Hbad;
      [reflexivity | now rewrite andb_false_r]. }
  rewrite E. repeat split; auto.
Qed.

Lemma nvidia_invalid_order_blocks_witness :
  let t := mkTurn (Some 100) (Some (-5)) (Failed, Failed) in
  let st' := playTurn EmptyString started t in
  st' = typed started t
  /\ week st' = week started /\ gameState st' = PLAY
  /\ player st' = player started /\ suppliers st' = suppliers started
  /\ history st' = history started.
Proof.
  apply (@nvidia_invalid_order_blocks EmptyString started
           (mkTurn (Some 100) (Some (-5)) (Failed, Failed)) hbm).
  - reflexivity.
  - left. simpl. lia.
Defined.

(** *** Quantities along a game *)

Definition supplierSound (sup : Supplier.t) : Prop :=
  Js.nonneg (Supplier.inventory sup) /\ Js.nonneg (Supplier.backlog sup)
  /\ Forall (fun p => Js.nonneg (amount p)) (Supplier.pipeline sup)
  /\ Js.nonneg (Supplier.lastOrder sup) /\ Js.nonneg (shippedOf sup).

Definition playerSound (p : Player.t) : Prop :=
  Js.nonneg (ofCowos (Player.inventory p))
  /\ Js.nonneg (ofHbm (Player.inventory p))
  /\ Js.nonneg (Player.backlog p) /\ Js.nonneg (Player.cash p)
  /\ Forall (fun i => Js.nonneg (quantity i)) (Player.pipeline p).

(** The error shown under a box is the verdict on what the box holds,
    and no error is left when the game has ended. *)
Definition boxesChecked (st : State) : Prop :=
  (forall k, get (errors st) k = validateOrder (get (orders st) k))
  /\ (gameState st = END -> forall k, get (errors st) k = EmptyString).

Definition Sound (st : State) : Prop :=
  boxesChecked st
  /\ (forall k, supplierSound (get (suppliers st) k))
  /\ playerSound (player st).

(** A remote answer that is a failure or carries an order. *)
Definition carriesOrder (remote : Remote) : Prop :=
  match remote with
  | Replied o _ => Js.isNum o
  | Failed => True
  end.

(** An event whose remote answers, if it has any, carry an order. *)
Definition answered (ev : Event) : Prop :=
  match ev with
  | ESubmit replies => carriesOrder (fst replies) /\ carriesOrder (snd replies)
  | _ => True
  end.

Lemma decision_nonneg apiKey backlog incomingDemand remote :
  isEmpty apiKey = true \/ carriesOrder remote ->
  Js.nonneg backlog -> 0 <= incomingDemand ->
  Js.nonneg (order (getAITurn apiKey backlog incomingDemand remote)).
Proof.
  intros Hk Hb Hd. unfold getAITurn.
  destruct (isEmpty apiKey); [exact Hd|].
  destruct Hk as [Hk | Hk]; [discriminate|].
  destruct (@Js.nonneg_Int _ Hb) as (b & -> & Hb').
  destruct remote as [|o r]; cbn [order].
  - assert (0 <= Js.floor (inject_Z b * (1 # 2))).
    { unfold Js.floor. change 0 with (Qfloor 0). apply Qfloor_resp_le.
      apply Qmult_le_0_compat; [|discriminate].
      change 0%Q with (inject_Z 0). now rewrite <- Zle_Qle. }
    cbn [Js.apply Js.add Js.lift Js.nonneg]. lia.
  - destruct o as [|o]; [contradiction|].
    cbn [Js.min Js.max Js.lift Js.nonneg]. lia.
Qed.

Lemma arrivingRaw_nonneg sup wk :
  Forall (fun p => Js.nonneg (amount p)) (Supplier.pipeline sup) ->
  Js.nonneg (arrivingRaw sup wk).
Proof.
  intros H. unfold arrivingRaw. apply Js.sumNum_nonneg.
  apply Forall_forall. intros p Hp. apply filter_In in Hp.
  exact (proj1 (Forall_forall _ _) H p (proj1 Hp)).
Qed.

Lemma arriving_nonneg p k wk :
  Forall (fun i => Js.nonneg (quantity i)) (Player.pipeline p) ->
  Js.nonneg (arriving p k wk).
Proof.
  intros H. unfold arriving. apply Js.sumNum_nonneg.
  apply Forall_forall. intros i Hi. apply filter_In in Hi.
  exact (proj1 (Forall_forall _ _) H i (proj1 Hi)).
Qed.

Lemma updateSupplier_sound st k playerOrder aiDecision :
  0 <= playerOrder -> Js.nonneg (order aiDecision) ->
  supplierSound (get (suppliers st) k) ->
  supplierSound (updateSupplier st k playerOrder aiDecision).
Proof.
  intros Ho Hd (Hi & Hb & Hp & _ & _).
  pose proof (@arrivingRaw_nonneg (get (suppliers st) k) (week st) Hp) as Ha.
  unfold supplierSound, updateSupplier, shippedOf.
  cbn [Supplier.inventory Supplier.backlog Supplier.pipeline
       Supplier.lastOrder Supplier.lastShipped].
  destruct (@Js.nonneg_Int _ Hi) as (i & -> & Hi').
  destruct (@Js.nonneg_Int _ Hb) as (b & -> & Hb').
  destruct (@Js.nonneg_Int _ Ha) as (a & -> & Ha').
  cbn [Js.add Js.sub Js.min Js.lift Js.nonneg].
  split; [lia|]. split; [lia|]. split; [|split; [exact Hd | lia]].
  apply Forall_app. split; [exact Hp|]. repeat constructor. exact Hd.
Qed.

Lemma schedule_nonneg n : 0 <= nth n DEMAND_SCHEDULE 0.
Proof.
  apply Js.nth_nonneg. unfold DEMAND_SCHEDULE.
  repeat constructor; lia.
Qed.

Lemma finalizeTurn_sound st c h dc dh :
  0 <= c -> 0 <= h -> Js.nonneg (order dc) -> Js.nonneg (order dh) ->
  (forall k, supplierSound (get (suppliers st) k)) ->
  playerSound (player st) ->
  (forall k, supplierSound (get (suppliers (finalizeTurn st c h dc dh)) k))
  /\ playerSound (player (finalizeTurn st c h dc dh)).
Proof.
  intros Hc Hh Hdc Hdh Hs (Pc & Ph & Pb & Pm & Pp).
  pose proof (@updateSupplier_sound st cowos c dc Hc Hdc (Hs cowos)) as Sc.
  pose proof (@updateSupplier_sound st hbm h dh Hh Hdh (Hs hbm)) as Sh.
  pose proof (schedule_nonneg (Z.to_nat (week st - 1))) as Hm.
  pose proof (@arriving_nonneg (player st) cowos (week st) Pp) as Ac.
  pose proof (@arriving_nonneg (player st) hbm (week st) Pp) as Ah.
  split.
  - intros k. unfold finalizeTurn. cbn [suppliers]. destruct k; assumption.
  - unfold playerSound, finalizeTurn.
    cbn [player Player.inventory Player.backlog Player.cash Player.pipeline
         ofCowos ofHbm].
    unfold HOLDING_COST_PER_UNIT, BACKLOG_COST_PER_UNIT.
    destruct (@Js.nonneg_Int _ Pc) as (ic & -> & Pc').
    destruct (@Js.nonneg_Int _ Ph) as (ih & -> & Ph').
    destruct (@Js.nonneg_Int _ Pb) as (b & -> & Pb').
    destruct (@Js.nonneg_Int _ Pm) as (m & -> & Pm').
    destruct (@Js.nonneg_Int _ Ac) as (ac & -> & Ac').
    destruct (@Js.nonneg_Int _ Ah) as (ah & -> & Ah').
    cbn [Js.add Js.sub Js.mul Js.min Js.lift Js.nonneg].
    split; [lia|]. split; [lia|]. split; [lia|]. split; [lia|].
    apply Forall_app. split; [exact Pp|].
    repeat constructor; cbn [quantity];
      [apply Sc | apply Sh].
Qed.

Lemma Sound_initial : Sound initial.
Proof.
  split; [split|split].
  - intros []; reflexivity.
  - discriminate.
  - intros []; unfold supplierSound, shippedOf; simpl;
      unfold INITIAL_INVENTORY; repeat split; try lia; constructor.
  - unfold playerSound. simpl. unfold INITIAL_INVENTORY.
    repeat split; try lia. constructor.
Qed.

Lemma Sound_step apiKey st ev :
  isEmpty apiKey = true \/ answered ev ->
  Sound st -> Sound (step apiKey st ev).
Proof.
  intros Hk S. pose proof S as ((Be & Bend) & Hs & Hp).
  unfold step.
  destruct (gameState st) eqn:Hg; destruct ev as [|k value|replies|];
    try exact S.
  - (* START, start *)
    split; [split|split]; auto. discriminate.
  - (* PLAY, input *)
    split; [split|split]; auto.
    + intros k'. unfold handleInputChange. cbn [errors orders].
      destruct k, k'; cbn [get set ofCowos ofHbm]; auto;
        [apply (Be hbm) | apply (Be cowos)].
    + unfold handleInputChange. cbn [gameState]. rewrite Hg. discriminate.
  - (* PLAY, submit *)
    destruct (isEmpty (ofCowos (errors st)) && isEmpty (ofHbm (errors st)))
      eqn:Herr; [|exact S].
    apply andb_true_iff in Herr. destruct Herr as [Ec Eh].
    assert (Ec' : validateOrder (ofCowos (orders st)) = EmptyString).
    { pose proof (Be cowos) as B. cbn [get] in B. rewrite <- B.
      now destruct (ofCowos (errors st)). }
    assert (Eh' : validateOrder (ofHbm (orders st)) = EmptyString).
    { pose proof (Be hbm) as B. cbn [get] in B. rewrite <- B.
      now destruct (ofHbm (errors st)). }
    apply validateOrder_ok in Ec'. apply validateOrder_ok in Eh'.
    unfold handlePlayerSubmit.
    destruct ((parsed (ofCowos (orders st)) >? COMPONENT_CAPACITY_PER_WEEK)
              || (parsed (ofHbm (orders st)) >? COMPONENT_CAPACITY_PER_WEEK));
      [exact S|].
    destruct (Hs cowos) as (_ & Bc & _). destruct (Hs hbm) as (_ & Bh & _).
    cbn [get] in Bc, Bh.
    assert (Kc : isEmpty apiKey = true \/ carriesOrder (fst replies))
      by (destruct Hk as [Hk | [Hk _]]; auto).
    assert (Kh : isEmpty apiKey = true \/ carriesOrder (snd replies))
      by (destruct Hk as [Hk | [_ Hk]]; auto).
    match goal with
    | |- Sound (finalizeTurn st ?c ?h ?dc ?dh) =>
        destruct (@finalizeTurn_sound st c h dc dh) as [Hs' Hp']; auto;
          try lia;
          try (apply decision_nonneg; [assumption | assumption | lia])
    end.
    split; [split|split]; [ | |exact Hs'|exact Hp'].
    + intros k. unfold finalizeTurn. cbn [errors orders]. apply Be.
    + intros _ k. unfold finalizeTurn. cbn [errors].
      destruct k; cbn [get].
      * now destruct (ofCowos (errors st)).
      * now destruct (ofHbm (errors st)).
  - (* END, restart *)
    split; [split|split].
    + intros k. unfold restartGame. cbn [errors orders].
      rewrite (Bend eq_refl k). now destruct k.
    + discriminate.
    + intros k. destruct (Hs k) as (_ & _ & _ & Hl & Hsh).
      unfold restartGame. cbn [suppliers].
      destruct k; cbn [get ofCowos ofHbm] in *;
        unfold supplierSound, shippedOf in *;
        cbn [Supplier.inventory Supplier.backlog Supplier.pipeline
             Supplier.lastOrder Supplier.lastShipped Js.nonneg];
        unfold INITIAL_INVENTORY; repeat split; try lia; auto.
    + unfold restartGame. cbn [player]. unfold playerSound. simpl.
      unfold INITIAL_INVENTORY. repeat split; try lia. constructor.
Qed.

Lemma Sound_run apiKey evs : forall st,
  isEmpty apiKey = true \/ Forall answered evs ->
  Sound st -> Sound (fold_left (step apiKey) evs st).
Proof.
  induction evs as [|ev evs IH]; intros st Hk S; cbn [fold_left]; auto.
  apply IH.
  - destruct Hk as [Hk | Hk]; [now left | right; now inversion Hk].
  - apply Sound_step; [|exact S].
    destruct Hk as [Hk | Hk]; [now left | right; now inversion Hk].
Qed.

(** X17.  No quantity of the game is negative or [NaN] as long as the
    agents' orders are numbers.  From the opening screen, whatever is
    typed and clicked, if no key is configured (the file as shipped) or
    every answer of the remote service is a failure or carries an
    order, every state has non-negative inventories and backlogs at
    the suppliers and at the player, a non-negative cash total,
    non-negative production orders and shipments, and only
    non-negative amounts in every pipeline. *)
Theorem nvidia_quantities_nonneg apiKey evs :
  apiKey = EmptyString \/ Forall answered evs ->
  let st := fold_left (step apiKey) evs initial in
  (forall k, supplierSound (get (suppliers st) k))
  /\ playerSound (player st).
Proof.
  intros Hk. cbv zeta.
  refine (proj2 (@Sound_run apiKey evs initial _ Sound_initial)).
  destruct Hk as [-> | Hk]; [now left | now right].
Qed.

Lemma nvidia_quantities_nonneg_witness :
  let evs :=
    [EStart; EInput cowos (Some 300);
     ESubmit (Replied (Js.Int 2500) "stock up", Failed)] in
  let st := fold_left (step "key") evs initial in
  (forall k, supplierSound (get (suppliers st) k))
  /\ playerSound (player st).
Proof.
  apply (@nvidia_quantities_nonneg "key"
           [EStart; EInput cowos (Some 300);
            ESubmit (Replied (Js.Int 2500) "stock up", Failed)]).
  right. repeat constructor.
Defined.

(** *** The cash total *)

Definition Booked (st : State) : Prop :=
  Player.cash (player st) = Js.sumNum cost (history st)
  /\ last (map cumCost (history st)) (Js.Int 0) = Player.cash (player st).

Lemma Booked_step apiKey st ev : Booked st -> Booked (step apiKey st ev).
Proof.
  intros B. unfold step.
  destruct (gameState st); destruct ev as [|k value|replies|];
    try exact B.
  - destruct (isEmpty (ofCowos (errors st)) && isEmpty (ofHbm (errors st)));
      [|exact B].
    unfold handlePlayerSubmit.
    destruct ((parsed (ofCowos (orders st)) >? COMPONENT_CAPACITY_PER_WEEK)
              || (parsed (ofHbm (orders st)) >? COMPONENT_CAPACITY_PER_WEEK));
      [exact B|].
    destruct B as [Bs _]. unfold Booked, finalizeTurn.
    cbn [player history Player.cash].
    rewrite map_app. cbn [map]. rewrite last_last.
    rewrite Js.sumNum_app, Js.sumNum_cons, Js.sumNum_nil, Js.add_0_r.
    cbn [cost cumCost]. rewrite Bs. split; reflexivity.
  - split; reflexivity.
Qed.

Lemma Booked_run apiKey evs : forall st,
  Booked st -> Booked (fold_left (step apiKey) evs st).
Proof.
  induction evs as [|ev evs IH]; intros st B; cbn [fold_left]; auto.
  apply IH. now apply Booked_step.
Qed.

(** X18.  The cash total is the sum of the weekly costs on record.  In
    every state reachable from the opening screen, restarts included,
    [player.cash] equals the sum of the [cost] fields of the history
    rows, and the [cumCost] of the latest row is that total. *)
Theorem nvidia_cash_sums_costs apiKey evs :
  let st := fold_left (step apiKey) evs initial in
  Player.cash (player st) = Js.sumNum cost (history st)
  /\ last (map cumCost (history st)) (Js.Int 0) = Player.cash (player st).
Proof.
  cbv zeta. apply Booked_run. split; reflexivity.
Qed.

(** *** Deliveries to the player (semiconductor game) *)

(** What supplier [k] ships to the player in a turn. *)
Definition shippedToPlayer (apiKey : string) (k : Kind) (st : State) (t : Turn)
  : Js.Num :=
  shippedOf (updateSupplier (typed st t) k (parsed (inputOf t k))
                            (decisionOf apiKey st t k)).

Definition InTransit (k : Kind) (st : State) (amounts : list Js.Num) : Prop :=
  filter (fun i => Kind_eqb (type i) k) (Player.pipeline (player st))
  = NumLedger.entries (fun d a => mkIncoming d k a) (1 + LEAD_TIME) amounts
  /\ ((length amounts < horizon)%nat ->
      gameState st = PLAY /\ week st = 1 + Z.of_nat (length amounts)).

Lemma inTransit_arrives k st amounts :
  InTransit k st amounts -> (length amounts < horizon)%nat ->
  arriving (player st) k (week st)
  = nth (length amounts) (NumLedger.delayed amounts) (Js.Int 0).
Proof.
  intros [Hq Hc] Hlen. destruct (Hc Hlen) as [_ Hw].
  unfold arriving. rewrite <- Js.filter_filter, Hq.
  rewrite (NumLedger.num_filter_entries (fun d a => mkIncoming d k a) dueWeek)
    by reflexivity.
  rewrite <- (@NumLedger.num_delayed_window (1 + LEAD_TIME) (week st) amounts)
    by (unfold LEAD_TIME; lia).
  destruct (NumLedger.inWindow (1 + LEAD_TIME) (week st) amounts).
  - rewrite Js.sumNum_cons, Js.sumNum_nil. cbn [quantity]. apply Js.add_0_r.
  - reflexivity.
Qed.

Lemma inTransit_step apiKey k st amounts t :
  InTransit k st amounts -> (length amounts < horizon)%nat -> validTurn t ->
  InTransit k (playTurn apiKey st t) (amounts ++ [shippedToPlayer apiKey k st t]).
Proof.
  intros [Hq Hc] Hlen Hv. destruct (Hc Hlen) as [Hg Hw].
  rewrite (@playTurn_play apiKey st t Hg Hv).
  unfold InTransit, horizon in *. split.
  - rewrite NumLedger.num_entries_snoc. rewrite <- Hq.
    replace (1 + LEAD_TIME + Z.of_nat (length amounts))
      with (week st + LEAD_TIME) by lia.
    unfold finalizeTurn. cbn [player Player.pipeline].
    change (player (typed st t)) with (player st).
    change (week (typed st t)) with (week st).
    rewrite filter_app. unfold shippedToPlayer.
    destruct k; reflexivity.
  - rewrite length_app. cbn [length]. intros Hlen'.
    unfold finalizeTurn. cbn [gameState week].
    change (week (typed st t)) with (week st).
    replace (week st >=? MAX_WEEKS) with false
      by (symmetry; rewrite Z.geb_leb; apply Z.leb_gt;
          unfold MAX_WEEKS; lia).
    split; [reflexivity | lia].
Qed.

Lemma inTransit_started k : InTransit k started [].
Proof. split; [reflexivity | intros _; split; reflexivity]. Qed.

(** X19.  What a supplier ships reaches the player two turns later.
    Along any game of valid turns, the components of a kind added to
    the player's stock in a turn are those the supplier shipped two
    turns earlier, and none in the first two turns; so the arrivals
    plus the last two shipments account for everything shipped. *)
Theorem nvidia_deliveries_exact apiKey k turns :
  (length turns <= horizon)%nat -> Forall validTurn turns ->
  let arrived :=
    NumLedger.releasedTrace (playTurn apiKey)
      (fun st => arriving (player st) k (week st)) started turns in
  let sent :=
    NumLedger.scheduledTrace (playTurn apiKey) (shippedToPlayer apiKey k)
                             started turns in
  arrived = firstn (length turns) (NumLedger.delayed sent)
  /\ Js.add (NumLedger.total arrived)
            (NumLedger.total (skipn (length turns - 2) sent))
     = NumLedger.total sent.
Proof.
  intros Hlen Hv. cbv zeta.
  apply (@NumLedger.num_releasedTrace_total State Turn (playTurn apiKey)
           (fun st => arriving (player st) k (week st))
           (shippedToPlayer apiKey k) horizon validTurn (InTransit k)
           (@inTransit_arrives k) (@inTransit_step apiKey k));
    [apply inTransit_started | exact Hlen | exact Hv].
Qed.

Lemma nvidia_deliveries_exact_witness :
  let arrived :=
    NumLedger.releasedTrace (playTurn EmptyString)
      (fun st => arriving (player st) hbm (week st)) started nvidiaGame5 in
  let sent :=
    NumLedger.scheduledTrace (playTurn EmptyString)
      (shippedToPlayer EmptyString hbm) started nvidiaGame5 in
  arrived = firstn (length nvidiaGame5) (NumLedger.delayed sent)
  /\ Js.add (NumLedger.total arrived)
            (NumLedger.total (skipn (length nvidiaGame5 - 2) sent))
     = NumLedger.total sent.
Proof.
  apply (@nvidia_deliveries_exact EmptyString hbm nvidiaGame5).
  - vm_compute. repeat constructor.
  - exact nvidiaGame5_valid.
Defined.

(** *** The shipped configuration *)

Lemma keyless_schedule turns : forall st,
  NumLedger.scheduledTrace (playTurn EmptyString) (scheduled EmptyString cowos)
                           st turns
  = map (fun t => Js.Int (parsed (cowosInput t))) turns
  /\ NumLedger.scheduledTrace (playTurn EmptyString)
                              (scheduled EmptyString hbm) st turns
     = map (fun t => Js.Int (parsed (hbmInput t))) turns.
Proof.
  induction turns as [|t turns IH]; intros st;
    cbn [NumLedger.scheduledTrace map]; [split; reflexivity|].
  destruct (IH (playTurn EmptyString st t)) as [-> ->].
  split; reflexivity.
Qed.

(** X20.  Without a key a supplier produces what the player ordered.
    With the empty key the file ships with, along any game of valid
    turns the raw material reaching a supplier in a turn is the
    player's order for that component two turns earlier, and nothing
    in the first two turns, whatever the remote service would
    answer. *)
Theorem nvidia_keyless_supply_follows_orders k turns :
  (length turns <= horizon)%nat -> Forall validTurn turns ->
  NumLedger.releasedTrace (playTurn EmptyString) (released k) started turns
  = firstn (length turns)
      (NumLedger.delayed
         (map (fun t => Js.Int (parsed (inputOf t k))) turns)).
Proof.
  intros Hlen Hv.
  destruct (@raw_queue_exact EmptyString k turns Hlen Hv) as [E _].
  rewrite E. destruct (keyless_schedule turns started) as [Ec Eh].
  destruct k; cbn [inputOf]; [now rewrite Ec | now rewrite Eh].
Qed.

Lemma nvidia_keyless_supply_follows_orders_witness :
  NumLedger.releasedTrace (playTurn EmptyString) (released hbm) started
                          nvidiaGame5
  = firstn (length nvidiaGame5)
      (NumLedger.delayed
         (map (fun t => Js.Int (parsed (inputOf t hbm))) nvidiaGame5)).
Proof.
  apply (@nvidia_keyless_supply_follows_orders hbm nvidiaGame5).
  - vm_compute. repeat constructor.
  - exact nvidiaGame5_valid.
Defined.
End NvidiaFurther.

(** ** The earlier semiconductor component *)

Section BlackwellFurther.
Import Blackwell.

Definition supplierPositive (sup : Supplier.t) : Prop :=
  0 <= Supplier.inventory sup /\ 0 <= Supplier.backlog sup
  /\ Forall (fun p => 0 < Production.amount p)
            (Supplier.incomingProduction sup).

Definition Positive (st : State) : Prop :=
  0 <= ofCowos (inventory st) /\ 0 <= ofHbm (inventory st)
  /\ 0 <= blackwellBacklog st
  /\ 0 <= total (score st)
  /\ Forall (fun s => 0 < Shipment.amount s) (userShipments st)
  /\ (forall k, supplierPositive (get (suppliers st) k))
  /\ Forall (fun row => 0 <= ordersCoWoS row /\ 0 <= ordersHBM row)
            (history st).

Lemma processSupplier_positive wk ships type userOrder aiDecision cur :
  Forall (fun s => 0 < Shipment.amount s) ships ->
  Forall (fun p => 0 < Production.amount p)
         (Supplier.incomingProduction cur) ->
  let result := processSupplier wk ships type userOrder aiDecision cur in
  supplierPositive (fst (fst result))
  /\ Forall (fun s => 0 < Shipment.amount s) (snd result).
Proof.
  intros Hs Hq. cbv zeta. unfold processSupplier, supplierPositive.
  cbn [fst snd Supplier.inventory Supplier.backlog
       Supplier.incomingProduction].
  assert (Hpend : Forall (fun p => 0 < Production.amount p)
                    (filter (fun p => negb (dueNow wk p))
                            (Supplier.incomingProduction cur))).
  { apply Forall_forall. intros p Hp. apply filter_In in Hp.
    exact (proj1 (Forall_forall _ _) Hq p (proj1 Hp)). }
  repeat split; try lia.
  - destruct (Z.gtb_spec (order aiDecision) 0); [|exact Hpend].
    apply Forall_app. split; [exact Hpend|]. repeat constructor.
    cbn [Production.amount]. lia.
  - match goal with
    | |- context [?c >? 0] => destruct (Z.gtb_spec c 0)
    end; [|exact Hs].
    apply Forall_app. split; [exact Hs|]. repeat constructor.
    cbn [Shipment.amount]. lia.
Qed.

Lemma resolveWeek_books st dc dh :
  week st <= MAX_WEEKS ->
  let st' := resolveWeek st dc dh in
  let first :=
    processSupplier (week st) (userShipments st) cowos
                    (ofCowos (orders st)) dc (ofCowos (suppliers st)) in
  let second :=
    processSupplier (week st) (snd first) hbm
                    (ofHbm (orders st)) dh (ofHbm (suppliers st)) in
  let weeklyCost :=
    (ofCowos (inventory st') + ofHbm (inventory st')) * HOLDING_COST
    + blackwellBacklog st' * BACKLOG_COST in
  suppliers st' = mkBoth (fst (fst first)) (fst (fst second))
  /\ userShipments st' = snd second
  /\ score st' = mkScore weeklyCost (total (score st) + weeklyCost)
  /\ exists row,
      history st' = history st ++ [row]
      /\ ordersCoWoS row = ofCowos (orders st)
      /\ ordersHBM row = ofHbm (orders st)
      /\ cost row = weeklyCost.
Proof.
  intros Hw. cbv zeta. unfold resolveWeek.
  replace (week st >? MAX_WEEKS) with false
    by (symmetry; rewrite Z.gtb_ltb; apply Z.ltb_ge; lia).
  destruct (fold_left receiveShipment _ _) as [rc rh].
  unfold processSupplier.
  cbn [suppliers userShipments score history inventory blackwellBacklog
       ofCowos ofHbm fst snd].
  repeat split. eexists. repeat split.
Qed.

Lemma resolveWeek_positive st dc dh :
  0 <= ofCowos (orders st) -> 0 <= ofHbm (orders st) ->
  Positive st -> Positive (resolveWeek st dc dh).
Proof.
  intros Hoc Hoh S.
  destruct (Z.leb_spec (week st) MAX_WEEKS) as [Hw | Hw].
  2:{ unfold resolveWeek.
      replace (week st >? MAX_WEEKS) with true
        by (symmetry; rewrite Z.gtb_ltb; apply Z.ltb_lt; lia).
      exact S. }
  destruct S as (Ic & Ih & Ib & It & Hu & Hs & Hh).
  destruct (resolveWeek_books st dc dh Hw) as (Es & Eu & Esc & row & Eh & R1 & R2 & _).
  destruct (@resolveWeek_assembles st dc dh Hw) as [Ei Eb].
  destruct (Hs cowos) as (_ & _ & Qc). destruct (Hs hbm) as (_ & _ & Qh).
  cbn [get] in Qc, Qh.
  destruct (@processSupplier_positive (week st) (userShipments st) cowos
              (ofCowos (orders st)) dc (ofCowos (suppliers st)) Hu Qc)
    as [S1 U1].
  destruct (@processSupplier_positive (week st) _ hbm
              (ofHbm (orders st)) dh (ofHbm (suppliers st)) U1 Qh)
    as [S2 U2].
  unfold Positive. rewrite Es, Eu, Esc, Eh, Ei, Eb.
  cbn [ofCowos ofHbm total].
  unfold HOLDING_COST, BACKLOG_COST.
  refine (conj _ (conj _ (conj _ (conj _ (conj _ (conj _ _)))))); try lia.
  - exact U2.
  - intros k. destruct k; assumption.
  - apply Forall_app. split; [exact Hh|]. repeat constructor; lia.
Qed.

Lemma Positive_fresh : Positive (startGame initial).
Proof.
  unfold Positive. simpl. unfold INITIAL_INVENTORY.
  refine (conj _ (conj _ (conj _ (conj _ (conj _ (conj _ _)))))); try lia;
    try (now constructor).
  intros []; unfold supplierPositive; simpl;
    refine (conj _ (conj _ _)); try lia; constructor.
Qed.

Lemma Positive_initial : Positive initial.
Proof.
  unfold Positive. simpl. unfold INITIAL_INVENTORY.
  refine (conj _ (conj _ (conj _ (conj _ (conj _ (conj _ _)))))); try lia;
    try (now constructor).
  intros []; unfold supplierPositive; simpl;
    refine (conj _ (conj _ _)); try lia; constructor.
Qed.

Lemma Positive_step apiKey st ev : Positive st -> Positive (step apiKey st ev).
Proof.
  intros S. unfold step. destruct ev as [|k v|replies].
  - destruct (gameState st); try exact S; exact Positive_fresh.
  - destruct (turnPhase st); exact S.
  - destruct (canSubmit st) eqn:C; [|exact S].
    unfold canSubmit in C. rewrite !andb_true_iff, !Z.geb_leb in C.
    destruct C as [[Cc Ch] _].
    apply Z.leb_le in Cc. apply Z.leb_le in Ch.
    unfold handlePlayerSubmit.
    destruct (gameState st); try exact S.
    destruct (turnPhase st); try exact S.
    unfold aiTurn. now apply resolveWeek_positive.
Qed.

Lemma Positive_run apiKey evs : forall st,
  Positive st -> Positive (fold_left (step apiKey) evs st).
Proof.
  induction evs as [|ev evs IH]; intros st S; cbn [fold_left]; auto.
  apply IH. now apply Positive_step.
Qed.

(** X21.  Nothing negative, and nothing empty in a queue.  From the
    opening screen, whatever is typed, clicked and answered by the
    remote service, every state has non-negative inventories and
    backlogs at the player and at both suppliers and a non-negative
    score; every shipment under way to the player and every production
    batch under way to a supplier is strictly positive, a zero or
    negative one never being queued; and every week on record was
    resolved with non-negative orders of the player. *)
Theorem blackwell_quantities_sound apiKey evs :
  let st := fold_left (step apiKey) evs initial in
  0 <= ofCowos (inventory st) /\ 0 <= ofHbm (inventory st)
  /\ 0 <= blackwellBacklog st
  /\ 0 <= total (score st)
  /\ Forall (fun s => 0 < Shipment.amount s) (userShipments st)
  /\ (forall k, supplierPositive (get (suppliers st) k))
  /\ Forall (fun row => 0 <= ordersCoWoS row /\ 0 <= ordersHBM row)
            (history st).
Proof.
  cbv zeta. exact (@Positive_run apiKey evs initial Positive_initial).
Qed.

(** *** The score *)

Definition Scored (st : State) : Prop :=
  total (score st) = Js.sumOf cost (history st)
  /\ current (score st) = last (map cost (history st)) 0.

Lemma Scored_step apiKey st ev : Scored st -> Scored (step apiKey st ev).
Proof.
  intros B. unfold step. destruct ev as [|k v|replies].
  - destruct (gameState st); try exact B; split; reflexivity.
  - destruct (turnPhase st); exact B.
  - destruct (canSubmit st); [|exact B].
    unfold handlePlayerSubmit.
    destruct (gameState st); try exact B.
    destruct (turnPhase st); try exact B.
    unfold aiTurn.
    match goal with
    | |- Scored (resolveWeek st ?dc ?dh) =>
        destruct (Z.leb_spec (week st) MAX_WEEKS) as [Hw | Hw];
          [destruct (resolveWeek_books st dc dh Hw)
             as (_ & _ & Esc & row & Eh & _ & _ & Ec)|]
    end.
    + destruct B as [Bt _]. unfold Scored. rewrite Esc, Eh.
      cbn [total current]. rewrite map_app. cbn [map]. rewrite last_last.
      rewrite Js.sumOf_app, Js.sumOf_cons, Js.sumOf_nil, Ec, Bt.
      split; [lia | reflexivity].
    + unfold resolveWeek.
      replace (week st >? MAX_WEEKS) with true
        by (symmetry; rewrite Z.gtb_ltb; apply Z.ltb_lt; lia).
      exact B.
Qed.

Lemma Scored_run apiKey evs : forall st,
  Scored st -> Scored (fold_left (step apiKey) evs st).
Proof.
  induction evs as [|ev evs IH]; intros st B; cbn [fold_left]; auto.
  apply IH. now apply Scored_step.
Qed.

(** X22.  The score is the sum of the weekly costs on record.  In
    every state reachable from the opening screen, new games included,
    [score.total] equals the sum of the [cost] fields of the history
    rows and [score.current] is the cost of the latest row. *)
Theorem blackwell_score_sums_costs apiKey evs :
  let st := fold_left (step apiKey) evs initial in
  total (score st) = Js.sumOf cost (history st)
  /\ current (score st) = last (map cost (history st)) 0.
Proof.
  cbv zeta. apply Scored_run. split; reflexivity.
Qed.

(** *** Deliveries to the player *)

Definition isKind (k : Kind) (s : Shipment.t) : bool :=
  match k, Shipment.type s with
  | cowos, cowos | hbm, hbm => true
  | _, _ => false
  end.

(** What the loop over the arriving shipments adds to the stock of
    component [k] in the week being resolved. *)
Definition arrivals (st : State) (k : Kind) : Z :=
  let received :=
    fold_left receiveShipment
      (filter (fun s => Shipment.arrivalWeek s =? week st) (userShipments st))
      (ofCowos (inventory st), ofHbm (inventory st)) in
  match k with
  | cowos => fst received - ofCowos (inventory st)
  | hbm => snd received - ofHbm (inventory st)
  end.

(** What supplier [k] puts on the way to the player in a turn: the
    quantity it can ship when that is positive, nothing otherwise. *)
Definition sentToPlayer (apiKey : string) (k : Kind) (st : State) (t : Turn)
  : Z :=
  let canShip :=
    snd (fst (processSupplier (week st) [] k (inputOf t k)
                              (decisionOf apiKey st t k)
                              (get (suppliers st) k))) in
  if canShip >? 0 then canShip else 0.

Lemma receive_sums (l : list Shipment.t) : forall c h,
  fold_left receiveShipment l (c, h)
  = (c + Js.sumOf Shipment.amount (filter (isKind cowos) l),
     h + Js.sumOf Shipment.amount (filter (isKind hbm) l)).
Proof.
  induction l as [|s l IH]; intros c h.
  - cbn [fold_left filter]. rewrite !Js.sumOf_nil. f_equal; lia.
  - destruct s as [ty a w]; destruct ty;
      cbn [fold_left filter isKind receiveShipment
           Shipment.type Shipment.amount];
      rewrite IH, Js.sumOf_cons; cbn [Shipment.amount]; f_equal; lia.
Qed.

Lemma arrivals_sum st k :
  arrivals st k
  = Js.sumOf Shipment.amount
      (filter (fun s => Shipment.arrivalWeek s =? week st)
              (filter (isKind k) (userShipments st))).
Proof.
  unfold arrivals. rewrite receive_sums. cbn [fst snd].
  assert (C : forall (f g : Shipment.t -> bool) l,
             filter f (filter g l) = filter g (filter f l)).
  { intros f g l. rewrite !Js.filter_filter. apply filter_ext.
    intros x. apply andb_comm. }
  destruct k; rewrite (C (isKind _)); lia.
Qed.

Lemma processSupplier_ships wk ships type userOrder aiDecision cur :
  let canShip :=
    snd (fst (processSupplier wk [] type userOrder aiDecision cur)) in
  snd (processSupplier wk ships type userOrder aiDecision cur)
  = ships ++ (if canShip >? 0
              then [Shipment.mk type canShip (wk + LEAD_TIME)] else []).
Proof.
  cbv zeta. unfold processSupplier. cbn [fst snd].
  match goal with
  | |- context [?c >? 0] => destruct (c >? 0)
  end; [reflexivity | now rewrite app_nil_r].
Qed.

Definition shipmentOf (k : Kind) (due amount : Z) : Shipment.t :=
  Shipment.mk k amount due.

Definition Transit (k : Kind) (st : State) (amounts : list Z) : Prop :=
  filter (isKind k) (userShipments st)
  = filter (fun s => 0 <? Shipment.amount s)
           (Ledger.entries (shipmentOf k) (1 + LEAD_TIME) amounts)
  /\ Forall (fun a => 0 <= a) amounts
  /\ ((length amounts < horizon)%nat ->
      gameState st = playing /\ turnPhase st = player_turn
      /\ week st = 1 + Z.of_nat (length amounts)).

Lemma transit_arrives k st amounts :
  Transit k st amounts -> (length amounts < horizon)%nat ->
  arrivals st k = nth (length amounts) (Ledger.delayed amounts) 0.
Proof.
  intros (Hq & Hpos & Hc) Hlen. destruct (Hc Hlen) as (_ & _ & Hw).
  rewrite arrivals_sum, Hq, Js.filter_filter.
  rewrite (filter_ext _
             (fun s => (Shipment.arrivalWeek s =? week st)
                       && (0 <? Shipment.amount s)))
    by (intros s; apply andb_comm).
  rewrite <- Js.filter_filter.
  rewrite (Ledger.filter_entries (shipmentOf k) Shipment.arrivalWeek)
    by reflexivity.
  rewrite <- (@Ledger.delayed_window (1 + LEAD_TIME) (week st) amounts)
    by (unfold LEAD_TIME; lia).
  destruct (Ledger.inWindow (1 + LEAD_TIME) (week st) amounts);
    [|reflexivity].
  pose proof (Js.nth_nonneg (Z.to_nat (week st - (1 + LEAD_TIME))) Hpos) as Hn.
  cbn [filter shipmentOf Shipment.amount].
  destruct (Z.ltb_spec 0 (nth (Z.to_nat (week st - (1 + LEAD_TIME))) amounts 0)).
  - unfold Js.sumOf, shipmentOf. cbn [fold_left Shipment.amount]. lia.
  - unfold Js.sumOf. cbn [fold_left]. lia.
Qed.

Lemma transit_step apiKey k st amounts t :
  Transit k st amounts -> (length amounts < horizon)%nat -> validTurn t ->
  Transit k (playTurn apiKey st t) (amounts ++ [sentToPlayer apiKey k st t]).
Proof.
  intros (Hq & Hpos & Hc) Hlen Hv. destruct (Hc Hlen) as (Hg & Hp & Hw).
  rewrite (@turn_resolves apiKey st t Hg Hp Hv).
  assert (Hle : week (typed st t) <= MAX_WEEKS).
  { change (week (typed st t)) with (week st).
    unfold MAX_WEEKS, horizon in *. lia. }
  destruct (resolveWeek_fields (typed st t) (decisionOf apiKey st t cowos)
              (decisionOf apiKey st t hbm) Hle)
    as (Ew & Eg & Ep & _).
  destruct (resolveWeek_books (typed st t) (decisionOf apiKey st t cowos)
              (decisionOf apiKey st t hbm) Hle)
    as (_ & Eu & _).
  change (week (typed st t)) with (week st) in *.
  change (gameState (typed st t)) with (gameState st) in *.
  change (suppliers (typed st t)) with (suppliers st) in *.
  change (userShipments (typed st t)) with (userShipments st) in *.
  change (ofCowos (orders (typed st t))) with (cowosInput t) in *.
  change (ofHbm (orders (typed st t))) with (hbmInput t) in *.
  unfold Transit. split; [|split].
  - rewrite Eu, !processSupplier_ships, !filter_app, Hq,
      Ledger.entries_snoc, filter_app.
    rewrite <- app_assoc. f_equal.
    replace (1 + LEAD_TIME + Z.of_nat (length amounts))
      with (week st + LEAD_TIME) by lia.
    unfold sentToPlayer.
    destruct k; cbn [inputOf get];
      repeat match goal with
             | |- context [?c >? 0] =>
                 rewrite (Z.gtb_ltb c 0); destruct (Z.ltb_spec 0 c)
             end;
      cbn [filter isKind Shipment.type Shipment.amount shipmentOf app];
      repeat match goal with
             | |- context [0 <? ?c] => destruct (Z.ltb_spec 0 c); try lia
             end;
      reflexivity.
  - apply Forall_app. split; [exact Hpos|]. constructor; [|constructor].
    unfold sentToPlayer.
    match goal with
    | |- context [?c >? 0] =>
        rewrite (Z.gtb_ltb c 0); destruct (Z.ltb_spec 0 c); lia
    end.
  - rewrite length_app. cbn [length]. intros Hlen'.
    rewrite Ew, Eg, Ep.
    replace (week st =? MAX_WEEKS) with false
      by (symmetry; apply Z.eqb_neq; unfold MAX_WEEKS, horizon in *; lia).
    repeat split; auto. lia.
Qed.

Lemma transit_at_start k : Transit k started [].
Proof.
  split; [reflexivity | split; [constructor|]].
  intros _. repeat split; reflexivity.
Qed.

Lemma userShipments_kept apiKey st ev :
  ev <> EStartGame ->
  exists added,
    userShipments (step apiKey st ev) = userShipments st ++ added
    /\ Forall (fun s => Shipment.arrivalWeek s = week st + LEAD_TIME) added.
Proof.
  intros Hev.
  assert (Same : exists added,
             userShipments st = userShipments st ++ added
             /\ Forall (fun s => Shipment.arrivalWeek s = week st + LEAD_TIME)
                       added).
  { exists []. now rewrite app_nil_r. }
  unfold step. destruct ev as [|k v|replies]; [contradiction| |].
  - destruct (turnPhase st); exact Same.
  - destruct (canSubmit st); [|exact Same].
    unfold handlePlayerSubmit.
    destruct (gameState st); try exact Same.
    destruct (turnPhase st); try exact Same.
    unfold aiTurn.
    destruct (Z.leb_spec (week st) MAX_WEEKS) as [Hw | Hw].
    + match goal with
      | |- context [resolveWeek st ?dc ?dh] =>
          destruct (resolveWeek_books st dc dh Hw) as (_ & Eu & _)
      end.
      rewrite Eu, !processSupplier_ships, <- app_assoc.
      eexists. split; [reflexivity|].
      apply Forall_app. split;
        match goal with
        | |- context [?c >? 0] => destruct (c >? 0)
        end; repeat constructor.
    + unfold resolveWeek.
      replace (week st >? MAX_WEEKS) with true
        by (symmetry; rewrite Z.gtb_ltb; apply Z.ltb_lt; lia).
      exact Same.
Qed.

(** X23.  What a supplier ships reaches the player two turns later,
    and stays on the list.  Along any game of valid turns, the
    components of a kind the arriving shipments add to the player's
    stock in a turn are those the supplier could ship two turns
    earlier, and none in the first two turns; and no event of a game
    in progress removes an entry from [userShipments]: a step keeps
    the list and appends only shipments due two weeks later. *)
Theorem blackwell_deliveries_exact apiKey k turns :
  (length turns <= horizon)%nat -> Forall validTurn turns ->
  let arrived :=
    Ledger.releasedTrace (playTurn apiKey) (fun st => arrivals st k)
                         started turns in
  let sent :=
    Ledger.scheduledTrace (playTurn apiKey) (sentToPlayer apiKey k)
                          started turns in
  arrived = firstn (length turns) (Ledger.delayed sent)
  /\ Ledger.total arrived + Ledger.total (skipn (length turns - 2) sent)
     = Ledger.total sent
  /\ forall st ev,
       ev <> EStartGame ->
       exists added,
         userShipments (step apiKey st ev) = userShipments st ++ added
         /\ Forall (fun s => Shipment.arrivalWeek s = week st + LEAD_TIME)
                   added.
Proof.
  intros Hlen Hv. cbv zeta.
  destruct (@Ledger.releasedTrace_total State Turn (playTurn apiKey)
              (fun st => arrivals st k) (sentToPlayer apiKey k)
              horizon validTurn (Transit k)
              (@transit_arrives k) (@transit_step apiKey k)
              turns started (transit_at_start k) Hlen Hv) as [E T].
  split; [exact E|]. split; [exact T|].
  intros st ev. apply userShipments_kept.
Qed.

Lemma blackwell_deliveries_exact_witness :
  let turns := repeat (mkTurn 300 120 (Failed, Failed)) 6 in
  let arrived :=
    Ledger.releasedTrace (playTurn EmptyString) (fun st => arrivals st cowos)
                         started turns in
  let sent :=
    Ledger.scheduledTrace (playTurn EmptyString)
                          (sentToPlayer EmptyString cowos) started turns in
  arrived = firstn (length turns) (Ledger.delayed sent)
  /\ Ledger.total arrived + Ledger.total (skipn (length turns - 2) sent)
     = Ledger.total sent
  /\ forall st ev,
       ev <> EStartGame ->
       exists added,
         userShipments (step EmptyString st ev) = userShipments st ++ added
         /\ Forall (fun s => Shipment.arrivalWeek s = week st + LEAD_TIME)
                   added.
Proof.
  apply (@blackwell_deliveries_exact EmptyString cowos
           (repeat (mkTurn 300 120 (Failed, Failed)) 6)).
  - vm_compute. repeat constructor.
  - repeat constructor; simpl; lia.
Defined.
End BlackwellFurther.

(** ** Both semiconductor components *)

(** X24.  Stock and backlog exclude each other at the suppliers, and
    at the assembling player up to the scarcer component.  Whatever
    the state and the orders -- in NvidiaGame.jsx, whenever the stock,
    the arrivals and the backlog it starts from are numbers -- a
    supplier leaves its settlement with a non-negative inventory and a
    non-negative backlog of which at least one is zero; the player is
    left with non-negative stocks and a non-negative backlog, and still
    owes units only when it has run out of one of the two
    components. *)
Theorem semiconductor_stock_excludes_backlog :
  (forall st k playerOrder aiDecision,
      let sup := Nvidia.get (Nvidia.suppliers st) k in
      Js.isNum (Nvidia.Supplier.inventory sup) ->
      Js.isNum (Nvidia.arrivingRaw sup (Nvidia.week st)) ->
      Js.isNum (Nvidia.Supplier.backlog sup) ->
      let s := Nvidia.updateSupplier st k playerOrder aiDecision in
      Js.nonneg (Nvidia.Supplier.inventory s)
      /\ Js.nonneg (Nvidia.Supplier.backlog s)
      /\ (Nvidia.Supplier.inventory s = Js.Int 0
          \/ Nvidia.Supplier.backlog s = Js.Int 0))
  /\ (forall st c h dc dh,
         let p0 := Nvidia.player st in
         Js.isNum (Nvidia.ofCowos (Nvidia.Player.inventory p0)) ->
         Js.isNum (Nvidia.ofHbm (Nvidia.Player.inventory p0)) ->
         Js.isNum (Nvidia.arriving p0 Nvidia.cowos (Nvidia.week st)) ->
         Js.isNum (Nvidia.arriving p0 Nvidia.hbm (Nvidia.week st)) ->
         Js.isNum (Nvidia.Player.backlog p0) ->
         let p := Nvidia.player (Nvidia.finalizeTurn st c h dc dh) in
         Js.nonneg (Nvidia.ofCowos (Nvidia.Player.inventory p))
         /\ Js.nonneg (Nvidia.ofHbm (Nvidia.Player.inventory p))
         /\ Js.nonneg (Nvidia.Player.backlog p)
         /\ (Nvidia.Player.backlog p = Js.Int 0
             \/ Nvidia.ofCowos (Nvidia.Player.inventory p) = Js.Int 0
             \/ Nvidia.ofHbm (Nvidia.Player.inventory p) = Js.Int 0))
  /\ (forall wk ships type userOrder aiDecision cur,
         let s := fst (fst (Blackwell.processSupplier wk ships type userOrder
                                                      aiDecision cur)) in
         0 <= Blackwell.Supplier.inventory s
         /\ 0 <= Blackwell.Supplier.backlog s
         /\ (Blackwell.Supplier.inventory s = 0
             \/ Blackwell.Supplier.backlog s = 0))
  /\ (forall st dc dh,
         Blackwell.week st <= Blackwell.MAX_WEEKS ->
         let st' := Blackwell.resolveWeek st dc dh in
         0 <= Blackwell.ofCowos (Blackwell.inventory st')
         /\ 0 <= Blackwell.ofHbm (Blackwell.inventory st')
         /\ 0 <= Blackwell.blackwellBacklog st'
         /\ (Blackwell.blackwellBacklog st' = 0
             \/ Blackwell.ofCowos (Blackwell.inventory st') = 0
             \/ Blackwell.ofHbm (Blackwell.inventory st') = 0)).
Proof.
  split; [|split; [|split]].
  - intros st k o d. cbv zeta. intros Hi Ha Hb.
    unfold Nvidia.updateSupplier.
    cbn [Nvidia.Supplier.inventory Nvidia.Supplier.backlog].
    destruct (@Js.isNum_Int _ Hi) as (i & ->).
    destruct (@Js.isNum_Int _ Ha) as (a & ->).
    destruct (@Js.isNum_Int _ Hb) as (b & ->).
    cbn [Js.add Js.sub Js.min Js.lift Js.nonneg].
    split; [lia|]. split; [lia|].
    destruct (Z.le_ge_cases (i + a) (o + b));
      [left | right]; f_equal; lia.
  - intros st c h dc dh. cbv zeta. intros Hc Hh Hac Hah Hb.
    unfold Nvidia.finalizeTurn.
    cbn [Nvidia.player Nvidia.Player.inventory Nvidia.Player.backlog
         Nvidia.ofCowos Nvidia.ofHbm].
    destruct (@Js.isNum_Int _ Hc) as (ic & ->).
    destruct (@Js.isNum_Int _ Hh) as (ih & ->).
    destruct (@Js.isNum_Int _ Hac) as (ac & ->).
    destruct (@Js.isNum_Int _ Hah) as (ah & ->).
    destruct (@Js.isNum_Int _ Hb) as (b & ->).
    cbn [Js.add Js.sub Js.min Js.lift Js.nonneg].
    split; [lia|]. split; [lia|]. split; [lia|].
    set (m := nth (Z.to_nat (Nvidia.week st - 1)) Nvidia.DEMAND_SCHEDULE 0).
    destruct (Z.le_ge_cases (m + b) (Z.min (ic + ac) (ih + ah)));
      [left; f_equal; lia|].
    destruct (Z.le_ge_cases (ic + ac) (ih + ah));
      [right; left | right; right]; f_equal; lia.
  - intros wk ships type o d cur. cbv zeta.
    unfold Blackwell.processSupplier.
    cbn [fst Blackwell.Supplier.inventory Blackwell.Supplier.backlog]. lia.
  - intros st dc dh Hw. cbv zeta.
    destruct (@Blackwell.resolveWeek_assembles st dc dh Hw) as [Ei Eb].
    rewrite Ei, Eb. cbn [Blackwell.ofCowos Blackwell.ofHbm]. lia.
Qed.

Lemma semiconductor_stock_excludes_backlog_witness :
  let st' :=
    Blackwell.resolveWeek Blackwell.started
      (Blackwell.mkDecision 0 "hold") (Blackwell.mkDecision 0 "hold") in
  0 <= Blackwell.ofCowos (Blackwell.inventory st')
  /\ 0 <= Blackwell.ofHbm (Blackwell.inventory st')
  /\ 0 <= Blackwell.blackwellBacklog st'
  /\ (Blackwell.blackwellBacklog st' = 0
      \/ Blackwell.ofCowos (Blackwell.inventory st') = 0
      \/ Blackwell.ofHbm (Blackwell.inventory st') = 0).
Proof.
  apply (proj2 (proj2 (proj2 semiconductor_stock_excludes_backlog))
           Blackwell.started).
  vm_compute. congruence.
Defined.
